(** * PDFConverter: a shallow embedding of [PDFProcessor] and
      [DocumentProcessor], and the properties of their specification.

    The two TypeScript classes are glue code over pdf-lib, jsPDF, SheetJS,
    mammoth and the browser canvas.  The embedding keeps the control flow of
    every method as it is written (loops, guards, [try]/[catch], [await] and
    [return]) and models the collaborators by the part of their documented
    behaviour the methods rely on:

    - a PDF document is the ordered list of its pages; serialising and
      parsing are inverse at that level, so the bytes of a PDF are
      represented by the document they parse to;
    - [PDFDocument.save] adds one blank page to a document without pages
      unless [addDefaultPage] is switched off, [removePage] and [copyPages]
      throw on an index outside the document, [setRotation] throws on an
      angle that is no multiple of 90;
    - [canvas.toBlob] encodes PNG and JPEG and falls back to PNG for every
      other MIME type;
    - JavaScript numbers used as indices and angles are integers ([Z]);
      lengths and coordinates in a document are exact rationals ([Q]);
    - the layout arithmetic of [imagesToPdf] runs on IEEE-754 doubles
      ([float]) as in the program, and what it draws is recorded by the
      exact value of the doubles it hands to [drawImage]. *)

From Stdlib Require Import ZArith QArith Qfield Qpower Qabs Lqa.
From Stdlib Require Import List String Ascii Bool Lia.
From Stdlib Require Import Permutation Sorted DecimalString Floats.
From Stdlib Require DecimalN Qround.
Import ListNotations.

Local Open Scope string_scope.
Local Open Scope Z_scope.

(** ** JavaScript effects: exceptions, promises, async functions *)

Module JS.

(** An [Error] object, by its message. *)
Inductive JsError : Type := Error (message : string).

(** How the evaluation of a statement sequence ends. *)
Inductive completion (A : Type) : Type :=
| Normal (a : A)
| Throw (e : JsError).
Arguments Normal {A} a.
Arguments Throw {A} e.

(** The settled state of a promise.  Every operation of the program is a
    single-shot sequence of calls, so a promise is represented by the
    state it settles in. *)
Inductive promise (A : Type) : Type :=
| Fulfilled (a : A)
| Rejected (e : JsError).
Arguments Fulfilled {A} a.
Arguments Rejected {A} e.

Definition bind {A B} (c : completion A) (k : A -> completion B) : completion B :=
  match c with
  | Normal a => k a
  | Throw e => Throw e
  end.

(** [await p]: the value of [p], or a throw of its rejection reason at the
    place of the [await]. *)
Definition await {A} (p : promise A) : completion A :=
  match p with
  | Fulfilled a => Normal a
  | Rejected e => Throw e
  end.

(** What a [return] statement of an async function hands back: a plain
    value, or a promise (returned without [await]). *)
Inductive returned (A : Type) : Type :=
| Value (a : A)
| Thenable (p : promise A).
Arguments Value {A} a.
Arguments Thenable {A} p.

(** The promise of an async function whose body completes with [c]: a
    returned promise is adopted as it is, a throw that leaves the body
    rejects. *)
Definition async {A} (c : completion (returned A)) : promise A :=
  match c with
  | Normal (Value a) => Fulfilled a
  | Normal (Thenable p) => p
  | Throw e => Rejected e
  end.

(** [try { body } catch (error) { handler error }]. *)
Definition try_catch {A} (body : completion A) (handler : JsError -> completion A)
  : completion A :=
  match body with
  | Normal a => Normal a
  | Throw e => handler e
  end.

(** [l.forEach(f)] where [f] updates an object [s] and may throw. *)
Fixpoint forEach {A S} (f : A -> S -> completion S) (l : list A) (s : S)
  : completion S :=
  match l with
  | [] => Normal s
  | x :: l' => bind (f x s) (forEach f l')
  end.

(** [for (const x of l) { acc.push(f x) }], stopping at the first throw. *)
Fixpoint forOf {A B} (f : A -> completion B) (l : list A) : completion (list B) :=
  match l with
  | [] => Normal []
  | x :: l' => bind (f x) (fun y => bind (forOf f l') (fun ys => Normal (y :: ys)))
  end.

(** The indices [0, 1, ..., n-1] of a counting [for] loop. *)
Definition range (n : Z) : list Z := map Z.of_nat (seq 0 (Z.to_nat n)).

(** [Array.prototype.sort(compareFn)]: the stable sort that puts [a]
    before [b] when [compareFn a b <= 0]. *)
Fixpoint sort_insert (compareFn : Z -> Z -> Z) (x : Z) (l : list Z) : list Z :=
  match l with
  | [] => [x]
  | y :: l' => if compareFn x y <=? 0 then x :: y :: l'
               else y :: sort_insert compareFn x l'
  end.

Fixpoint Array_sort (compareFn : Z -> Z -> Z) (l : list Z) : list Z :=
  match l with
  | [] => []
  | x :: l' => sort_insert compareFn x (Array_sort compareFn l')
  end.

(** [String.prototype.includes]. *)
Fixpoint includes (s needle : string) : bool :=
  if prefix needle s then true
  else match s with
       | EmptyString => false
       | String _ s' => includes s' needle
       end.

(** The decimal text of a non-negative integer, as a template literal
    prints it. *)
Definition toString (n : Z) : string :=
  NilZero.string_of_uint (N.to_uint (Z.to_N n)).

Definition LF : string := String (ascii_of_nat 10) EmptyString.

End JS.

Import JS.

Declare Scope js_scope.
Delimit Scope js_scope with js.
Notation "x <- c ;; k" := (JS.bind c (fun x => k))
  (at level 61, c at next level, right associativity) : js_scope.
Local Open Scope js_scope.

(** ** JavaScript numbers *)

(** The double of an integer: the integer itself when its absolute value is
    below [2 ^ 53], the nearest double up to [2 ^ 63]. *)
Definition Number_of_Z (z : Z) : float :=
  match z with
  | Z.neg p => (- of_uint63 (Uint63.of_Z (Z.pos p)))%float
  | _ => of_uint63 (Uint63.of_Z z)
  end.

(** The double a length of a document is read as: the quotient of two
    doubles, correctly rounded, so the double nearest to [q] when numerator
    and denominator are below [2 ^ 53]. *)
Definition Number_of_Q (q : Q) : float :=
  (Number_of_Z (Qnum q) / Number_of_Z (Z.pos (Qden q)))%float.

Definition pow2 (e : Z) : Q := (2 ^ e)%Q.

(** The rational a finite double stands for.  A number that is not finite
    (an infinity or NaN) has no rational value and is given 0; the layout
    arithmetic produces one only for an image without width and height. *)
Definition SF2Q (x : spec_float) : Q :=
  match x with
  | S754_finite s m e =>
      ((if s then - inject_Z (Z.pos m) else inject_Z (Z.pos m)) * pow2 e)%Q
  | _ => 0%Q
  end.

Definition value (x : float) : Q := SF2Q (Prim2SF x).

(** ** Data: images, PDF documents, workbooks, files and blobs *)

Inductive ImageFormat : Type := PNG | JPEG.

(** What has been painted on a canvas, in painting order. *)
Inductive CanvasOp : Type :=
| FillRect (fillStyle : string) (x y w h : Q)
| FillText (fillStyle font textAlign text : string) (x y : Q).

Record Bitmap : Type := {
  bm_width : Z;
  bm_height : Z;
  bm_paint : list CanvasOp
}.

(** An encoded raster image; [quality] is present for lossy encodings. *)
Record EncodedImage : Type := {
  format : ImageFormat;
  quality : option Q;
  bitmap : Bitmap
}.

(** The content of a page: the streams the file came with and what has been
    drawn since. *)
Inductive DrawOp : Type :=
| ContentStream (s : string)
| DrawImageOp (image : EncodedImage) (x y width height : Q).

Record PDFPage : Type := {
  size : Q * Q;          (* width, height *)
  rotation : Z;          (* degrees *)
  contents : list DrawOp
}.

Record PDFDocument : Type := { pages : list PDFPage }.

Definition Worksheet : Type := list (list string).
Definition Workbook : Type := list (string * Worksheet).

(** The bytes of a file or blob, by what they decode to. *)
Inductive Bytes : Type :=
| PdfBytes (objectStreams : bool) (doc : PDFDocument)
| ImageBytes (image : EncodedImage)
| XlsxBytes (wb : Workbook)
| Utf8Text (s : string)
| RawBytes (raw : list Byte.byte).

(** A browser [File]: [arrayBuffer] is the promise [file.arrayBuffer()]
    returns (rejected when the file cannot be read). *)
Record File : Type := {
  name : string;
  type : string;
  arrayBuffer : promise Bytes
}.

(** [new Blob([part], { type })]. *)
Record Blob : Type := {
  blobPart : Bytes;
  blobType : string
}.

(** ** pdf-lib *)

Module PDFLib.

Record SaveOptions : Type := {
  useObjectStreams : bool;
  addDefaultPage : bool
}.

(** [save()] without options. *)
Definition defaultSaveOptions : SaveOptions :=
  {| useObjectStreams := true; addDefaultPage := true |}.

(** [PageSizes.A4], the size of a page added without arguments. *)
Definition A4 : Q * Q := (59528 # 100, 84189 # 100)%Q.

Definition blankPage : PDFPage :=
  {| size := A4; rotation := 0; contents := [] |}.

(** [PDFDocument.create()]. *)
Definition create : promise PDFDocument := Fulfilled {| pages := [] |}.

(** [PDFDocument.load(bytes)]. *)
Definition load (bytes : Bytes) : promise PDFDocument :=
  match bytes with
  | PdfBytes _ doc => Fulfilled doc
  | _ => Rejected (Error "Failed to parse PDF document: No PDF header found")
  end.

Definition getPageCount (doc : PDFDocument) : Z := Z.of_nat (List.length (pages doc)).

Definition getPageIndices (doc : PDFDocument) : list Z := range (getPageCount doc).

(** [getPages()]: the page objects, as handles (positions) into the
    document they belong to, so that a change made through a handle is a
    change of the document. *)
Definition getPages (doc : PDFDocument) : list nat := seq 0 (List.length (pages doc)).

(** [addPage(page)]: the page is appended. *)
Definition addPage (page : PDFPage) (doc : PDFDocument) : PDFDocument :=
  {| pages := pages doc ++ [page] |}.

(** [addPage()]: a blank A4 page is appended; its handle is returned. *)
Definition addNewPage (doc : PDFDocument) : nat * PDFDocument :=
  (List.length (pages doc), addPage blankPage doc).

Fixpoint update_nth {A} (n : nat) (f : A -> A) (l : list A) : list A :=
  match l, n with
  | [], _ => []
  | x :: l', O => f x :: l'
  | x :: l', S n' => x :: update_nth n' f l'
  end.

Definition updatePage (page : nat) (f : PDFPage -> PDFPage) (doc : PDFDocument)
  : PDFDocument :=
  {| pages := update_nth page f (pages doc) |}.

Definition getSize (page : nat) (doc : PDFDocument) : Q * Q :=
  size (nth page (pages doc) blankPage).

(** [copyPages(src, indices)]: copies of the pages of [src] at
    [indices]; an index outside [src] throws. *)
Definition copyPages (src : PDFDocument) (indices : list Z)
  : promise (list PDFPage) :=
  match forOf (fun i : Z =>
                 if (0 <=? i) && (i <? getPageCount src) then
                   match nth_error (pages src) (Z.to_nat i) with
                   | Some p => Normal p
                   | None => Throw (Error "Cannot copy a page that does not exist")
                   end
                 else Throw (Error "Cannot copy a page that does not exist"))
              indices with
  | Normal ps => Fulfilled ps
  | Throw e => Rejected e
  end.

Definition remove_nth {A} (n : nat) (l : list A) : list A :=
  firstn n l ++ skipn (S n) l.

(** [removePage(index)]: throws on a document without pages and on an
    index outside [0, pageCount - 1]. *)
Definition removePage (index : Z) (doc : PDFDocument) : completion PDFDocument :=
  let pageCount := getPageCount doc in
  if pageCount =? 0 then
    Throw (Error "PDFDocument has no pages so `PDFDocument.removePage` cannot be called")
  else if (0 <=? index) && (index <=? pageCount - 1) then
    Normal {| pages := remove_nth (Z.to_nat index) (pages doc) |}
  else Throw (Error "`index` must be at least 0 and at most pageCount - 1").

(** [page.setRotation({ angle, type: 'degrees' })]: the angle replaces the
    page's rotation; an angle that is no multiple of 90 throws. *)
Definition setRotation (angle : Z) (page : nat) (doc : PDFDocument)
  : completion PDFDocument :=
  if Z.rem angle 90 =? 0 then
    Normal (updatePage page
              (fun p => {| size := size p; rotation := angle; contents := contents p |})
              doc)
  else Throw (Error "`degreesAngle` must be a multiple of 90").

(** [embedPng(bytes)] and [embedJpg(bytes)]: the embedded image, when the
    bytes are an image of that format. *)
Definition embed (fmt : ImageFormat) (bytes : Bytes) : promise EncodedImage :=
  match bytes with
  | ImageBytes img =>
      match fmt, format img with
      | PNG, PNG | JPEG, JPEG => Fulfilled img
      | PNG, JPEG => Rejected (Error "The input is not a PNG file!")
      | JPEG, PNG => Rejected (Error "SOI not found in JPEG")
      end
  | _ => match fmt with
         | PNG => Rejected (Error "The input is not a PNG file!")
         | JPEG => Rejected (Error "SOI not found in JPEG")
         end
  end.

Definition embedPng : Bytes -> promise EncodedImage := embed PNG.
Definition embedJpg : Bytes -> promise EncodedImage := embed JPEG.

Definition image_width (image : EncodedImage) : float :=
  Number_of_Z (bm_width (bitmap image)).
Definition image_height (image : EncodedImage) : float :=
  Number_of_Z (bm_height (bitmap image)).

(** [page.drawImage(image, { x, y, width, height })]. *)
Definition drawImage (image : EncodedImage) (x y width height : Q)
    (page : nat) (doc : PDFDocument) : PDFDocument :=
  updatePage page
    (fun p => {| size := size p; rotation := rotation p;
                 contents := contents p ++ [DrawImageOp image x y width height] |})
    doc.

(** [save(options)]: a document without pages gets one blank page first,
    unless [addDefaultPage] is false. *)
Definition save (options : SaveOptions) (doc : PDFDocument) : promise Bytes :=
  let doc' := if addDefaultPage options && (getPageCount doc =? 0)
              then addPage blankPage doc else doc in
  Fulfilled (PdfBytes (useObjectStreams options) doc').

(** What [page.drawText] is given besides the text. *)
Record DrawTextOptions : Type := {
  text_x : Q;
  text_y : Q;
  text_size : Q;
  text_font : string;
  text_color : Q * Q * Q;
  text_opacity : option Q
}.

(** The content-stream operators pdf-lib writes for a text with its options.
    Encoding the text in the font can throw (a standard font has no glyph
    for a character outside WinAnsi). *)
Class TextEncoder : Type := {
  textOperators : string -> DrawTextOptions -> completion string
}.

(** [pdfDoc.embedFont(StandardFonts.Helvetica)]. *)
Definition embedFont (fontName : string) : promise string := Fulfilled fontName.

(** [page.drawText(text, options)]: the operators are appended to the
    page's content. *)
Definition drawText `{TextEncoder} (text : string) (options : DrawTextOptions)
    (page : nat) (doc : PDFDocument) : completion PDFDocument :=
  operators <- textOperators text options ;;
  Normal (updatePage page
            (fun p => {| size := size p; rotation := rotation p;
                         contents := contents p ++ [ContentStream operators] |})
            doc).

End PDFLib.

(** ** The browser canvas *)

Module Canvas.

Record t : Type := {
  width : Z;
  height : Z;
  fillStyle : string;
  font : string;
  textAlign : string;
  paint : list CanvasOp
}.

(** [document.createElement('canvas')] with its 2d context. *)
Definition createElement : t :=
  {| width := 300; height := 150; fillStyle := "#000000";
     font := "10px sans-serif"; textAlign := "start"; paint := [] |}.

(** Setting a dimension clears the bitmap. *)
Definition set_width (w : Z) (c : t) : t :=
  {| width := w; height := height c; fillStyle := fillStyle c;
     font := font c; textAlign := textAlign c; paint := [] |}.

Definition set_height (h : Z) (c : t) : t :=
  {| width := width c; height := h; fillStyle := fillStyle c;
     font := font c; textAlign := textAlign c; paint := [] |}.

Definition set_fillStyle (s : string) (c : t) : t :=
  {| width := width c; height := height c; fillStyle := s;
     font := font c; textAlign := textAlign c; paint := paint c |}.

Definition set_font (s : string) (c : t) : t :=
  {| width := width c; height := height c; fillStyle := fillStyle c;
     font := s; textAlign := textAlign c; paint := paint c |}.

Definition set_textAlign (s : string) (c : t) : t :=
  {| width := width c; height := height c; fillStyle := fillStyle c;
     font := font c; textAlign := s; paint := paint c |}.

Definition fillRect (x y w h : Q) (c : t) : t :=
  {| width := width c; height := height c; fillStyle := fillStyle c;
     font := font c; textAlign := textAlign c;
     paint := paint c ++ [FillRect (fillStyle c) x y w h] |}.

Definition fillText (text : string) (x y : Q) (c : t) : t :=
  {| width := width c; height := height c; fillStyle := fillStyle c;
     font := font c; textAlign := textAlign c;
     paint := paint c ++ [FillText (fillStyle c) (font c) (textAlign c) text x y] |}.

Definition snapshot (c : t) : Bitmap :=
  {| bm_width := width c; bm_height := height c; bm_paint := paint c |}.

(** [canvas.toBlob(callback, type, quality)], by the blob the callback
    receives: JPEG with the given quality for ["image/jpeg"], PNG for
    ["image/png"] and for every type the encoder does not know. *)
Definition toBlob (mimeType : string) (q : Q) (c : t) : promise Blob :=
  if String.eqb mimeType "image/jpeg" then
    Fulfilled {| blobPart := ImageBytes {| format := JPEG; quality := Some q;
                                           bitmap := snapshot c |};
                 blobType := "image/jpeg" |}
  else
    Fulfilled {| blobPart := ImageBytes {| format := PNG; quality := None;
                                           bitmap := snapshot c |};
                 blobType := "image/png" |}.

End Canvas.

(** ** The collaborators of the text conversions *)

(** jsPDF, as [createTextPdf] uses it. *)
Class JsPDF : Type := {
  jsPDF_doc : Type;
  jsPDF_new : completion jsPDF_doc;
  splitTextToSize : string -> Z -> jsPDF_doc -> completion (list string);
  text : list string -> Z -> Z -> jsPDF_doc -> completion jsPDF_doc;
  output_blob : jsPDF_doc -> completion Blob
}.

(** mammoth and the reading half of SheetJS. *)
Class OfficeReaders : Type := {
  mammoth_extractRawText : Bytes -> promise string;
  XLSX_read : Bytes -> completion Workbook;
  XLSX_sheet_to_csv : option Worksheet -> completion string
}.

(** ** The page's DOM, as [htmlToPdf] uses it *)

Module DOM.

Record Element : Type := {
  nodeId : nat;
  tagName : string;
  style : list (string * string);
  src : option string
}.

(** [document]: the next fresh node and the children of [document.body]. *)
Record Document : Type := {
  nextNodeId : nat;
  body : list Element
}.

Definition createElement (tag : string) (document : Document) : Element * Document :=
  ({| nodeId := nextNodeId document; tagName := tag; style := []; src := None |},
   {| nextNodeId := S (nextNodeId document); body := body document |}).

Definition set_style (property value : string) (e : Element) : Element :=
  {| nodeId := nodeId e; tagName := tagName e;
     style := style e ++ [(property, value)]; src := src e |}.

Definition appendChild (e : Element) (document : Document) : Document :=
  {| nextNodeId := nextNodeId document; body := body document ++ [e] |}.

(** [e.src = url], seen through every reference to the node. *)
Definition set_src (e : Element) (url : string) (document : Document) : Document :=
  {| nextNodeId := nextNodeId document;
     body := map (fun c => if Nat.eqb (nodeId c) (nodeId e)
                           then {| nodeId := nodeId c; tagName := tagName c;
                                   style := style c; src := Some url |}
                           else c)
                 (body document) |}.

(** [document.body.removeChild(e)]: throws when [e] is not a child. *)
Definition removeChild (e : Element) (document : Document) : completion Document :=
  if existsb (fun c => Nat.eqb (nodeId c) (nodeId e)) (body document)
  then Normal {| nextNodeId := nextNodeId document;
                 body := filter (fun c => negb (Nat.eqb (nodeId c) (nodeId e)))
                           (body document) |}
  else Throw (Error "NotFoundError: The node to be removed is not a child of this node").

End DOM.

(** What happens to the frame after [iframe.src = url]: its [load] event
    (with the body of [contentDocument], which is [null] for a document of
    another origin), its [error] event, or neither. *)
Inductive FrameEvent : Type :=
| FrameLoaded (contentBody : option string)
| FrameFailed
| FrameSilent.

(** The browser and html2canvas. *)
Class Browser : Type := {
  navigate : string -> FrameEvent;
  html2canvas : string -> Z -> Z -> Z -> promise Canvas.t
}.

(** A promise that may stay pending for ever. *)
Inductive eventually (A : Type) : Type :=
| Settles (p : promise A)
| NeverSettles.
Arguments Settles {A} p.
Arguments NeverSettles {A}.

(** jsPDF, as [htmlToPdf] uses it: a document in millimetres whose pages
    are A4 (210 x 297); pictures go to the last page.  The picture is the
    PNG of a canvas with positive width and height, which [addImage]
    accepts. *)
Module JsPDFPages.

Definition a4Page : PDFPage :=
  {| size := (210, 297)%Q; rotation := 0; contents := [] |}.

(** [new jsPDF('p', 'mm', 'a4')]: one empty page. *)
Definition create : PDFDocument := {| pages := [a4Page] |}.

Definition addPage (pdf : PDFDocument) : PDFDocument :=
  {| pages := pages pdf ++ [a4Page] |}.

(** [pdf.addImage(imgData, 'PNG', x, y, width, height)]. *)
Definition addImage (imgData : EncodedImage) (x y width height : Q) (pdf : PDFDocument)
  : PDFDocument :=
  PDFLib.drawImage imgData x y width height (List.length (pages pdf) - 1)%nat pdf.

(** [pdf.output('blob')]. *)
Definition output (pdf : PDFDocument) : Blob :=
  {| blobPart := PdfBytes false pdf; blobType := "application/pdf" |}.

End JsPDFPages.

(** ** PDFProcessor (src/utils/pdfProcessor.ts) *)

Module PDFProcessor.
Import PDFLib.

(** The parameter type ['jpg' | 'png'] of [pdfToImages]. *)
Inductive ImageKind : Type := jpg | png.

Definition kind_text (k : ImageKind) : string :=
  match k with jpg => "jpg" | png => "png" end.

Definition pdfBlob (pdfBytes : Bytes) : Blob :=
  {| blobPart := pdfBytes; blobType := "application/pdf" |}.

(** The placeholder picture of page [i] (0-based), lines 16-31. *)
Definition pageCanvas (i : Z) : Canvas.t :=
  let canvas := Canvas.createElement in
  let canvas := Canvas.set_width 595 canvas in
  let canvas := Canvas.set_height 842 canvas in
  let canvas := Canvas.set_fillStyle "white" canvas in
  let canvas := Canvas.fillRect 0 0 (inject_Z (Canvas.width canvas))
                  (inject_Z (Canvas.height canvas)) canvas in
  let canvas := Canvas.set_fillStyle "black" canvas in
  let canvas := Canvas.set_font "20px Arial" canvas in
  let canvas := Canvas.set_textAlign "center" canvas in
  Canvas.fillText ("Page " ++ toString (i + 1))
    (inject_Z (Canvas.width canvas) / 2)%Q
    (inject_Z (Canvas.height canvas) / 2)%Q canvas.

(** [format] is ['jpg'] where the call leaves it out. *)
Definition pdfToImages (file : File) (format : ImageKind) : promise (list Blob) :=
  async (
    arrayBuffer <- await (arrayBuffer file) ;;
    pdfDoc <- await (load arrayBuffer) ;;
    let pages := getPages pdfDoc in
    images <- forOf (fun i =>
                let canvas := pageCanvas i in
                blob <- await (Canvas.toBlob ("image/" ++ kind_text format)
                                 (9 # 10)%Q canvas) ;;
                Normal blob)
              (range (Z.of_nat (List.length pages))) ;;
    Normal (Value images)).

(** The placement of an image on its page, lines 61-78:
    [(x, y, imageWidth, imageHeight)], in the doubles of the program. *)
Definition fitImage (image_width image_height width height : float)
  : float * float * float * float :=
  let imageAspectRatio := (image_width / image_height)%float in
  let pageAspectRatio := (width / height)%float in
  let '(imageWidth, imageHeight) :=
    if (pageAspectRatio <? imageAspectRatio)%float
    then (width, (width / imageAspectRatio)%float)
    else ((height * imageAspectRatio)%float, height) in
  (((width - imageWidth) / 2)%float, ((height - imageHeight) / 2)%float,
   imageWidth, imageHeight).

(** [imagesToPdf]: the size of the new page is read as doubles, the
    placement is computed in doubles, and the page records the value of
    what [drawImage] is given. *)
Definition imagesToPdf (files : list File) : promise Blob :=
  async (
    pdfDoc <- await create ;;
    pdfDoc <- forEach (fun file pdfDoc =>
                arrayBuffer <- await (arrayBuffer file) ;;
                image <- (if includes (type file) "png"
                          then await (embedPng arrayBuffer)
                          else await (embedJpg arrayBuffer)) ;;
                let '(page, pdfDoc) := addNewPage pdfDoc in
                let '(width, height) := getSize page pdfDoc in
                let '(x, y, imageWidth, imageHeight) :=
                  fitImage (image_width image) (image_height image)
                    (Number_of_Q width) (Number_of_Q height) in
                Normal (drawImage image (value x) (value y)
                          (value imageWidth) (value imageHeight) page pdfDoc))
              files pdfDoc ;;
    pdfBytes <- await (save defaultSaveOptions pdfDoc) ;;
    Normal (Value (pdfBlob pdfBytes))).

Definition mergePdfs (files : list File) : promise Blob :=
  async (
    mergedPdf <- await create ;;
    mergedPdf <- forEach (fun file mergedPdf =>
                   arrayBuffer <- await (arrayBuffer file) ;;
                   pdf <- await (load arrayBuffer) ;;
                   copiedPages <- await (copyPages pdf (getPageIndices pdf)) ;;
                   forEach (fun page mergedPdf => Normal (addPage page mergedPdf))
                     copiedPages mergedPdf)
                 files mergedPdf ;;
    pdfBytes <- await (save defaultSaveOptions mergedPdf) ;;
    Normal (Value (pdfBlob pdfBytes))).

Definition splitPdf (file : File) : promise (list Blob) :=
  async (
    arrayBuffer <- await (arrayBuffer file) ;;
    pdfDoc <- await (load arrayBuffer) ;;
    let pageCount := getPageCount pdfDoc in
    splitPdfs <- forOf (fun i =>
                   newPdf <- await create ;;
                   copied <- await (copyPages pdfDoc [i]) ;;
                   let newPdf := match copied with
                                 | copiedPage :: _ => addPage copiedPage newPdf
                                 | [] => snd (addNewPage newPdf)
                                 end in
                   pdfBytes <- await (save defaultSaveOptions newPdf) ;;
                   Normal (pdfBlob pdfBytes))
                 (range pageCount) ;;
    Normal (Value splitPdfs)).

Definition compressPdf (file : File) : promise Blob :=
  async (
    arrayBuffer <- await (arrayBuffer file) ;;
    pdfDoc <- await (load arrayBuffer) ;;
    pdfBytes <- await (save {| useObjectStreams := false; addDefaultPage := false |}
                         pdfDoc) ;;
    Normal (Value (pdfBlob pdfBytes))).

(** [degrees] defaults to 90 at the call sites that leave it out. *)
Definition rotatePdf (file : File) (degrees : Z) : promise Blob :=
  async (
    arrayBuffer <- await (arrayBuffer file) ;;
    pdfDoc <- await (load arrayBuffer) ;;
    let pages := getPages pdfDoc in
    pdfDoc <- forEach (fun page pdfDoc => setRotation degrees page pdfDoc)
                pages pdfDoc ;;
    pdfBytes <- await (save defaultSaveOptions pdfDoc) ;;
    Normal (Value (pdfBlob pdfBytes))).

Definition protectPdf (file : File) (password : string) : promise Blob :=
  async (
    arrayBuffer <- await (arrayBuffer file) ;;
    pdfDoc <- await (load arrayBuffer) ;;
    pdfBytes <- await (save defaultSaveOptions pdfDoc) ;;
    Normal (Value (pdfBlob pdfBytes))).

(** [sort] reorders the caller's array in place and returns it; the loop
    only reads the sorted order, which is all that is kept here. *)
Definition deletePages (file : File) (pagesToDelete : list Z) : promise Blob :=
  async (
    arrayBuffer <- await (arrayBuffer file) ;;
    pdfDoc <- await (load arrayBuffer) ;;
    let totalPages := getPageCount pdfDoc in
    let sortedPages := Array_sort (fun a b => b - a) pagesToDelete in
    pdfDoc <- forEach (fun pageIndex pdfDoc =>
                if (pageIndex >=? 0) && (pageIndex <? totalPages)
                then removePage pageIndex pdfDoc
                else Normal pdfDoc)
              sortedPages pdfDoc ;;
    pdfBytes <- await (save defaultSaveOptions pdfDoc) ;;
    Normal (Value (pdfBlob pdfBytes))).

(** [createTextPdf]; [filename] is not used by the body. *)
Definition createTextPdf `{JsPDF} (content filename : string) : promise Blob :=
  async (
    pdf <- jsPDF_new ;;
    lines <- splitTextToSize content 180 pdf ;;
    pdf <- text lines 10 10 pdf ;;
    blob <- output_blob pdf ;;
    Normal (Value blob)).

(** [addWatermark]; the length of the text is counted in characters. *)
Definition addWatermark `{TextEncoder} (file : File) (watermarkText : string)
  : promise Blob :=
  async (
    arrayBuffer <- await (arrayBuffer file) ;;
    pdfDoc <- await (load arrayBuffer) ;;
    let pages := getPages pdfDoc in
    font <- await (embedFont "Helvetica") ;;
    pdfDoc <- forEach (fun page pdfDoc =>
                let '(width, height) := getSize page pdfDoc in
                drawText watermarkText
                  {| text_x := (width / 2
                                - (inject_Z (Z.of_nat (String.length watermarkText)) * 10) / 2)%Q;
                     text_y := (height / 2)%Q;
                     text_size := 50;
                     text_font := font;
                     text_color := (7 # 10, 7 # 10, 7 # 10)%Q;
                     text_opacity := Some (3 # 10)%Q |}
                  page pdfDoc)
              pages pdfDoc ;;
    pdfBytes <- await (save defaultSaveOptions pdfDoc) ;;
    Normal (Value (pdfBlob pdfBytes))).


(** The [while] loop of [htmlToPdf], lines 251-256, run for at most [fuel]
    iterations; [None] when they do not suffice. *)
Fixpoint tilePages (fuel : nat) (imgData : EncodedImage)
    (imgWidth imgHeight pageHeight heightLeft : Q) (pdf : PDFDocument)
  : option PDFDocument :=
  if Qle_bool 0 heightLeft then
    match fuel with
    | O => None
    | S fuel' =>
        let position := (heightLeft - imgHeight)%Q in
        let pdf := JsPDFPages.addPage pdf in
        let pdf := JsPDFPages.addImage imgData 0 position imgWidth imgHeight pdf in
        tilePages fuel' imgData imgWidth imgHeight pageHeight
          (heightLeft - pageHeight)%Q pdf
    end
  else Some pdf.

(** [canvas.toDataURL('image/png')]. *)
Definition toDataURL (canvas : Canvas.t) : EncodedImage :=
  {| format := PNG; quality := None; bitmap := Canvas.snapshot canvas |}.

(** Lines 240-258: the PDF made from the snapshot.  The loop gets more
    iterations than it needs for a canvas of positive width; [None] stands
    for a loop that does not end. *)
Definition renderPdf (canvas : Canvas.t) : option Blob :=
  let imgData := toDataURL canvas in
  let pdf := JsPDFPages.create in
  let imgWidth := 210%Q in
  let pageHeight := 295%Q in
  let imgHeight :=
    ((inject_Z (Canvas.height canvas) * imgWidth) / inject_Z (Canvas.width canvas))%Q in
  let heightLeft := imgHeight in
  let position := 0%Q in
  let pdf := JsPDFPages.addImage imgData 0 position imgWidth imgHeight pdf in
  let heightLeft := (heightLeft - pageHeight)%Q in
  match tilePages (S (Z.to_nat (Qround.Qfloor imgHeight)))
          imgData imgWidth imgHeight pageHeight heightLeft pdf with
  | Some pdf => Some (JsPDFPages.output pdf)
  | None => None
  end.

(** The [catch] block of the load handler and the body of the error
    handler: the frame is removed, then the promise is rejected.  When
    [removeChild] throws, the handler ends before it rejects. *)
Definition removeAndReject (iframe : DOM.Element) (error : JsError)
    (document : DOM.Document) : DOM.Document * eventually Blob :=
  match DOM.removeChild iframe document with
  | Normal document' => (document', Settles (Rejected error))
  | Throw _ => (document, NeverSettles)
  end.

(** [htmlToPdf], on the page's document: the document afterwards and the
    promise. *)
Definition htmlToPdf `{Browser} (url : string) (document : DOM.Document)
  : DOM.Document * eventually Blob :=
  let '(iframe, document) := DOM.createElement "iframe" document in
  let iframe := DOM.set_style "position" "absolute" iframe in
  let iframe := DOM.set_style "left" "-9999px" iframe in
  let iframe := DOM.set_style "width" "1024px" iframe in
  let iframe := DOM.set_style "height" "768px" iframe in
  let document := DOM.appendChild iframe document in
  let document := DOM.set_src iframe url document in
  match navigate url with
  | FrameLoaded contentDocument =>
      match (body <- match contentDocument with
                     | Some body => Normal body
                     | None => Throw (Error "Cannot read properties of null (reading 'body')")
                     end ;;
             canvas <- await (html2canvas body 1024 768 1) ;;
             Normal (renderPdf canvas)) with
      | Normal (Some pdfBlob) =>
          match DOM.removeChild iframe document with
          | Normal document' => (document', Settles (Fulfilled pdfBlob))
          | Throw error => removeAndReject iframe error document
          end
      | Normal None => (document, NeverSettles)
      | Throw error => removeAndReject iframe error document
      end
  | FrameFailed => removeAndReject iframe (Error "Failed to load URL") document
  | FrameSilent => (document, NeverSettles)
  end.

End PDFProcessor.

(** ** The console and [try]/[catch] with logging *)

Module Console.

(** One [console.error(label, error)] call. *)
Definition entry : Type := (string * JsError)%type.

(** A computation that may throw and writes to the console. *)
Definition M (A : Type) : Type := (list entry * completion A)%type.

Definition lift {A} (c : completion A) : M A := ([], c).

Definition bindM {A B} (m : M A) (k : A -> M B) : M B :=
  match m with
  | (l1, Normal a) => let '(l2, c) := k a in ((l1 ++ l2)%list, c)
  | (l1, Throw e) => (l1, Throw e)
  end.

Definition error (label : string) (e : JsError) : M unit :=
  ([(label, e)], Normal tt).

Definition throw {A} (e : JsError) : M A := ([], Throw e).

Definition try_catch {A} (body : M A) (handler : JsError -> M A) : M A :=
  match body with
  | (l1, Normal a) => (l1, Normal a)
  | (l1, Throw e) => let '(l2, c) := handler e in ((l1 ++ l2)%list, c)
  end.

(** An async function that logs: the console output and the promise. *)
Definition async {A} (m : M (returned A)) : list entry * promise A :=
  (fst m, JS.async (snd m)).

End Console.

(** ** DocumentProcessor (src/utils/documentProcessor.ts) *)

Module DocumentProcessor.

(** [name.replace(/\.[^/.]+$/, replacement)]: the text from the last dot
    on is replaced, when at least one character follows that dot and none
    of them is a slash. *)
Fixpoint scan_extension (reversed : list ascii) : option (list ascii) :=
  match reversed with
  | [] => None
  | c :: rest =>
      if Ascii.eqb c "." then Some rest
      else if Ascii.eqb c "/" then None
      else scan_extension rest
  end.

Definition replace_extension (name replacement : string) : string :=
  match rev (list_ascii_of_string name) with
  | [] => name
  | c :: rest =>
      if Ascii.eqb c "." || Ascii.eqb c "/" then name
      else match scan_extension rest with
           | Some stem => string_of_list_ascii (rev stem) ++ replacement
           | None => name
           end
  end.

(** [workbook.Sheets[sheetName]]. *)
Fixpoint Sheets (workbook : Workbook) (sheetName : string) : option Worksheet :=
  match workbook with
  | [] => None
  | (n, ws) :: rest => if String.eqb n sheetName then Some ws else Sheets rest sheetName
  end.

Definition SheetNames (workbook : Workbook) : list string := map fst workbook.

(** The writing half of SheetJS, on the in-memory workbook. *)
Definition aoa_to_sheet (rows : list (list string)) : Worksheet := rows.
Definition book_new : Workbook := [].
Definition book_append_sheet (wb : Workbook) (ws : Worksheet) (sheetName : string)
  : completion Workbook :=
  if existsb (String.eqb sheetName) (SheetNames wb)
  then Throw (Error "Worksheet with that name already exists!")
  else Normal (wb ++ [(sheetName, ws)])%list.
Definition XLSX_write (wb : Workbook) : Bytes := XlsxBytes wb.

Section Methods.
Context `{JsPDF} `{OfficeReaders}.

Definition wordToPdf (file : File) : list Console.entry * promise Blob :=
  Console.async (
    Console.try_catch
      (Console.lift (
         arrayBuffer <- await (arrayBuffer file) ;;
         result <- await (mammoth_extractRawText arrayBuffer) ;;
         Normal (Thenable (PDFProcessor.createTextPdf result
                             (replace_extension (name file) ".pdf")))))
      (fun error =>
         Console.bindM (Console.error "Word to PDF conversion failed:" error)
           (fun _ => Console.throw (Error "Failed to convert Word document")))).

Definition excelToPdf (file : File) : list Console.entry * promise Blob :=
  Console.async (
    Console.try_catch
      (Console.lift (
         arrayBuffer <- await (arrayBuffer file) ;;
         workbook <- XLSX_read arrayBuffer ;;
         content <- forEach (fun sheetName content =>
                      let worksheet := Sheets workbook sheetName in
                      csvData <- XLSX_sheet_to_csv worksheet ;;
                      Normal (content ++ "Sheet: " ++ sheetName ++ LF
                                      ++ csvData ++ LF ++ LF))
                    (SheetNames workbook) EmptyString ;;
         Normal (Thenable (PDFProcessor.createTextPdf content
                             (replace_extension (name file) ".pdf")))))
      (fun error =>
         Console.bindM (Console.error "Excel to PDF conversion failed:" error)
           (fun _ => Console.throw (Error "Failed to convert Excel document")))).

Definition powerPointToPdf (file : File) : list Console.entry * promise Blob :=
  Console.async (
    Console.try_catch
      (Console.lift (
         let content :=
           "PowerPoint Presentation: " ++ name file ++ LF ++ LF ++
           "This is a simplified conversion. The original presentation contained slides that would need specialized processing to maintain formatting." in
         Normal (Thenable (PDFProcessor.createTextPdf content
                             (replace_extension (name file) ".pdf")))))
      (fun error =>
         Console.bindM (Console.error "PowerPoint to PDF conversion failed:" error)
           (fun _ => Console.throw (Error "Failed to convert PowerPoint document")))).

End Methods.

Definition pdfToWord (file : File) : list Console.entry * promise Blob :=
  Console.async (
    Console.try_catch
      (Console.lift (
         let content :=
           "Extracted content from: " ++ name file ++ LF ++ LF ++
           "This is a simplified text extraction from the PDF document. Advanced formatting, images, and complex layouts may not be preserved." in
         let blob :=
           {| blobPart := Utf8Text content;
              blobType := "application/vnd.openxmlformats-officedocument.wordprocessingml.document" |} in
         Normal (Value blob)))
      (fun error =>
         Console.bindM (Console.error "PDF to Word conversion failed:" error)
           (fun _ => Console.throw (Error "Failed to convert PDF to Word")))).

(** The array of arrays handed to [aoa_to_sheet], lines 69-74. *)
Definition extractedRows (file : File) : list (list string) :=
  [ ["Extracted from PDF:"; name file];
    ["Note:"; "This is a simplified extraction"];
    ["Column 1"; "Column 2"; "Column 3"];
    ["Data 1"; "Data 2"; "Data 3"] ].

Definition pdfToExcel (file : File) : list Console.entry * promise Blob :=
  Console.async (
    Console.try_catch
      (Console.lift (
         let ws := aoa_to_sheet (extractedRows file) in
         let wb := book_new in
         wb <- book_append_sheet wb ws "Extracted Data" ;;
         let excelBuffer := XLSX_write wb in
         Normal (Value
           {| blobPart := excelBuffer;
              blobType := "application/vnd.openxmlformats-officedocument.spreadsheetml.sheet" |})))
      (fun error =>
         Console.bindM (Console.error "PDF to Excel conversion failed:" error)
           (fun _ => Console.throw (Error "Failed to convert PDF to Excel")))).

Definition pdfToPowerPoint (file : File) : list Console.entry * promise Blob :=
  Console.async (
    Console.try_catch
      (Console.lift (
         let content :=
           "PowerPoint conversion from: " ++ name file ++ LF ++ LF ++
           "This is a simplified conversion. Each PDF page would typically become a slide." in
         Normal (Value
           {| blobPart := Utf8Text content;
              blobType := "application/vnd.openxmlformats-officedocument.presentationml.presentation" |})))
      (fun error =>
         Console.bindM (Console.error "PDF to PowerPoint conversion failed:" error)
           (fun _ => Console.throw (Error "Failed to convert PDF to PowerPoint")))).

End DocumentProcessor.

(** * Properties *)

Import PDFLib PDFProcessor.
Local Open Scope list_scope.

(** ** Reading results back *)

(** [file] holds a PDF that parses to [doc]. *)
Definition loads (file : File) (doc : PDFDocument) : Prop :=
  exists objectStreams, arrayBuffer file = Fulfilled (PdfBytes objectStreams doc).

(** A valid PDF input: it parses, and the document has at least one page. *)
Definition valid_pdf (file : File) (doc : PDFDocument) : Prop :=
  loads file doc /\ pages doc <> [].

(** The page sequence of a result blob. *)
Definition pdf_pages (blob : Blob) : option (list PDFPage) :=
  match load (blobPart blob) with
  | Fulfilled doc => Some (pages doc)
  | Rejected _ => None
  end.

(** A result blob handed to the next operation, as [new File([blob], name)]. *)
Definition fileOf (fileName : string) (blob : Blob) : File :=
  {| name := fileName; type := blobType blob; arrayBuffer := Fulfilled (blobPart blob) |}.


(** ** Sample inputs *)

Definition samplePage (s : string) : PDFPage :=
  {| size := A4; rotation := 0; contents := [ContentStream s] |}.

Definition pdfFile (fileName : string) (ps : list PDFPage) : File :=
  {| name := fileName; type := "application/pdf";
     arrayBuffer := Fulfilled (PdfBytes true {| pages := ps |}) |}.

Definition fileA : File := pdfFile "a.pdf" [samplePage "p"].
Definition fileB : File := pdfFile "b.pdf" [samplePage "p"; samplePage "p"].
Definition fileABC : File :=
  pdfFile "report.pdf" [samplePage "a"; samplePage "b"; samplePage "c"].

(** The page [p] after [setRotation] with [angle]. *)
Definition withRotation (angle : Z) (p : PDFPage) : PDFPage :=
  {| size := size p; rotation := angle; contents := contents p |}.

(** The guard of [deletePages], line 212, against [totalPages]. *)
Definition inRange (totalPages : Z) (pageIndex : Z) : bool :=
  (pageIndex >=? 0) && (pageIndex <? totalPages).

(** Descending order, the order [(a, b) => b - a] sorts into. *)
Definition descending (a b : Z) : Prop := b <= a.

(** The blob [pdfToImages] produces for page [i] (0-based) when the encoder
    writes PNG. *)
Definition pngPlaceholder (i : Z) : Blob :=
  {| blobPart := ImageBytes {| format := PNG; quality := None;
                               bitmap := Canvas.snapshot (pageCanvas i) |};
     blobType := "image/png" |}.

(** The blob for page [i] when the encoder writes JPEG at quality 0.9. *)
Definition jpegPlaceholder (i : Z) : Blob :=
  {| blobPart := ImageBytes {| format := JPEG; quality := Some (9 # 10)%Q;
                               bitmap := Canvas.snapshot (pageCanvas i) |};
     blobType := "image/jpeg" |}.

(** [file] holds an image of the format its declared MIME type selects,
    with positive dimensions. *)
Definition holds_image (file : File) (image : EncodedImage) : Prop :=
  arrayBuffer file = Fulfilled (ImageBytes image) /\
  format image = (if includes (type file) "png" then PNG else JPEG) /\
  0 < bm_width (bitmap image) /\
  0 < bm_height (bitmap image).

(** The width and height of a new page as the program reads them. *)
Definition A4_double : float * float :=
  (Number_of_Q (fst A4), Number_of_Q (snd A4)).

(** The page [imagesToPdf] makes for [image]. *)
Definition imagePage (image : EncodedImage) : PDFPage :=
  let '(x, y, imageWidth, imageHeight) :=
    fitImage (image_width image) (image_height image)
      (fst A4_double) (snd A4_double) in
  {| size := A4; rotation := 0;
     contents := [DrawImageOp image (value x) (value y)
                    (value imageWidth) (value imageHeight)] |}.

(** The rectangle at [(x, y)], [w] wide and [h] high, shows a picture of
    [iw] by [ih] pixels fitted to the A4 page: it is as wide or as high as
    the page and within it in the other dimension, it has the aspect ratio
    of the picture to a relative error of [2 ^ -51], and it is centred,
    each offset being half of what the rectangle leaves of the page to a
    relative error of [2 ^ -53]. *)
Definition fitted (iw ih : Z) (x y w h : Q) : Prop :=
  (let W := value (fst A4_double) in
   let H := value (snd A4_double) in
   let ratio := inject_Z iw / inject_Z ih in
   0 < w /\ 0 < h /\
   ((w == W /\ h <= H) \/ (h == H /\ w <= W)) /\
   Qabs (w / h - ratio) <= (1 # 2251799813685248) * ratio /\
   Qabs (x - (W - w) / 2) <= (1 # 9007199254740992) * ((W - w) / 2) /\
   Qabs (y - (H - h) / 2) <= (1 # 9007199254740992) * ((H - h) / 2))%Q.

(** [page] is a new A4 page that shows [image] alone, fitted. *)
Definition shows_fitted (image : EncodedImage) (page : PDFPage) : Prop :=
  exists x y w h : Q,
    page = {| size := A4; rotation := 0; contents := [DrawImageOp image x y w h] |} /\
    fitted (bm_width (bitmap image)) (bm_height (bitmap image)) x y w h.

(** The dimensions of [image] are below [2 ^ 53], so exact as doubles; the
    headers of PNG and JPEG files hold them in 31 and 16 bits. *)
Definition exact_dimensions (image : EncodedImage) : Prop :=
  bm_width (bitmap image) < 2 ^ 53 /\ bm_height (bitmap image) < 2 ^ 53.

Definition pngImage (w h : Z) : EncodedImage :=
  {| format := PNG; quality := None;
     bitmap := {| bm_width := w; bm_height := h; bm_paint := [] |} |}.

Definition jpegImage (w h : Z) : EncodedImage :=
  {| format := JPEG; quality := Some (3 # 4)%Q;
     bitmap := {| bm_width := w; bm_height := h; bm_paint := [] |} |}.

Definition imageFile (fileName mime : string) (image : EncodedImage) : File :=
  {| name := fileName; type := mime; arrayBuffer := Fulfilled (ImageBytes image) |}.

(** A jsPDF that lays the text out and then throws from [output], as it does
    on a document too long to serialise. *)
Definition jsPDF_output_throws : JsPDF :=
  {| jsPDF_doc := list string;
     jsPDF_new := Normal [];
     splitTextToSize := fun content _ _ => Normal [content];
     text := fun lines _ _ doc => Normal (doc ++ lines);
     output_blob := fun _ => Throw (Error "Invalid string length") |}.

(** Readers that accept the sample inputs below. *)
Definition sampleReaders : OfficeReaders :=
  {| mammoth_extractRawText :=
       fun bytes => match bytes with
                    | Utf8Text s => Fulfilled s
                    | _ => Rejected (Error "Can't find end of central directory")
                    end;
     XLSX_read :=
       fun bytes => match bytes with
                    | XlsxBytes wb => Normal wb
                    | _ => Throw (Error "Unsupported file")
                    end;
     XLSX_sheet_to_csv :=
       fun ws => match ws with
                 | Some rows => Normal (String.concat LF (map (String.concat ",") rows))
                 | None => Throw (Error "Cannot read properties of undefined")
                 end |}.

Definition docxFile : File :=
  {| name := "letter.docx";
     type := "application/vnd.openxmlformats-officedocument.wordprocessingml.document";
     arrayBuffer := Fulfilled (Utf8Text "Dear reader") |}.

Definition xlsxFile : File :=
  {| name := "table.xlsx";
     type := "application/vnd.openxmlformats-officedocument.spreadsheetml.sheet";
     arrayBuffer := Fulfilled (XlsxBytes [("Sheet1", [["a"; "b"]])]) |}.

Definition pptxFile : File :=
  {| name := "slides.pptx";
     type := "application/vnd.openxmlformats-officedocument.presentationml.presentation";
     arrayBuffer := Fulfilled (RawBytes []) |}.

(** The pages of [ps], numbered from [k], whose number is not in [deleted]. *)
Fixpoint keepFrom (k : Z) (deleted : list Z) (ps : list PDFPage) : list PDFPage :=
  match ps with
  | [] => []
  | p :: ps' =>
      if existsb (Z.eqb k) deleted then keepFrom (k + 1) deleted ps'
      else p :: keepFrom (k + 1) deleted ps'
  end.

(** The pages that are left when the 0-based indices [deleted] are removed. *)
Definition keepPages (deleted : list Z) (ps : list PDFPage) : list PDFPage :=
  keepFrom 0 deleted ps.

(** A PDF without pages. *)
Definition emptyPdf : File := pdfFile "empty.pdf" [].

(** Readers whose CSV conversion refuses a sheet without rows. *)
Definition fragileReaders : OfficeReaders :=
  {| mammoth_extractRawText := fun _ => Rejected (Error "Not a Word document");
     XLSX_read :=
       fun bytes => match bytes with
                    | XlsxBytes wb => Normal wb
                    | _ => Throw (Error "Unsupported file")
                    end;
     XLSX_sheet_to_csv :=
       fun ws => match ws with
                 | Some (row :: rows) => Normal "a,b"
                 | _ => Throw (Error "Sheet has no rows")
                 end |}.

Definition twoSheetFile : File :=
  {| name := "book.xlsx";
     type := "application/vnd.openxmlformats-officedocument.spreadsheetml.sheet";
     arrayBuffer := Fulfilled (XlsxBytes [("Data", [["a"; "b"]]); ("Blank", [])]) |}.

(** ** Vocabulary for htmlToPdf *)

(** Every child of the body was created before the next fresh node. *)
Definition wellFormed (document : DOM.Document) : Prop :=
  Forall (fun c => (DOM.nodeId c < DOM.nextNodeId document)%nat) (DOM.body document).

(** The frame [htmlToPdf] creates in [document], as it sits in the body
    once its source is set. *)
Definition hiddenFrame (url : string) (document : DOM.Document) : DOM.Element :=
  {| DOM.nodeId := DOM.nextNodeId document;
     DOM.tagName := "iframe";
     DOM.style := [("position", "absolute"); ("left", "-9999px");
                   ("width", "1024px"); ("height", "768px")]%string;
     DOM.src := Some url |}.

(** The document after the frame has been created and removed again. *)
Definition afterRelease (document : DOM.Document) : DOM.Document :=
  {| DOM.nextNodeId := S (DOM.nextNodeId document); DOM.body := DOM.body document |}.

(** The document with the frame still in it. *)
Definition withFrame (url : string) (document : DOM.Document) : DOM.Document :=
  {| DOM.nextNodeId := S (DOM.nextNodeId document);
     DOM.body := DOM.body document ++ [hiddenFrame url document] |}.

(** A jsPDF page that shows [imgData] alone, its top edge at [y]. *)
Definition tiledPage (imgData : EncodedImage) (y width height : Q) : PDFPage :=
  {| size := (210, 297)%Q; rotation := 0;
     contents := [DrawImageOp imgData 0 y width height] |}.

(** The height, in millimetres, of the snapshot scaled to the page width. *)
Definition scaledHeight (canvas : Canvas.t) : Q :=
  ((inject_Z (Canvas.height canvas) * 210) / inject_Z (Canvas.width canvas))%Q.

Definition blankCanvas (w h : Z) : Canvas.t :=
  Canvas.set_height h (Canvas.set_width w Canvas.createElement).

(** A browser in which one address loads, one belongs to another origin,
    one fails and the others never answer; the snapshot has the size asked
    for. *)
Definition sampleBrowser : Browser :=
  {| navigate := fun url =>
       if String.eqb url "https://example.org/" then FrameLoaded (Some "<p>hello</p>")
       else if String.eqb url "https://elsewhere.example/" then FrameLoaded None
       else if String.eqb url "https://down.example/" then FrameFailed
       else FrameSilent;
     html2canvas := fun _ width height scale =>
       Fulfilled (blankCanvas (width * scale) (height * scale)) |}.

(** A browser whose snapshot fails. *)
Definition brokenSnapshotBrowser : Browser :=
  {| navigate := fun _ => FrameLoaded (Some "<p>hello</p>");
     html2canvas := fun _ _ _ _ => Rejected (Error "Unable to find element in cloned iframe") |}.

Definition samplePageDocument : DOM.Document :=
  {| DOM.nextNodeId := 2;
     DOM.body := [ {| DOM.nodeId := 0; DOM.tagName := "div"; DOM.style := []; DOM.src := None |};
                   {| DOM.nodeId := 1; DOM.tagName := "iframe"; DOM.style := [];
                      DOM.src := Some "https://example.org/" |} ] |}.

(** ** Vocabulary for the text stamps *)



(** The options of the watermark on page [p]. *)
Definition watermarkOptions (watermarkText : string) (p : PDFPage) : DrawTextOptions :=
  {| text_x := (fst (size p) / 2
                - (inject_Z (Z.of_nat (String.length watermarkText)) * 10) / 2)%Q;
     text_y := (snd (size p) / 2)%Q;
     text_size := 50;
     text_font := "Helvetica";
     text_color := (7 # 10, 7 # 10, 7 # 10)%Q;
     text_opacity := Some (3 # 10)%Q |}.



(** An encoder that has glyphs for the 7-bit characters only. *)
Definition asciiEncoder : TextEncoder :=
  {| textOperators := fun text options =>
       if existsb (fun c => (127 <? nat_of_ascii c)%nat) (list_ascii_of_string text)
       then Throw (Error "WinAnsi cannot encode the text")
       else Normal ("(" ++ text ++ ") Tj")%string |}.

(** ** Vocabulary for the arithmetic of doubles *)

(** Where an exact value [t], counted in units of the last place, lies
    between the integer [m] and the next one. *)
Definition at_location (m : Z) (l : location) (t : Q) : Prop :=
  match l with
  | loc_Exact => t == inject_Z m
  | loc_Inexact Lt => inject_Z m < t /\ t < inject_Z m + (1 # 2)
  | loc_Inexact Eq => t == inject_Z m + (1 # 2)
  | loc_Inexact Gt => inject_Z m + (1 # 2) < t /\ t < inject_Z m + 1
  end%Q.

(** [m''] is [T] rounded to an integer, [m'] being the integer part of
    [T]: [T] itself when it is an integer, one of its neighbours at a
    distance of a half at most otherwise. *)
Definition rounded (m' m'' : Z) (T : Q) : Prop :=
  ((T == inject_Z m' /\ m'' = m') \/
   (inject_Z m' < T /\ T < inject_Z m' + 1 /\ (m'' = m' \/ m'' = (m' + 1)%Z) /\
    inject_Z m'' - T <= (1 # 2) /\ T - inject_Z m'' <= (1 # 2)))%Q.

(** A positive rational that a double of full precision holds, the range of
    the exponent left aside. *)
Definition is_double (b : Q) : Prop :=
  exists m e, 2 ^ 52 <= m < 2 ^ 53 /\ (b == inject_Z m * pow2 e)%Q.

(** [V] is the positive rational [x] rounded to a nearest double: within
    [2 ^ -53] of it, relatively, with no double between them. *)
Definition rounds (x V : Q) : Prop :=
  (0 < x /\
   V - x <= (1 # 9007199254740992) * x /\ x - V <= (1 # 9007199254740992) * x /\
   (forall b, is_double b -> x <= b -> V <= b) /\
   (forall b, is_double b -> b <= x -> b <= V))%Q.

(** [x] is a positive double of full precision, of mantissa [m] and
    exponent [e]. *)
Definition positive_double (x : float) (m : positive) (e : Z) : Prop :=
  Prim2SF x = S754_finite false m e /\ 2 ^ 52 <= Z.pos m < 2 ^ 53.
(** ** Loops *)

Lemma forOf_map {A B} (f : A -> completion B) (g : A -> B) (l : list A) :
  (forall x, In x l -> f x = Normal (g x)) ->
  forOf f l = Normal (map g l).
Proof.
  induction l as [|x l IH]; intros Hf; simpl.
  - reflexivity.
  - rewrite (Hf x (or_introl eq_refl)); simpl.
    rewrite IH by (intros y Hy; apply Hf; right; exact Hy).
    reflexivity.
Qed.

Lemma forEach_app {A S} (f : A -> S -> completion S) (l1 l2 : list A) (s : S) :
  forEach f (l1 ++ l2) s = (s' <- forEach f l1 s ;; forEach f l2 s').
Proof.
  revert s; induction l1 as [|x l1 IH]; intros s; simpl.
  - reflexivity.
  - destruct (f x s) as [s'|e]; simpl; [apply IH | reflexivity].
Qed.

Lemma map_nth_seq {A} (l : list A) (d : A) :
  map (fun i => nth i l d) (seq 0 (List.length l)) = l.
Proof.
  apply nth_ext with (d := d) (d' := d).
  - rewrite length_map, length_seq; reflexivity.
  - intros n Hn. rewrite length_map, length_seq in Hn.
    rewrite (nth_indep _ d (nth 0 l d)) by (rewrite length_map, length_seq; exact Hn).
    rewrite (map_nth (fun i => nth i l d)), seq_nth by exact Hn.
    reflexivity.
Qed.

Lemma range_spec (n : nat) : range (Z.of_nat n) = map Z.of_nat (seq 0 n).
Proof. unfold range; rewrite Nat2Z.id; reflexivity. Qed.

Lemma in_range_iff (n : nat) (i : Z) :
  In i (range (Z.of_nat n)) <-> 0 <= i < Z.of_nat n.
Proof.
  rewrite range_spec, in_map_iff; split.
  - intros [k [<- Hk]]. apply in_seq in Hk. lia.
  - intros Hi. exists (Z.to_nat i). split; [lia | apply in_seq; lia].
Qed.

(** ** pdf-lib facts *)

Arguments save : simpl never.

Lemma copyPage_at (doc : PDFDocument) (i : Z) :
  0 <= i < getPageCount doc ->
  (if (0 <=? i) && (i <? getPageCount doc) then
     match nth_error (pages doc) (Z.to_nat i) with
     | Some p => Normal p
     | None => Throw (Error "Cannot copy a page that does not exist")
     end
   else Throw (Error "Cannot copy a page that does not exist"))
  = Normal (nth (Z.to_nat i) (pages doc) blankPage).
Proof.
  intros Hi. unfold getPageCount in *.
  replace ((0 <=? i) && (i <? Z.of_nat (List.length (pages doc)))) with true
    by (symmetry; apply andb_true_intro; split; [apply Z.leb_le | apply Z.ltb_lt]; lia).
  destruct (nth_error (pages doc) (Z.to_nat i)) as [p|] eqn:E.
  - rewrite (nth_error_nth _ _ blankPage E); reflexivity.
  - apply nth_error_None in E; lia.
Qed.

Lemma copyPages_in_range (doc : PDFDocument) (indices : list Z) :
  Forall (fun i => 0 <= i < getPageCount doc) indices ->
  copyPages doc indices
  = Fulfilled (map (fun i => nth (Z.to_nat i) (pages doc) blankPage) indices).
Proof.
  intros Hall. unfold copyPages.
  rewrite (forOf_map _ (fun i => nth (Z.to_nat i) (pages doc) blankPage)).
  - reflexivity.
  - intros i Hi. apply copyPage_at. rewrite Forall_forall in Hall. auto.
Qed.

Lemma copyPages_all (doc : PDFDocument) :
  copyPages doc (getPageIndices doc) = Fulfilled (pages doc).
Proof.
  rewrite copyPages_in_range.
  - unfold getPageIndices, getPageCount. rewrite range_spec, map_map.
    erewrite map_ext; [rewrite map_nth_seq; reflexivity|].
    intros k; simpl; rewrite Nat2Z.id; reflexivity.
  - apply Forall_forall. intros i Hi. apply in_range_iff in Hi. exact Hi.
Qed.

Lemma save_nonempty (doc : PDFDocument) :
  pages doc <> [] ->
  save defaultSaveOptions doc = Fulfilled (PdfBytes true doc).
Proof.
  intros Hne. unfold save, getPageCount; simpl.
  destruct (pages doc) as [|p ps] eqn:E; [contradiction|].
  reflexivity.
Qed.

Lemma save_empty :
  save defaultSaveOptions {| pages := [] |}
  = Fulfilled (PdfBytes true {| pages := [blankPage] |}).
Proof. reflexivity. Qed.

Lemma doc_eta (doc : PDFDocument) : {| pages := pages doc |} = doc.
Proof. destruct doc; reflexivity. Qed.

(** ** splitPdf *)

Lemma loads_inv (file : File) (doc : PDFDocument) :
  loads file doc ->
  (arrayBuffer <- await (arrayBuffer file) ;; await (load arrayBuffer)) = Normal doc.
Proof. intros [os E]; rewrite E; reflexivity. Qed.

Lemma valid_pdf_sample (fileName : string) (p : PDFPage) (ps : list PDFPage) :
  valid_pdf (pdfFile fileName (p :: ps)) {| pages := p :: ps |}.
Proof. split; [exists true; reflexivity | discriminate]. Qed.

Lemma splitPdf_blobs (file : File) (doc : PDFDocument) :
  loads file doc ->
  splitPdf file
  = Fulfilled (map (fun p => pdfBlob (PdfBytes true {| pages := [p] |})) (pages doc)).
Proof.
  intros [os E]. unfold splitPdf. rewrite E; simpl.
  rewrite (forOf_map _
    (fun i => pdfBlob (PdfBytes true
                {| pages := [nth (Z.to_nat i) (pages doc) blankPage] |}))).
  - simpl. unfold getPageCount. rewrite range_spec, map_map.
    rewrite <- (map_nth_seq (pages doc) blankPage) at 2.
    rewrite map_map. f_equal.
    apply map_ext; intros k. rewrite Nat2Z.id; reflexivity.
  - intros i Hi. apply in_range_iff in Hi. simpl.
    rewrite copyPages_in_range by (constructor; [exact Hi | constructor]).
    reflexivity.
Qed.

(** C4.  For every PDF input that parses, with [pageCount] pages,
    [splitPdf] is fulfilled with exactly [pageCount] blobs, in page order,
    and blob [i] is a PDF whose only page is page [i] of the input. *)
Theorem splitPdf_one_blob_per_page (file : File) (doc : PDFDocument) :
  loads file doc ->
  exists blobs,
    splitPdf file = Fulfilled blobs /\
    Z.of_nat (List.length blobs) = getPageCount doc /\
    map pdf_pages blobs = map (fun p => Some [p]) (pages doc) /\
    (forall i p, nth_error (pages doc) i = Some p ->
                 option_map pdf_pages (nth_error blobs i) = Some (Some [p])).
Proof.
  intros Hl. eexists. split; [apply splitPdf_blobs; exact Hl|].
  split; [|split].
  - rewrite length_map; reflexivity.
  - rewrite map_map; reflexivity.
  - intros i p Hp. rewrite nth_error_map, Hp; reflexivity.
Qed.

Lemma splitPdf_one_blob_per_page_witness :
  loads fileABC {| pages := [samplePage "a"; samplePage "b"; samplePage "c"] |} /\
  exists blobs,
    splitPdf fileABC = Fulfilled blobs /\
    Z.of_nat (List.length blobs) = 3 /\
    map pdf_pages blobs
    = [Some [samplePage "a"]; Some [samplePage "b"]; Some [samplePage "c"]].
Proof.
  assert (H : loads fileABC
                {| pages := [samplePage "a"; samplePage "b"; samplePage "c"] |})
    by (exists true; reflexivity).
  split; [exact H|].
  destruct (splitPdf_one_blob_per_page _ _ H) as [blobs [E [Hn [Hm _]]]].
  exists blobs. split; [exact E | split; [exact Hn | exact Hm]].
Defined.

(** ** mergePdfs *)

Lemma forEach_addPage (ps : list PDFPage) (doc : PDFDocument) :
  forEach (fun page mergedPdf => Normal (addPage page mergedPdf)) ps doc
  = Normal {| pages := pages doc ++ ps |}.
Proof.
  revert doc; induction ps as [|p ps IH]; intros doc; simpl.
  - rewrite app_nil_r, doc_eta; reflexivity.
  - rewrite IH; simpl. rewrite <- app_assoc; reflexivity.
Qed.

Lemma merge_loop (files : list File) (docs : list PDFDocument) (mergedPdf : PDFDocument) :
  Forall2 loads files docs ->
  forEach (fun file mergedPdf =>
             arrayBuffer <- await (arrayBuffer file) ;;
             pdf <- await (load arrayBuffer) ;;
             copiedPages <- await (copyPages pdf (getPageIndices pdf)) ;;
             forEach (fun page mergedPdf => Normal (addPage page mergedPdf))
               copiedPages mergedPdf)
          files mergedPdf
  = Normal {| pages := pages mergedPdf ++ List.concat (map pages docs) |}.
Proof.
  intros Hall; revert mergedPdf.
  induction Hall as [|file doc files docs [os E] _ IH]; intros mergedPdf; simpl.
  - rewrite app_nil_r, doc_eta; reflexivity.
  - rewrite E; simpl. rewrite copyPages_all; simpl.
    rewrite forEach_addPage; simpl. rewrite IH; simpl.
    rewrite <- app_assoc; reflexivity.
Qed.

Lemma mergePdfs_loaded (files : list File) (docs : list PDFDocument) :
  Forall2 loads files docs ->
  mergePdfs files
  = async (pdfBytes <- await (save defaultSaveOptions
                                {| pages := List.concat (map pages docs) |}) ;;
           Normal (Value (pdfBlob pdfBytes))).
Proof.
  intros Hall. unfold mergePdfs; simpl.
  rewrite (merge_loop files docs _ Hall); reflexivity.
Qed.

Lemma Forall2_valid_loads (files : list File) (docs : list PDFDocument) :
  Forall2 valid_pdf files docs -> Forall2 loads files docs.
Proof. induction 1 as [|f d fs ds [Hl _] _ IH]; constructor; assumption. Qed.

Lemma concat_valid_nonempty (files : list File) (docs : list PDFDocument) :
  Forall2 valid_pdf files docs -> files <> [] -> List.concat (map pages docs) <> [].
Proof.
  intros Hall Hne. destruct Hall as [|f d fs ds [_ Hd] _]; [contradiction|].
  simpl. destruct (pages d); [contradiction | discriminate].
Qed.

Lemma mergePdfs_valid (files : list File) (docs : list PDFDocument) :
  Forall2 valid_pdf files docs -> files <> [] ->
  mergePdfs files
  = Fulfilled (pdfBlob (PdfBytes true {| pages := List.concat (map pages docs) |})).
Proof.
  intros Hall Hne.
  rewrite (mergePdfs_loaded files docs (Forall2_valid_loads _ _ Hall)).
  rewrite save_nonempty by (apply (concat_valid_nonempty files); assumption).
  reflexivity.
Qed.

(** C3 (amended).  For every non-empty list of valid PDF inputs the page
    sequence of [mergePdfs files] is the concatenation of the inputs' page
    sequences in input-list order; [mergePdfs [a; b]] has the page sequence
    [pages a ++ pages b], and [mergePdfs [b; a]] differs from
    [mergePdfs [a; b]] exactly when [pages b ++ pages a] differs from
    [pages a ++ pages b]. *)
Theorem mergePdfs_page_sequence (files : list File) (docs : list PDFDocument) :
  Forall2 valid_pdf files docs -> files <> [] ->
  (exists blob, mergePdfs files = Fulfilled blob /\
                pdf_pages blob = Some (List.concat (map pages docs))) /\
  (forall a b da db, files = [a; b] -> docs = [da; db] ->
     (exists blob, mergePdfs [a; b] = Fulfilled blob /\
                   pdf_pages blob = Some (pages da ++ pages db)) /\
     (mergePdfs [b; a] <> mergePdfs [a; b]
      <-> pages db ++ pages da <> pages da ++ pages db)).
Proof.
  intros Hall Hne. split.
  - eexists. split; [apply mergePdfs_valid; eassumption | reflexivity].
  - intros a b da db -> ->.
    assert (Hba : Forall2 valid_pdf [b; a] [db; da]).
    { inversion Hall as [|? ? ? ? Ha Hrest]; subst.
      inversion Hrest as [|? ? ? ? Hb _]; subst.
      constructor; [exact Hb|]. constructor; [exact Ha|]. constructor. }
    rewrite (mergePdfs_valid _ _ Hall Hne).
    rewrite (mergePdfs_valid _ _ Hba) by discriminate.
    simpl. rewrite !app_nil_r. split.
    + eexists; split; reflexivity.
    + split.
      * intros Hdiff Heq. apply Hdiff. rewrite Heq. reflexivity.
      * intros Hdiff Heq. apply Hdiff. injection Heq; auto.
Qed.

Lemma mergePdfs_page_sequence_witness :
  exists blob,
    mergePdfs [fileA; fileB] = Fulfilled blob /\
    pdf_pages blob = Some [samplePage "p"; samplePage "p"; samplePage "p"].
Proof.
  assert (Hall : Forall2 valid_pdf [fileA; fileB]
                   [ {| pages := [samplePage "p"] |};
                     {| pages := [samplePage "p"; samplePage "p"] |} ]).
  { repeat constructor; try (exists true; reflexivity); discriminate. }
  assert (Hne : [fileA; fileB] <> []) by discriminate.
  destruct (mergePdfs_page_sequence _ _ Hall Hne) as [[blob [E Hp]] _].
  exists blob. split; [exact E | exact Hp].
Defined.

(** C3 as stated fails twice: two different valid inputs whose page
    sequences commute under concatenation merge to the same result in either
    order, and the merge of the empty list holds the blank page that [save]
    adds, not the empty concatenation. *)
Lemma mergePdfs_claim_counterexample :
  (valid_pdf fileA {| pages := [samplePage "p"] |} /\
   valid_pdf fileB {| pages := [samplePage "p"; samplePage "p"] |} /\
   fileA <> fileB /\
   mergePdfs [fileB; fileA] = mergePdfs [fileA; fileB]) /\
  (exists blob, mergePdfs [] = Fulfilled blob /\
                pdf_pages blob = Some [blankPage] /\
                pdf_pages blob <> Some (List.concat (map pages []))).
Proof.
  split.
  - split; [apply valid_pdf_sample|].
    split; [apply valid_pdf_sample|].
    split; [discriminate | reflexivity].
  - eexists. split; [reflexivity|]. split; [reflexivity | discriminate].
Qed.

(** ** protectPdf *)

Lemma protectPdf_valid (file : File) (doc : PDFDocument) (password : string) :
  valid_pdf file doc ->
  protectPdf file password = Fulfilled (pdfBlob (PdfBytes true doc)).
Proof.
  intros [[os E] Hne]. unfold protectPdf. rewrite E; cbn.
  rewrite save_nonempty by exact Hne. reflexivity.
Qed.

(** C2.  The password has no effect: for every valid PDF input and any two
    passwords the results of [protectPdf] are the same, and the result is a
    re-serialisation with the page sequence (content and count) of the
    input. *)
Theorem protectPdf_password_has_no_effect
    (file : File) (doc : PDFDocument) (p1 p2 : string) :
  valid_pdf file doc ->
  protectPdf file p1 = protectPdf file p2 /\
  exists blob, protectPdf file p1 = Fulfilled blob /\
               pdf_pages blob = Some (pages doc) /\
               blobType blob = "application/pdf"%string.
Proof.
  intros Hv. split; [reflexivity|].
  eexists. split; [apply protectPdf_valid; exact Hv|].
  split; reflexivity.
Qed.

Lemma protectPdf_password_has_no_effect_witness :
  protectPdf fileB "secret" = protectPdf fileB "hunter2" /\
  exists blob, protectPdf fileB "secret" = Fulfilled blob /\
               pdf_pages blob = Some [samplePage "p"; samplePage "p"].
Proof.
  assert (Hv : valid_pdf fileB {| pages := [samplePage "p"; samplePage "p"] |})
    by (split; [exists true; reflexivity | discriminate]).
  destruct (protectPdf_password_has_no_effect fileB
              {| pages := [samplePage "p"; samplePage "p"] |} "secret" "hunter2" Hv)
    as [Heq [blob [E [Hp _]]]].
  split; [exact Heq|]. exists blob. split; [exact E | exact Hp].
Defined.

(** ** rotatePdf *)

Lemma update_nth_app {A} (f : A -> A) (pre : list A) (x : A) (rest : list A) :
  update_nth (List.length pre) f (pre ++ x :: rest) = pre ++ f x :: rest.
Proof. induction pre as [|y pre IH]; simpl; [reflexivity | rewrite IH; reflexivity]. Qed.

Lemma rotate_loop_from (angle : Z) (rest pre : list PDFPage) :
  Z.rem angle 90 = 0 ->
  forEach (fun page pdfDoc => setRotation angle page pdfDoc)
    (seq (List.length pre) (List.length rest)) {| pages := pre ++ rest |}
  = Normal {| pages := pre ++ map (withRotation angle) rest |}.
Proof.
  intros Hmul. revert pre.
  induction rest as [|p rest IH]; intros pre; simpl.
  - reflexivity.
  - unfold setRotation at 1. rewrite Hmul; simpl.
    unfold updatePage; simpl. rewrite update_nth_app.
    transitivity
      (forEach (fun page pdfDoc => setRotation angle page pdfDoc)
         (seq (List.length (pre ++ [withRotation angle p])) (List.length rest))
         {| pages := (pre ++ [withRotation angle p]) ++ rest |}).
    + rewrite length_app, <- app_assoc; simpl.
      replace (List.length pre + 1)%nat with (S (List.length pre)) by lia.
      reflexivity.
    + rewrite IH, <- app_assoc. reflexivity.
Qed.

Lemma rotate_loop (angle : Z) (doc : PDFDocument) :
  Z.rem angle 90 = 0 ->
  forEach (fun page pdfDoc => setRotation angle page pdfDoc) (getPages doc) doc
  = Normal {| pages := map (withRotation angle) (pages doc) |}.
Proof.
  intros Hmul. unfold getPages.
  rewrite <- (doc_eta doc) at 2.
  apply (rotate_loop_from angle (pages doc) [] Hmul).
Qed.

Lemma rotate_loop_throws (angle : Z) (doc : PDFDocument) :
  Z.rem angle 90 <> 0 -> pages doc <> [] ->
  forEach (fun page pdfDoc => setRotation angle page pdfDoc) (getPages doc) doc
  = Throw (Error "`degreesAngle` must be a multiple of 90").
Proof.
  intros Hmul Hne. unfold getPages.
  destruct (pages doc) as [|p ps]; [contradiction|]. simpl.
  unfold setRotation. apply Z.eqb_neq in Hmul. rewrite Hmul. reflexivity.
Qed.

Lemma rotatePdf_valid (file : File) (doc : PDFDocument) (degrees : Z) :
  valid_pdf file doc -> Z.rem degrees 90 = 0 ->
  rotatePdf file degrees
  = Fulfilled (pdfBlob (PdfBytes true
                 {| pages := map (withRotation degrees) (pages doc) |})).
Proof.
  intros [[os E] Hne] Hmul. unfold rotatePdf. rewrite E; cbn.
  rewrite (rotate_loop degrees doc Hmul); cbn.
  rewrite save_nonempty; [reflexivity|].
  simpl. destruct (pages doc); [contradiction | discriminate].
Qed.

Lemma rotatePdf_rejects (file : File) (doc : PDFDocument) (degrees : Z) :
  valid_pdf file doc -> Z.rem degrees 90 <> 0 ->
  rotatePdf file degrees = Rejected (Error "`degreesAngle` must be a multiple of 90").
Proof.
  intros [[os E] Hne] Hmul. unfold rotatePdf. rewrite E; cbn.
  rewrite (rotate_loop_throws degrees doc Hmul Hne). reflexivity.
Qed.

Lemma withRotation_idem (angle : Z) (ps : list PDFPage) :
  map (withRotation angle) (map (withRotation angle) ps) = map (withRotation angle) ps.
Proof. rewrite map_map. apply map_ext. intros p; reflexivity. Qed.

Lemma rotated_valid (fileName : string) (doc : PDFDocument) (degrees : Z) :
  pages doc <> [] ->
  valid_pdf
    (fileOf fileName (pdfBlob (PdfBytes true
                        {| pages := map (withRotation degrees) (pages doc) |})))
    {| pages := map (withRotation degrees) (pages doc) |}.
Proof.
  intros Hne. split; [exists true; reflexivity|].
  simpl. destruct (pages doc); [contradiction | discriminate].
Qed.

(** C8.  [rotatePdf] sets an absolute angle: on every valid PDF,
    [rotatePdf file 90] gives every page the rotation 90 whatever it was
    before, and applying [rotatePdf _ 90] to the result gives the same pages
    again, all with rotation 90 (not 180); for every fixed angle, rotating a
    result once more with that angle leaves it as it is. *)
Theorem rotatePdf_absolute_and_idempotent (file : File) (doc : PDFDocument) :
  valid_pdf file doc ->
  (exists once,
      rotatePdf file 90 = Fulfilled once /\
      pdf_pages once = Some (map (withRotation 90) (pages doc)) /\
      exists twice,
        rotatePdf (fileOf (name file) once) 90 = Fulfilled twice /\
        pdf_pages twice = Some (map (withRotation 90) (pages doc)) /\
        forall ps, pdf_pages twice = Some ps ->
                   Forall (fun p => rotation p = 90 /\ rotation p <> 180) ps) /\
  (forall degrees once,
      rotatePdf file degrees = Fulfilled once ->
      rotatePdf (fileOf (name file) once) degrees = Fulfilled once).
Proof.
  intros Hv. assert (Hne : pages doc <> []) by apply Hv. split.
  - eexists. split; [apply rotatePdf_valid; [exact Hv | reflexivity]|].
    split; [reflexivity|].
    eexists. split.
    + rewrite (rotatePdf_valid _ _ 90 (rotated_valid (name file) doc 90 Hne))
        by reflexivity.
      simpl. rewrite withRotation_idem. reflexivity.
    + split; [reflexivity|].
      intros ps Hps. injection Hps as <-.
      apply Forall_forall. intros p Hp. apply in_map_iff in Hp.
      destruct Hp as [q [<- _]]. simpl. split; [reflexivity | discriminate].
  - intros degrees once Honce.
    destruct (Z.eq_dec (Z.rem degrees 90) 0) as [Hmul|Hmul].
    + rewrite (rotatePdf_valid _ _ _ Hv Hmul) in Honce.
      injection Honce as <-.
      rewrite (rotatePdf_valid _ _ degrees (rotated_valid (name file) doc degrees Hne))
        by exact Hmul.
      simpl. rewrite withRotation_idem. reflexivity.
    + rewrite (rotatePdf_rejects _ _ _ Hv Hmul) in Honce. discriminate.
Qed.

Lemma rotatePdf_absolute_and_idempotent_witness :
  exists once,
    rotatePdf fileB 90 = Fulfilled once /\
    pdf_pages once
    = Some [withRotation 90 (samplePage "p"); withRotation 90 (samplePage "p")] /\
    rotatePdf (fileOf "b.pdf" once) 90 = Fulfilled once.
Proof.
  assert (Hv : valid_pdf fileB {| pages := [samplePage "p"; samplePage "p"] |})
    by (split; [exists true; reflexivity | discriminate]).
  destruct (rotatePdf_absolute_and_idempotent fileB
              {| pages := [samplePage "p"; samplePage "p"] |} Hv)
    as [[once [E [Hp _]]] Hidem].
  exists once. split; [exact E|]. split; [exact Hp|].
  exact (Hidem 90 once E).
Defined.

(** ** Sorting into descending order *)

Lemma sort_insert_perm (compareFn : Z -> Z -> Z) (x : Z) (l : list Z) :
  Permutation (sort_insert compareFn x l) (x :: l).
Proof.
  induction l as [|y l IH]; simpl.
  - apply Permutation_refl.
  - destruct (compareFn x y <=? 0).
    + apply Permutation_refl.
    + apply perm_trans with (y :: x :: l); [apply perm_skip; exact IH | apply perm_swap].
Qed.

Lemma Array_sort_perm (compareFn : Z -> Z -> Z) (l : list Z) :
  Permutation (Array_sort compareFn l) l.
Proof.
  induction l as [|x l IH]; simpl.
  - apply perm_nil.
  - apply perm_trans with (x :: Array_sort compareFn l);
      [apply sort_insert_perm | apply perm_skip; exact IH].
Qed.

Lemma sort_insert_sorted (x : Z) (l : list Z) :
  StronglySorted descending l ->
  StronglySorted descending (sort_insert (fun a b => b - a) x l).
Proof.
  induction 1 as [|y l Hs IH Hy]; simpl.
  - repeat constructor.
  - destruct (y - x <=? 0) eqn:E.
    + apply Z.leb_le in E. constructor; [constructor; assumption|].
      constructor; [unfold descending; lia|].
      eapply Forall_impl; [|exact Hy]. unfold descending; intros z Hz; lia.
    + apply Z.leb_gt in E. constructor; [exact IH|].
      eapply Permutation_Forall; [apply Permutation_sym, sort_insert_perm|].
      constructor; [unfold descending; lia | exact Hy].
Qed.

Lemma Array_sort_sorted (l : list Z) :
  StronglySorted descending (Array_sort (fun a b => b - a) l).
Proof.
  induction l as [|x l IH]; simpl; [constructor | apply sort_insert_sorted; exact IH].
Qed.

Lemma sort_insert_front (x : Z) (l : list Z) :
  Forall (descending x) l -> sort_insert (fun a b => b - a) x l = x :: l.
Proof.
  intros Hall. destruct l as [|y l]; simpl; [reflexivity|].
  inversion Hall as [|? ? Hy _]; subst. unfold descending in Hy.
  replace (y - x <=? 0) with true by (symmetry; apply Z.leb_le; lia).
  reflexivity.
Qed.

Lemma filter_sort_insert (keep : Z -> bool) (x : Z) (l : list Z) :
  StronglySorted descending l ->
  filter keep (sort_insert (fun a b => b - a) x l)
  = if keep x then sort_insert (fun a b => b - a) x (filter keep l)
    else filter keep l.
Proof.
  induction 1 as [|y l Hs IH Hy]; simpl.
  - destruct (keep x); reflexivity.
  - destruct (y - x <=? 0) eqn:E.
    + apply Z.leb_le in E. simpl.
      destruct (keep x); [|reflexivity].
      rewrite sort_insert_front; [reflexivity|].
      apply Forall_forall. intros z Hz.
      assert (Hin : In z (y :: l)).
      { destruct (keep y); [destruct Hz as [<-|Hz]; [left; reflexivity|]|];
          right; apply filter_In in Hz; apply Hz. }
      destruct Hin as [<-|Hin]; [unfold descending; lia|].
      rewrite Forall_forall in Hy. specialize (Hy z Hin).
      unfold descending in *; lia.
    + simpl. rewrite IH. destruct (keep y), (keep x); simpl; try reflexivity.
      rewrite E. reflexivity.
Qed.

Lemma filter_Array_sort (keep : Z -> bool) (l : list Z) :
  filter keep (Array_sort (fun a b => b - a) l)
  = Array_sort (fun a b => b - a) (filter keep l).
Proof.
  induction l as [|x l IH]; simpl; [reflexivity|].
  rewrite filter_sort_insert by apply Array_sort_sorted.
  rewrite IH. destruct (keep x); reflexivity.
Qed.

(** ** deletePages *)

Lemma delete_loop_filter (totalPages : Z) (l : list Z) (doc : PDFDocument) :
  forEach (fun pageIndex pdfDoc =>
             if inRange totalPages pageIndex
             then removePage pageIndex pdfDoc else Normal pdfDoc) l doc
  = forEach (fun pageIndex pdfDoc =>
               if inRange totalPages pageIndex
               then removePage pageIndex pdfDoc else Normal pdfDoc)
      (filter (inRange totalPages) l) doc.
Proof.
  revert doc; induction l as [|x l IH]; intros doc; simpl; [reflexivity|].
  destruct (inRange totalPages x) eqn:E; simpl.
  - rewrite E. destruct (removePage x doc); simpl; [apply IH | reflexivity].
  - apply IH.
Qed.

Lemma length_remove_nth {A} (n : nat) (l : list A) :
  (n < List.length l)%nat -> S (List.length (remove_nth n l)) = List.length l.
Proof.
  intros Hn. unfold remove_nth.
  rewrite length_app, length_firstn, length_skipn. lia.
Qed.

Lemma removePage_in_range (index : Z) (ps : list PDFPage) :
  0 <= index < Z.of_nat (List.length ps) ->
  removePage index {| pages := ps |}
  = Normal {| pages := remove_nth (Z.to_nat index) ps |}.
Proof.
  intros Hi. unfold removePage, getPageCount; simpl.
  replace (Z.of_nat (List.length ps) =? 0) with false
    by (symmetry; apply Z.eqb_neq; lia).
  replace ((0 <=? index) && (index <=? Z.of_nat (List.length ps) - 1)) with true
    by (symmetry; apply andb_true_intro; split; apply Z.leb_le; lia).
  reflexivity.
Qed.

Lemma delete_loop_count (totalPages : Z) (l : list Z) :
  StronglySorted descending l -> NoDup l ->
  forall ps,
    Forall (fun i => 0 <= i < Z.of_nat (List.length ps)) l ->
    Z.of_nat (List.length ps) <= totalPages ->
    exists ps',
      forEach (fun pageIndex pdfDoc =>
                 if inRange totalPages pageIndex
                 then removePage pageIndex pdfDoc else Normal pdfDoc)
        l {| pages := ps |} = Normal {| pages := ps' |} /\
      (List.length ps' + List.length l = List.length ps)%nat.
Proof.
  induction 1 as [|x l Hs IH Hx]; intros Hnd ps Hall Htot; simpl.
  - exists ps. split; [reflexivity | lia].
  - inversion Hall as [|? ? Hxr Hrest]; subst.
    inversion Hnd as [|? ? Hnotin Hnd']; subst.
    replace (inRange totalPages x) with true
      by (symmetry; apply andb_true_intro; split;
          [apply Z.geb_le | apply Z.ltb_lt]; lia).
    rewrite removePage_in_range by exact Hxr. simpl.
    assert (Hlen : S (List.length (remove_nth (Z.to_nat x) ps)) = List.length ps)
      by (apply length_remove_nth; lia).
    destruct (IH Hnd' (remove_nth (Z.to_nat x) ps)) as [ps' [E Hcount]].
    + apply Forall_forall. intros i Hi.
      rewrite Forall_forall in Hx, Hrest.
      specialize (Hx i Hi). specialize (Hrest i Hi). unfold descending in Hx.
      assert (i <> x) by (intros ->; contradiction).
      lia.
    + lia.
    + exists ps'. split; [exact E | lia].
Qed.

Lemma deletePages_loaded (file : File) (doc : PDFDocument) (pagesToDelete : list Z) :
  loads file doc ->
  deletePages file pagesToDelete
  = async (
      pdfDoc <- forEach (fun pageIndex pdfDoc =>
                  if inRange (getPageCount doc) pageIndex
                  then removePage pageIndex pdfDoc else Normal pdfDoc)
                (Array_sort (fun a b => b - a) pagesToDelete) doc ;;
      pdfBytes <- await (save defaultSaveOptions pdfDoc) ;;
      Normal (Value (pdfBlob pdfBytes))).
Proof. intros [os E]. unfold deletePages. rewrite E. reflexivity. Qed.

Lemma deletePages_filter (file : File) (doc : PDFDocument) (pagesToDelete : list Z) :
  loads file doc ->
  deletePages file pagesToDelete
  = deletePages file (filter (inRange (getPageCount doc)) pagesToDelete).
Proof.
  intros Hl. rewrite !(deletePages_loaded file doc) by exact Hl.
  rewrite delete_loop_filter, filter_Array_sort. reflexivity.
Qed.

Lemma deletePages_nil (file : File) (doc : PDFDocument) :
  valid_pdf file doc ->
  deletePages file [] = Fulfilled (pdfBlob (PdfBytes true doc)).
Proof.
  intros [Hl Hne]. rewrite (deletePages_loaded file doc) by exact Hl. cbn.
  rewrite save_nonempty by exact Hne. reflexivity.
Qed.

Lemma filter_none {A} (keep : A -> bool) (l : list A) :
  Forall (fun x => keep x = false) l -> filter keep l = [].
Proof.
  induction 1 as [|x l Hx _ IH]; simpl; [reflexivity | rewrite Hx; exact IH].
Qed.

(** ** Which pages deletePages leaves *)

Lemma existsb_eqb_In (k : Z) (l : list Z) :
  existsb (Z.eqb k) l = true <-> In k l.
Proof.
  rewrite existsb_exists. split.
  - intros [y [Hy Heq]]. apply Z.eqb_eq in Heq. subst y. exact Hy.
  - intros Hin. exists k. split; [exact Hin | apply Z.eqb_refl].
Qed.

Lemma existsb_eqb_false (k : Z) (l : list Z) :
  ~ In k l -> existsb (Z.eqb k) l = false.
Proof.
  intros Hnot. apply not_true_is_false. intros E.
  apply Hnot, existsb_eqb_In, E.
Qed.

Lemma existsb_eqb_perm (k : Z) (l1 l2 : list Z) :
  Permutation l1 l2 -> existsb (Z.eqb k) l1 = existsb (Z.eqb k) l2.
Proof.
  intros Hperm. apply eq_true_iff_eq. rewrite !existsb_eqb_In. split.
  - apply Permutation_in. exact Hperm.
  - apply Permutation_in. apply Permutation_sym. exact Hperm.
Qed.

Lemma keepFrom_perm (l1 l2 : list Z) (ps : list PDFPage) (k : Z) :
  Permutation l1 l2 -> keepFrom k l1 ps = keepFrom k l2 ps.
Proof.
  intros Hperm. revert k. induction ps as [|p ps IH]; intros k; simpl.
  - reflexivity.
  - rewrite (existsb_eqb_perm k l1 l2 Hperm), IH. reflexivity.
Qed.

Lemma keepFrom_above (l : list Z) (ps : list PDFPage) (k : Z) :
  Forall (fun i => i < k) l -> keepFrom k l ps = ps.
Proof.
  revert k. induction ps as [|p ps IH]; intros k Hall; simpl.
  - reflexivity.
  - rewrite existsb_eqb_false.
    + rewrite IH; [reflexivity|].
      eapply Forall_impl; [|exact Hall]. intros i Hi; simpl in Hi; lia.
    + intros Hin. rewrite Forall_forall in Hall. specialize (Hall k Hin). lia.
Qed.

Lemma keepFrom_app (l : list Z) (pre rest : list PDFPage) (k : Z) :
  keepFrom k l (pre ++ rest)
  = keepFrom k l pre ++ keepFrom (k + Z.of_nat (List.length pre)) l rest.
Proof.
  revert k. induction pre as [|p pre IH]; intros k; simpl.
  - rewrite Z.add_0_r. reflexivity.
  - rewrite IH.
    replace (k + 1 + Z.of_nat (List.length pre))
      with (k + Z.pos (Pos.of_succ_nat (List.length pre))) by lia.
    destruct (existsb (Z.eqb k) l); reflexivity.
Qed.

Lemma keepFrom_below (x : Z) (l : list Z) (pre : list PDFPage) (k : Z) :
  k + Z.of_nat (List.length pre) <= x ->
  keepFrom k (x :: l) pre = keepFrom k l pre.
Proof.
  revert k. induction pre as [|p pre IH]; intros k Hk; simpl.
  - reflexivity.
  - simpl in Hk. replace (k =? x) with false by (symmetry; apply Z.eqb_neq; lia).
    simpl. rewrite IH by lia. reflexivity.
Qed.

Lemma keepPages_remove (x : Z) (l : list Z) (ps : list PDFPage) :
  0 <= x < Z.of_nat (List.length ps) ->
  Forall (fun i => i < x) l ->
  keepPages l (remove_nth (Z.to_nat x) ps) = keepPages (x :: l) ps.
Proof.
  intros Hx Hl. unfold keepPages, remove_nth.
  assert (Hpre : List.length (firstn (Z.to_nat x) ps) = Z.to_nat x)
    by (rewrite length_firstn; lia).
  rewrite <- (firstn_skipn (Z.to_nat x) ps) at 3.
  rewrite !keepFrom_app, Hpre, Z2Nat.id, Z.add_0_l by lia.
  rewrite keepFrom_below by lia.
  f_equal.
  destruct (skipn (Z.to_nat x) ps) as [|p post] eqn:E.
  - assert (Hlen := length_skipn (Z.to_nat x) ps). rewrite E in Hlen. simpl in Hlen. lia.
  - replace (skipn (S (Z.to_nat x)) ps) with post.
    + simpl. rewrite Z.eqb_refl. simpl.
      rewrite (keepFrom_above l post x) by exact Hl.
      symmetry. apply keepFrom_above. constructor; [lia|].
      eapply Forall_impl; [|exact Hl]. intros i Hi; simpl in Hi; lia.
    + change (S (Z.to_nat x)) with (1 + Z.to_nat x)%nat.
      rewrite <- skipn_skipn, E. reflexivity.
Qed.

Lemma delete_loop_pages (totalPages : Z) (l : list Z) :
  StronglySorted descending l -> NoDup l ->
  forall ps,
    Forall (fun i => 0 <= i < Z.of_nat (List.length ps)) l ->
    Z.of_nat (List.length ps) <= totalPages ->
    forEach (fun pageIndex pdfDoc =>
               if inRange totalPages pageIndex
               then removePage pageIndex pdfDoc else Normal pdfDoc)
      l {| pages := ps |} = Normal {| pages := keepPages l ps |}.
Proof.
  induction 1 as [|x l Hs IH Hx]; intros Hnd ps Hall Htot; simpl.
  - unfold keepPages. rewrite keepFrom_above by constructor. reflexivity.
  - inversion Hall as [|? ? Hxr Hrest]; subst.
    inversion Hnd as [|? ? Hnotin Hnd']; subst.
    assert (Hbelow : Forall (fun i => i < x) l).
    { apply Forall_forall. intros i Hi. rewrite Forall_forall in Hx.
      specialize (Hx i Hi). unfold descending in Hx.
      assert (i <> x) by (intros ->; contradiction). lia. }
    replace (inRange totalPages x) with true
      by (symmetry; apply andb_true_intro; split;
          [apply Z.geb_le | apply Z.ltb_lt]; lia).
    rewrite removePage_in_range by exact Hxr. simpl.
    assert (Hlen : S (List.length (remove_nth (Z.to_nat x) ps)) = List.length ps)
      by (apply length_remove_nth; lia).
    rewrite IH.
    + rewrite keepPages_remove by assumption. reflexivity.
    + exact Hnd'.
    + apply Forall_forall. intros i Hi.
      rewrite Forall_forall in Hbelow, Hrest.
      specialize (Hbelow i Hi). specialize (Hrest i Hi). lia.
    + lia.
Qed.

(** C5.  On every valid PDF, [deletePages file []] is the identity on the
    page sequence; indices outside [0, pageCount) are ignored without an
    error (the result is the one obtained from the in-range indices alone),
    so deleting only indices that are negative or at least [pageCount]
    leaves the pages, and their count, unchanged. *)
Theorem deletePages_identity_and_out_of_range (file : File) (doc : PDFDocument) :
  valid_pdf file doc ->
  (exists blob, deletePages file [] = Fulfilled blob /\
                pdf_pages blob = Some (pages doc)) /\
  (forall pagesToDelete,
      deletePages file pagesToDelete
      = deletePages file (filter (inRange (getPageCount doc)) pagesToDelete)) /\
  (forall pagesToDelete,
      Forall (fun i => i < 0 \/ getPageCount doc <= i) pagesToDelete ->
      exists blob, deletePages file pagesToDelete = Fulfilled blob /\
                   pdf_pages blob = Some (pages doc) /\
                   option_map (@List.length PDFPage) (pdf_pages blob)
                   = Some (List.length (pages doc))).
Proof.
  intros Hv. split; [|split].
  - eexists. split; [apply deletePages_nil; exact Hv | reflexivity].
  - intros l. apply deletePages_filter. apply Hv.
  - intros l Hout. rewrite (deletePages_filter file doc) by apply Hv.
    rewrite filter_none.
    + eexists. split; [apply deletePages_nil; exact Hv|]. split; reflexivity.
    + eapply Forall_impl; [|exact Hout]. intros i Hi. unfold inRange.
      destruct Hi as [Hi|Hi].
      * replace (i >=? 0) with false by (symmetry; rewrite Z.geb_leb; apply Z.leb_gt; lia).
        reflexivity.
      * replace (i <? getPageCount doc) with false
          by (symmetry; apply Z.ltb_ge; lia).
        apply andb_false_r.
Qed.

Lemma deletePages_identity_and_out_of_range_witness :
  (exists blob, deletePages fileABC [] = Fulfilled blob /\
                pdf_pages blob
                = Some [samplePage "a"; samplePage "b"; samplePage "c"]) /\
  (exists blob, deletePages fileABC [3; 7; -1] = Fulfilled blob /\
                pdf_pages blob
                = Some [samplePage "a"; samplePage "b"; samplePage "c"]).
Proof.
  assert (Hv : valid_pdf fileABC
                 {| pages := [samplePage "a"; samplePage "b"; samplePage "c"] |})
    by (split; [exists true; reflexivity | discriminate]).
  destruct (deletePages_identity_and_out_of_range fileABC
              {| pages := [samplePage "a"; samplePage "b"; samplePage "c"] |} Hv)
    as [Hnil [_ Hout]].
  split; [exact Hnil|].
  destruct (Hout [3; 7; -1]) as [blob [E [Hp _]]].
  - repeat constructor; unfold getPageCount; simpl; lia.
  - exists blob. split; [exact E | exact Hp].
Defined.

(** C10 (amended).  For every valid PDF with [n] pages and every list of
    pairwise-distinct indices all within [0, n), [deletePages] is fulfilled
    with a document of [n - length pagesToDelete] pages when that number is
    positive (they are the pages whose index is not listed, in their order);
    when the list names all [n] pages the result holds the single blank page
    that [save] adds to a document without pages. *)
Theorem deletePages_page_count
    (file : File) (doc : PDFDocument) (pagesToDelete : list Z) :
  valid_pdf file doc ->
  NoDup pagesToDelete ->
  Forall (fun i => 0 <= i < getPageCount doc) pagesToDelete ->
  exists blob ps,
    deletePages file pagesToDelete = Fulfilled blob /\
    pdf_pages blob = Some ps /\
    Z.of_nat (List.length pagesToDelete) <= getPageCount doc /\
    (Z.of_nat (List.length pagesToDelete) < getPageCount doc ->
     Z.of_nat (List.length ps)
     = getPageCount doc - Z.of_nat (List.length pagesToDelete) /\
     ps = keepPages pagesToDelete (pages doc)) /\
    (Z.of_nat (List.length pagesToDelete) = getPageCount doc ->
     ps = [blankPage]).
Proof.
  intros [Hl Hne] Hnd Hall.
  rewrite (deletePages_loaded file doc) by exact Hl.
  set (sorted := Array_sort (fun a b => b - a) pagesToDelete).
  assert (Hperm : Permutation sorted pagesToDelete) by apply Array_sort_perm.
  assert (Hsorted : StronglySorted descending sorted) by apply Array_sort_sorted.
  assert (Hnd' : NoDup sorted)
    by (eapply Permutation_NoDup; [apply Permutation_sym; exact Hperm | exact Hnd]).
  assert (Hall' : Forall (fun i => 0 <= i < Z.of_nat (List.length (pages doc))) sorted)
    by (eapply Permutation_Forall; [apply Permutation_sym; exact Hperm | exact Hall]).
  assert (Htot : Z.of_nat (List.length (pages doc)) <= getPageCount doc)
    by (unfold getPageCount; lia).
  destruct (delete_loop_count (getPageCount doc) sorted Hsorted Hnd'
              (pages doc) Hall' Htot) as [ps' [E Hcount]].
  assert (E' := delete_loop_pages (getPageCount doc) sorted Hsorted Hnd'
                  (pages doc) Hall' Htot).
  rewrite E in E'. injection E' as Hps'.
  unfold keepPages in Hps'. rewrite (keepFrom_perm _ _ _ _ Hperm) in Hps'.
  rewrite doc_eta in E. rewrite E. cbn.
  rewrite (Permutation_length Hperm) in Hcount.
  unfold getPageCount.
  destruct ps' as [|p ps'].
  - rewrite save_empty. cbn. do 2 eexists.
    split; [reflexivity|]. split; [reflexivity|].
    simpl in Hcount. split; [lia|]. split; [intros; lia | reflexivity].
  - rewrite save_nonempty by discriminate. cbn. do 2 eexists.
    split; [reflexivity|]. split; [reflexivity|].
    simpl in Hcount. split; [lia|]. split.
    + intros _. split; [simpl; lia | exact Hps'].
    + intros; lia.
Qed.

Lemma deletePages_page_count_witness :
  exists blob ps,
    deletePages fileABC [2; 0] = Fulfilled blob /\
    pdf_pages blob = Some ps /\
    Z.of_nat (List.length ps) = 1 /\
    ps = [samplePage "b"].
Proof.
  assert (Hv : valid_pdf fileABC
                 {| pages := [samplePage "a"; samplePage "b"; samplePage "c"] |})
    by (split; [exists true; reflexivity | discriminate]).
  destruct (deletePages_page_count fileABC
              {| pages := [samplePage "a"; samplePage "b"; samplePage "c"] |}
              [2; 0] Hv)
    as [blob [ps [E [Hp [_ [Hleft _]]]]]].
  - repeat constructor; simpl; intuition lia.
  - repeat constructor; unfold getPageCount; simpl; lia.
  - exists blob, ps. split; [exact E|]. split; [exact Hp|].
    apply Hleft. unfold getPageCount; simpl; lia.
Defined.

(** C10 as stated fails when every page is deleted: the one-page document
    with [pagesToDelete = [0]] comes back with one page, not [1 - 1 = 0]. *)
Lemma deletePages_claim_counterexample :
  valid_pdf fileA {| pages := [samplePage "p"] |} /\
  NoDup [0] /\
  Forall (fun i => 0 <= i < getPageCount {| pages := [samplePage "p"] |}) [0] /\
  exists blob,
    deletePages fileA [0] = Fulfilled blob /\
    pdf_pages blob = Some [blankPage] /\
    option_map (fun ps => Z.of_nat (List.length ps)) (pdf_pages blob)
    <> Some (getPageCount {| pages := [samplePage "p"] |}
             - Z.of_nat (List.length [0])).
Proof.
  split; [apply valid_pdf_sample|].
  split; [repeat constructor; simpl; tauto|].
  split; [repeat constructor; unfold getPageCount; simpl; lia|].
  eexists. split; [reflexivity|]. split; [reflexivity | discriminate].
Qed.

(** Distinctness is needed: the guard compares against the page count taken
    before any removal, so the second copy of an index that was the last
    page reaches [removePage] on the shorter document. *)
Example deletePages_duplicate_index :
  deletePages fileB [1; 1]
  = Rejected (Error "`index` must be at least 0 and at most pageCount - 1").
Proof. reflexivity. Qed.

(** ** pdfToImages *)

Lemma pageCanvas_bitmap (i : Z) :
  Canvas.snapshot (pageCanvas i)
  = {| bm_width := 595; bm_height := 842;
       bm_paint := [ FillRect "white" 0 0 (inject_Z 595) (inject_Z 842);
                     FillText "black" "20px Arial" "center"
                       ("Page " ++ toString (i + 1))%string
                       (inject_Z 595 / 2)%Q (inject_Z 842 / 2)%Q ] |}.
Proof. reflexivity. Qed.

(** One placeholder picture per page, whichever of the two formats is asked
    for: the MIME type built for [png] is ["image/png"], the one built for
    [jpg] is ["image/jpg"], and both end in the PNG branch of [toBlob]. *)
Lemma pdfToImages_blobs (file : File) (doc : PDFDocument) (kind : ImageKind) :
  loads file doc ->
  pdfToImages file kind = Fulfilled (map pngPlaceholder (range (getPageCount doc))).
Proof.
  intros [os E]. unfold pdfToImages. rewrite E; cbn.
  unfold getPages. rewrite length_seq.
  rewrite (forOf_map _ pngPlaceholder).
  - reflexivity.
  - intros i _. destruct kind; reflexivity.
Qed.

Lemma pdfToImages_count (file : File) (doc : PDFDocument) (kind : ImageKind) :
  loads file doc ->
  exists blobs, pdfToImages file kind = Fulfilled blobs /\
                Z.of_nat (List.length blobs) = getPageCount doc.
Proof.
  intros Hl. eexists. split; [apply pdfToImages_blobs; exact Hl|].
  unfold getPageCount. rewrite range_spec, !length_map, length_seq. reflexivity.
Qed.

(** C6 at the failing input.  Asked for [jpg], [pdfToImages] does return one
    595 x 842 picture per page with the 1-based label, but encoded as PNG and
    without the quality 0.9: the MIME type it builds, ["image/jpg"], is not
    the JPEG type ["image/jpeg"]. *)
Theorem pdfToImages_jpg_is_encoded_as_png :
  pdfToImages fileB jpg = Fulfilled [pngPlaceholder 0; pngPlaceholder 1] /\
  pdfToImages fileB jpg <> Fulfilled [jpegPlaceholder 0; jpegPlaceholder 1] /\
  map blobType [pngPlaceholder 0; pngPlaceholder 1] = ["image/png"; "image/png"]%string /\
  (forall file, pdfToImages file jpg = pdfToImages file png).
Proof.
  split; [reflexivity|]. split; [discriminate|]. split; reflexivity.
Qed.

(** ** Doubles: rounding to nearest

    The arithmetic of [float] is specified by the functions of [SpecFloat]
    on mantissa and exponent.  What follows relates them to the rationals:
    a quotient, a product or a difference of positive doubles is the exact
    result rounded to a nearest double. *)

(** *** Binary digits, iteration, powers of two *)

Lemma digits2_pos_size (p : positive) : digits2_pos p = Pos.size p.
Proof. induction p; simpl; congruence. Qed.

Lemma Zdigits2_bounds (m d : Z) :
  0 < d -> 2 ^ (d - 1) <= m < 2 ^ d -> Zdigits2 m = d.
Proof.
  intros Hd [Hlo Hhi].
  assert (Hm : 0 < m) by (pose proof (Z.pow_pos_nonneg 2 (d - 1)); lia).
  destruct m as [|p|p]; try lia. simpl. rewrite digits2_pos_size.
  assert (Hgt : Z.pos p < 2 ^ Z.pos (Pos.size p))
    by (rewrite <- Pos2Z.inj_pow; exact (Pos.size_gt p)).
  assert (Hle : 2 ^ Z.pos (Pos.size p) <= 2 * Z.pos p)
    by (rewrite <- Pos2Z.inj_pow; exact (Pos.size_le p)).
  set (k := Z.pos (Pos.size p)) in *.
  assert (Hk : 0 < k) by (unfold k; lia).
  destruct (Z.lt_trichotomy k d) as [Hlt | [Heq | Hgt']]; [|exact Heq|].
  - assert (2 ^ k <= 2 ^ (d - 1)) by (apply Z.pow_le_mono_r; lia). lia.
  - assert (2 ^ d <= 2 ^ (k - 1)) by (apply Z.pow_le_mono_r; lia).
    replace k with (k - 1 + 1) in Hle by lia.
    rewrite Z.pow_add_r in Hle by lia. lia.
Qed.

Lemma iter_pos_nat {A} (f : A -> A) (p : positive) (x : A) :
  iter_pos f p x = Nat.iter (Pos.to_nat p) f x.
Proof.
  revert x. induction p as [p IH | p IH |]; intros x; cbn [iter_pos].
  - rewrite !IH. rewrite Pos2Nat.inj_xI.
    replace (S (2 * Pos.to_nat p)) with (Pos.to_nat p + (Pos.to_nat p + 1))%nat by lia.
    rewrite !Nat.iter_add. reflexivity.
  - rewrite !IH. rewrite Pos2Nat.inj_xO.
    replace (2 * Pos.to_nat p)%nat with (Pos.to_nat p + Pos.to_nat p)%nat by lia.
    rewrite Nat.iter_add. reflexivity.
  - reflexivity.
Qed.

Lemma pow2_pos (e : Z) : (0 < pow2 e)%Q.
Proof. apply Qpower_0_lt. reflexivity. Qed.

Lemma pow2_add (a b : Z) : (pow2 (a + b) == pow2 a * pow2 b)%Q.
Proof. apply Qpower_plus. discriminate. Qed.

Lemma pow2_Z (n : Z) : 0 <= n -> (pow2 n == inject_Z (2 ^ n))%Q.
Proof. intros Hn. unfold pow2. rewrite Zpower_Qpower by exact Hn. reflexivity. Qed.

Lemma pow2_le (a b : Z) : a <= b -> (pow2 a <= pow2 b)%Q.
Proof. intros H. apply Qpower_le_compat_l; [exact H | discriminate]. Qed.

Lemma inject_Z_xO (p : positive) : (inject_Z (Z.pos p~0) == 2 * inject_Z (Z.pos p))%Q.
Proof. rewrite Pos2Z.inj_xO, inject_Z_mult. reflexivity. Qed.

Lemma inject_Z_xI (p : positive) : (inject_Z (Z.pos p~1) == 2 * inject_Z (Z.pos p) + 1)%Q.
Proof. rewrite Pos2Z.inj_xI, inject_Z_plus, inject_Z_mult. reflexivity. Qed.

(** *** Shifting the mantissa right keeps track of where the exact value
    lies *)

Lemma shr_1_spec (mrs : shr_record) (t : Q) :
  0 <= shr_m mrs ->
  at_location (shr_m mrs) (loc_of_shr_record mrs) t ->
  0 <= shr_m (shr_1 mrs) /\
  shr_m (shr_1 mrs) = shr_m mrs / 2 /\
  at_location (shr_m (shr_1 mrs)) (loc_of_shr_record (shr_1 mrs)) (t * (1 # 2)).
Proof.
  destruct mrs as [m r s]. simpl shr_m. intros Hm Hloc.
  destruct m as [|p|p]; [| |lia].
  - split; [destruct r, s; simpl; lia|]. split; [reflexivity|].
    destruct r, s; simpl in *; change (inject_Z 0) with 0%Q in *; lra.
  - destruct p as [p|p|].
    + split; [destruct r, s; simpl; lia|].
      split; [simpl; rewrite Pos2Z.inj_xI; apply Z.div_unique with 1; lia|].
      pose proof (inject_Z_xI p) as E.
      destruct r, s; simpl in *; lra.
    + split; [destruct r, s; simpl; lia|].
      split; [simpl; rewrite Pos2Z.inj_xO; apply Z.div_unique with 0; lia|].
      pose proof (inject_Z_xO p) as E.
      destruct r, s; simpl in *; lra.
    + split; [destruct r, s; simpl; lia|]. split; [reflexivity|].
      destruct r, s; simpl in *; change (inject_Z 1) with 1%Q in *;
        change (inject_Z 0) with 0%Q in *; lra.
Qed.

Lemma shr_iter_spec (n : nat) (mrs : shr_record) (t : Q) :
  0 <= shr_m mrs ->
  at_location (shr_m mrs) (loc_of_shr_record mrs) t ->
  0 <= shr_m (Nat.iter n shr_1 mrs) /\
  shr_m (Nat.iter n shr_1 mrs) = shr_m mrs / 2 ^ Z.of_nat n /\
  at_location (shr_m (Nat.iter n shr_1 mrs)) (loc_of_shr_record (Nat.iter n shr_1 mrs))
    (t * pow2 (- Z.of_nat n)).
Proof.
  intros Hm Hloc. induction n as [|n [IH0 [IHm IHl]]].
  - simpl Nat.iter. split; [exact Hm|]. split; [rewrite Z.div_1_r; reflexivity|].
    change (pow2 (- Z.of_nat 0)) with 1%Q. 
    destruct (loc_of_shr_record mrs) as [|[]]; simpl in *; lra.
  - rewrite Nat.iter_succ.
    destruct (shr_1_spec _ _ IH0 IHl) as [H0 [Hm' Hl']].
    split; [exact H0|]. split.
    + rewrite Hm', IHm. rewrite Z.div_div by lia.
      rewrite Nat2Z.inj_succ, Z.pow_succ_r by lia. f_equal. lia.
    + assert (E : (t * pow2 (- Z.of_nat (S n)) == t * pow2 (- Z.of_nat n) * (1 # 2))%Q).
      { replace (- Z.of_nat (S n)) with (- Z.of_nat n + -1) by lia.
        rewrite pow2_add. change (pow2 (-1)) with (1 # 2)%Q. ring. }
      revert Hl'. generalize (shr_1 (Nat.iter n shr_1 mrs)). intros mrs' Hl'.
      destruct (loc_of_shr_record mrs') as [|[]]; simpl in *; lra.
Qed.

Lemma shr_record_of_loc_m (m : Z) (l : location) : shr_m (shr_record_of_loc m l) = m.
Proof. destruct l as [|[]]; reflexivity. Qed.

Lemma loc_of_shr_record_of_loc (m : Z) (l : location) :
  loc_of_shr_record (shr_record_of_loc m l) = l.
Proof. destruct l as [|[]]; reflexivity. Qed.

Lemma shr_spec (m e n : Z) (l : location) (t : Q) :
  0 <= n -> 0 <= m -> at_location m l t ->
  exists mrs,
    shr (shr_record_of_loc m l) e n = (mrs, e + n) /\
    shr_m mrs = m / 2 ^ n /\
    at_location (shr_m mrs) (loc_of_shr_record mrs) (t * pow2 (- n)).
Proof.
  intros Hn Hm Hloc.
  assert (Hm' : 0 <= shr_m (shr_record_of_loc m l)) by (rewrite shr_record_of_loc_m; exact Hm).
  assert (Hloc' : at_location (shr_m (shr_record_of_loc m l))
                    (loc_of_shr_record (shr_record_of_loc m l)) t)
    by (rewrite shr_record_of_loc_m, loc_of_shr_record_of_loc; exact Hloc).
  destruct n as [|p|p]; [| |lia].
  - exists (shr_record_of_loc m l). split; [simpl; rewrite Z.add_0_r; reflexivity|].
    split; [rewrite shr_record_of_loc_m, Z.div_1_r; reflexivity|].
    change (pow2 (- 0)) with 1%Q.
    destruct (loc_of_shr_record (shr_record_of_loc m l)) as [|[]]; simpl in *; lra.
  - exists (iter_pos shr_1 p (shr_record_of_loc m l)). split; [reflexivity|].
    rewrite iter_pos_nat.
    destruct (shr_iter_spec (Pos.to_nat p) _ t Hm' Hloc') as [_ [E L]].
    rewrite positive_nat_Z in E, L. rewrite shr_record_of_loc_m in E.
    split; assumption.
Qed.

Lemma fexp_normal (e : Z) : -1074 <= e - 53 -> fexp prec emax e = e - 53.
Proof. intros H. unfold fexp, SpecFloat.emin, prec, emax. lia. Qed.

Lemma shr_fexp_spec (m e n : Z) (l : location) (t : Q) :
  0 <= n -> 2 ^ (52 + n) <= m < 2 ^ (53 + n) -> -1074 <= e + n ->
  at_location m l t ->
  exists mrs,
    shr_fexp prec emax m e l = (mrs, e + n) /\
    2 ^ 52 <= shr_m mrs < 2 ^ 53 /\
    at_location (shr_m mrs) (loc_of_shr_record mrs) (t * pow2 (- n)).
Proof.
  intros Hn Hm He Hloc. unfold shr_fexp.
  rewrite (Zdigits2_bounds m (53 + n)) by (replace (53 + n - 1) with (52 + n) by lia; lia).
  rewrite fexp_normal by lia.
  replace (53 + n + e - 53 - e) with n by lia.
  assert (H0 : 0 <= m) by (pose proof (Z.pow_pos_nonneg 2 (52 + n)); lia).
  destruct (shr_spec m e n l t Hn H0 Hloc) as [mrs [E [Em L]]].
  exists mrs. split; [exact E|]. split; [|exact L].
  rewrite Em. rewrite !Z.pow_add_r in Hm by lia.
  assert (Hp : 0 < 2 ^ n) by (apply Z.pow_pos_nonneg; lia).
  split.
  - apply Z.div_le_lower_bound; lia.
  - apply Z.div_lt_upper_bound; lia.
Qed.

(** *** Rounding the shifted mantissa *)

Lemma round_nearest_even_spec (m : Z) (l : location) (T : Q) :
  at_location m l T -> rounded m (round_nearest_even m l) T.
Proof.
  intros Hloc. unfold rounded.
  assert (E1 : (inject_Z (m + 1) == inject_Z m + 1)%Q) by (rewrite inject_Z_plus; reflexivity).
  destruct l as [|[]]; simpl in *.
  - left. split; [exact Hloc | reflexivity].
  - right. destruct (Z.even m).
    + repeat split; try lra. left; reflexivity.
    + repeat split; try lra. right; reflexivity.
  - right. repeat split; try lra. left; reflexivity.
  - right. repeat split; try lra. right; reflexivity.
Qed.

(** [binary_round_aux] on a mantissa of [53 + n] digits whose result is in
    the normal range: the mantissa loses its last [n] digits, is rounded to
    an integer, and renormalised when the rounding carries. *)
Lemma binary_round_aux_spec (s : bool) (mx ex n : Z) (lx : location) (t : Q) :
  0 <= n -> 2 ^ (52 + n) <= mx < 2 ^ (53 + n) ->
  at_location mx lx t ->
  -1074 <= ex + n -> ex + n < 971 ->
  exists m e m' m'',
    binary_round_aux prec emax s mx ex lx = S754_finite s m e /\
    2 ^ 52 <= Z.pos m < 2 ^ 53 /\
    ex + n <= e <= ex + n + 1 /\
    (inject_Z (Z.pos m) * pow2 e == inject_Z m'' * pow2 (ex + n))%Q /\
    2 ^ 52 <= m' < 2 ^ 53 /\
    rounded m' m'' (t * pow2 (- n)).
Proof.
  intros Hn Hmx Hloc Hlo Hhi. unfold binary_round_aux.
  destruct (shr_fexp_spec mx ex n lx t Hn Hmx Hlo Hloc) as [mrs [E [Hm' L]]].
  rewrite E.
  set (m' := shr_m mrs) in *.
  pose proof (round_nearest_even_spec m' _ _ L) as R.
  set (m'' := round_nearest_even m' (loc_of_shr_record mrs)) in *.
  assert (Hm'' : 2 ^ 52 <= m'' <= 2 ^ 53).
  { destruct R as [[_ ->] | [_ [_ [[-> | ->] _]]]]; lia. }
  destruct (Z.eq_dec m'' (2 ^ 53)) as [Etop | Hne].
  - (* the mantissa was rounded up to the next binade *)
    rewrite Etop. unfold shr_fexp.
    change (Zdigits2 (2 ^ 53)) with 54.
    rewrite fexp_normal by lia.
    replace (54 + (ex + n) - 53 - (ex + n)) with 1 by lia.
    cbn [shr shr_record_of_loc]. cbn [iter_pos].
    change (shr_1 {| shr_m := 2 ^ 53; shr_r := false; shr_s := false |})
      with {| shr_m := 2 ^ 52; shr_r := false; shr_s := false |}.
    cbn [shr_m]. change (2 ^ 52) with (Z.pos (2 ^ 52)) at 1.
    cbv iota beta.
    replace (ex + n + 1 <=? emax - prec) with true
      by (symmetry; apply Z.leb_le; unfold emax, prec; lia).
    exists (2 ^ 52)%positive, (ex + n + 1), m', m''.
    split; [reflexivity|]. split; [split; [reflexivity | reflexivity]|].
    split; [lia|]. split; [|split; [exact Hm' | exact R]].
    rewrite Etop, pow2_add. change (pow2 1) with 2%Q.
    change (inject_Z (Z.pos (2 ^ 52))) with (inject_Z (2 ^ 52)).
    change (inject_Z (2 ^ 53)) with (2 * inject_Z (2 ^ 52))%Q.
    ring.
  - unfold shr_fexp.
    rewrite (Zdigits2_bounds m'' 53) by (change (53 - 1) with 52; lia).
    rewrite fexp_normal by lia.
    replace (53 + (ex + n) - 53 - (ex + n)) with 0 by lia.
    cbn [shr shr_record_of_loc shr_m].
    destruct m'' as [|p|p] eqn:Ep; [lia| |lia].
    replace (ex + n <=? emax - prec) with true
      by (symmetry; apply Z.leb_le; unfold emax, prec; lia).
    exists p, (ex + n), m', (Z.pos p).
    split; [reflexivity|]. split; [lia|]. split; [lia|].
    split; [reflexivity|]. split; [exact Hm' | exact R].
Qed.

(** *** The rounded value and the exact one *)

Lemma inject_Z_pow52 (m : Z) : 2 ^ 52 <= m -> (4503599627370496 <= inject_Z m)%Q.
Proof. intros H. change 4503599627370496%Q with (inject_Z (2 ^ 52)). rewrite <- Zle_Qle. exact H. Qed.

Lemma inject_Z_pow53 (m : Z) : m < 2 ^ 53 -> (inject_Z m < 9007199254740992)%Q.
Proof. intros H. change 9007199254740992%Q with (inject_Z (2 ^ 53)). rewrite <- Zlt_Qlt. exact H. Qed.

Lemma rounded_rounds (m' m'' E : Z) (T x V : Q) :
  2 ^ 52 <= m' < 2 ^ 53 -> rounded m' m'' T ->
  (x == T * pow2 E)%Q -> (V == inject_Z m'' * pow2 E)%Q ->
  rounds x V.
Proof.
  intros [Hlo Hhi] R Ex EV.
  pose proof (pow2_pos E) as HP. set (P := pow2 E) in *.
  pose proof (inject_Z_pow52 m' Hlo) as Hm'.
  pose proof (inject_Z_pow53 m' Hhi) as Hm'hi.
  assert (HT : (inject_Z m' <= T)%Q) by (destruct R as [[R _] | [R _]]; lra).
  assert (HT1 : (T < inject_Z m' + 1)%Q) by (destruct R as [[R _] | [_ [R _]]]; lra).
  assert (Hd : (inject_Z m'' - T <= (1 # 2) /\ T - inject_Z m'' <= (1 # 2))%Q).
  { destruct R as [[R ->] | [_ [_ [_ R]]]]; [lra | exact R]. }
  assert (Hfl : m' <= m'') by (destruct R as [[_ ->] | [_ [_ [[-> | ->] _]]]]; lia).
  unfold rounds. rewrite Ex, EV.
  assert (He1 : ((inject_Z m'' - T) * P <= ((1 # 9007199254740992) * T) * P)%Q)
    by (apply Qmult_le_compat_r; lra).
  assert (He2 : ((T - inject_Z m'') * P <= ((1 # 9007199254740992) * T) * P)%Q)
    by (apply Qmult_le_compat_r; lra).
  split; [apply Qmult_lt_0_compat; lra|]. split; [lra|]. split; [lra|]. split.
  - (* a double above the exact value is above the rounded one *)
    intros b [m2 [e2 [[Hm2lo Hm2hi] Eb]]] Hle. rewrite Eb in Hle |- *.
    pose proof (inject_Z_pow52 m2 Hm2lo) as Hm2. pose proof (inject_Z_pow53 m2 Hm2hi) as Hm2'.
    destruct (Z_lt_le_dec e2 E) as [Hlt | Hge].
    + exfalso.
      assert (H2 : (pow2 e2 * 2 <= P)%Q).
      { unfold P. replace E with (E - 1 + 1) by lia. rewrite pow2_add.
        change (pow2 1) with 2%Q.
        pose proof (pow2_le e2 (E - 1) ltac:(lia)). lra. }
      pose proof (pow2_pos e2). nra.
    + assert (Ee : (pow2 e2 == inject_Z (2 ^ (e2 - E)) * P)%Q).
      { unfold P. rewrite <- pow2_Z by lia. rewrite <- pow2_add. f_equiv. lia. }
      rewrite Ee in Hle |- *.
      set (k := m2 * 2 ^ (e2 - E)).
      assert (Ek : (inject_Z m2 * (inject_Z (2 ^ (e2 - E)) * P) == inject_Z k * P)%Q)
        by (unfold k; rewrite inject_Z_mult; ring).
      rewrite Ek in Hle |- *.
      assert (HTk : (T <= inject_Z k)%Q) by nra.
      assert (Hk : m'' <= k).
      { destruct R as [[R ->] | [R1 [_ [[-> | ->] _]]]].
        - rewrite Zle_Qle. lra.
        - rewrite Zle_Qle. lra.
        - assert (m' < k) by (rewrite Zlt_Qlt; lra). lia. }
      rewrite Zle_Qle in Hk. nra.
  - intros b [m2 [e2 [[Hm2lo Hm2hi] Eb]]] Hle. rewrite Eb in Hle |- *.
    pose proof (inject_Z_pow52 m2 Hm2lo) as Hm2. pose proof (inject_Z_pow53 m2 Hm2hi) as Hm2'.
    rewrite Zle_Qle in Hfl.
    destruct (Z_lt_le_dec e2 E) as [Hlt | Hge].
    + assert (H2 : (pow2 e2 * 2 <= P)%Q).
      { unfold P. replace E with (E - 1 + 1) by lia. rewrite pow2_add.
        change (pow2 1) with 2%Q.
        pose proof (pow2_le e2 (E - 1) ltac:(lia)). lra. }
      pose proof (pow2_pos e2). nra.
    + assert (Ee : (pow2 e2 == inject_Z (2 ^ (e2 - E)) * P)%Q).
      { unfold P. rewrite <- pow2_Z by lia. rewrite <- pow2_add. f_equiv. lia. }
      rewrite Ee in Hle |- *.
      set (k := m2 * 2 ^ (e2 - E)).
      assert (Ek : (inject_Z m2 * (inject_Z (2 ^ (e2 - E)) * P) == inject_Z k * P)%Q)
        by (unfold k; rewrite inject_Z_mult; ring).
      rewrite Ek in Hle |- *.
      assert (HTk : (inject_Z k <= T)%Q) by nra.
      assert (Hk : k <= m').
      { assert (k < m' + 1) by (rewrite Zlt_Qlt, inject_Z_plus; change (inject_Z 1) with 1%Q; lra).
        lia. }
      rewrite Zle_Qle in Hk. nra.
Qed.

Lemma value_positive_double (x : float) (m : positive) (e : Z) :
  positive_double x m e -> value x = (inject_Z (Z.pos m) * pow2 e)%Q.
Proof. intros [E _]. unfold value. rewrite E. reflexivity. Qed.

Lemma positive_double_is_double (x : float) (m : positive) (e : Z) :
  positive_double x m e -> is_double (value x).
Proof.
  intros Hn. rewrite (value_positive_double x m e Hn). destruct Hn as [_ Hm].
  exists (Z.pos m), e. split; [exact Hm | reflexivity].
Qed.

Lemma pow2_opp (a : Z) : (pow2 (- a) == / pow2 a)%Q.
Proof. apply Qpower_opp. Qed.

Lemma round_aux_rounds (s : bool) (mx ex n : Z) (lx : location) (t x : Q) :
  0 <= n -> 2 ^ (52 + n) <= mx < 2 ^ (53 + n) ->
  at_location mx lx t ->
  -1074 <= ex + n -> ex + n < 971 ->
  (x == t * pow2 ex)%Q ->
  exists m e,
    binary_round_aux prec emax s mx ex lx = S754_finite s m e /\
    2 ^ 52 <= Z.pos m < 2 ^ 53 /\
    ex + n <= e <= ex + n + 1 /\
    rounds x (inject_Z (Z.pos m) * pow2 e).
Proof.
  intros Hn Hmx Hloc Hlo Hhi Ex.
  destruct (binary_round_aux_spec s mx ex n lx t Hn Hmx Hloc Hlo Hhi)
    as [m [e [m' [m'' [E [Hm [He [EV [Hm' R]]]]]]]]].
  exists m, e. split; [exact E|]. split; [exact Hm|]. split; [exact He|].
  apply (rounded_rounds m' m'' (ex + n) (t * pow2 (- n))); [exact Hm' | exact R | | exact EV].
  rewrite Ex, <- Qmult_assoc, <- pow2_add. f_equiv. f_equiv. lia.
Qed.

(** The location of a quotient, from the remainder of the division. *)
Lemma new_location_spec (q r d : Z) (t : Q) :
  0 < d -> 0 <= r < d ->
  (t * inject_Z d == inject_Z (d * q + r))%Q ->
  at_location q (new_location d r) t.
Proof.
  intros Hd [Hr0 Hrd] E.
  rewrite inject_Z_plus, inject_Z_mult in E.
  assert (HD : (0 < inject_Z d)%Q) by (rewrite <- (Zlt_Qlt 0); exact Hd).
  unfold new_location.
  destruct (Z.even d) eqn:Ev.
  - unfold new_location_even. destruct (Z.eqb_spec r 0) as [-> | Hne].
    + simpl. change (inject_Z 0) with 0%Q in E. nra.
    + assert (HR : (0 < inject_Z r)%Q) by (rewrite <- (Zlt_Qlt 0); lia).
      destruct (Z.compare_spec (2 * r) d) as [Heq | Hlt | Hgt]; simpl.
      * assert (E2 : (2 * inject_Z r == inject_Z d)%Q)
          by (rewrite <- Heq, inject_Z_mult; reflexivity).
        nra.
      * assert (E2 : (2 * inject_Z r < inject_Z d)%Q).
        { rewrite Zlt_Qlt, inject_Z_mult in Hlt. exact Hlt. }
        split; nra.
      * assert (E2 : (inject_Z d < 2 * inject_Z r)%Q).
        { rewrite Zlt_Qlt, inject_Z_mult in Hgt. exact Hgt. }
        assert (E3 : (inject_Z r < inject_Z d)%Q) by (rewrite <- Zlt_Qlt; exact Hrd).
        split; nra.
  - unfold new_location_odd. destruct (Z.eqb_spec r 0) as [-> | Hne].
    + simpl. change (inject_Z 0) with 0%Q in E. nra.
    + assert (HR : (0 < inject_Z r)%Q) by (rewrite <- (Zlt_Qlt 0); lia).
      assert (Hodd : exists k, d = 2 * k + 1).
      { apply Z.odd_spec. rewrite <- Z.negb_even, Ev. reflexivity. }
      destruct Hodd as [k Hk].
      assert (E3 : (inject_Z r < inject_Z d)%Q) by (rewrite <- Zlt_Qlt; exact Hrd).
      destruct (Z.compare_spec (2 * r + 1) d) as [Heq | Hlt | Hgt]; simpl.
      * assert (E2 : (2 * inject_Z r < inject_Z d)%Q).
        { assert (H' : 2 * r < d) by lia.
          rewrite Zlt_Qlt, inject_Z_mult in H'. exact H'. }
        split; nra.
      * assert (E2 : (2 * inject_Z r < inject_Z d)%Q).
        { assert (H' : 2 * r < d) by lia.
          rewrite Zlt_Qlt, inject_Z_mult in H'. exact H'. }
        split; nra.
      * assert (E2 : (inject_Z d < 2 * inject_Z r)%Q).
        { assert (H' : d < 2 * r) by lia.
          rewrite Zlt_Qlt, inject_Z_mult in H'. exact H'. }
        split; nra.
Qed.

(** *** The operations *)

Lemma Zdigits2_normal (m : positive) : 2 ^ 52 <= Z.pos m < 2 ^ 53 -> Zdigits2 (Z.pos m) = 53.
Proof. intros H. apply Zdigits2_bounds; [lia | exact H]. Qed.

(** Division of two positive doubles whose quotient is in the normal
    range. *)
Lemma div_rounds (x y : float) (mx my : positive) (ex ey : Z) :
  positive_double x mx ex -> positive_double y my ey -> -1021 <= ex - ey <= 1021 ->
  exists m e,
    positive_double (x / y) m e /\ ex - ey - 53 <= e <= ex - ey - 51 /\
    rounds (value x / value y) (value (x / y)).
Proof.
  intros Hx Hy He.
  rewrite (value_positive_double x mx ex Hx), (value_positive_double y my ey Hy).
  destruct Hx as [Ex Hmx], Hy as [Ey Hmy].
  unfold positive_double, value. rewrite div_spec, Ex, Ey.
  unfold SF64div, SFdiv, SFdiv_core_binary.
  rewrite (Zdigits2_normal mx Hmx), (Zdigits2_normal my Hmy).
  replace (53 + ex - (53 + ey)) with (ex - ey) by lia.
  rewrite fexp_normal by lia.
  rewrite Z.min_l by lia.
  replace (ex - ey - (ex - ey - 53)) with 53 by lia.
  rewrite Z.shiftl_mul_pow2 by lia.
  pose proof (Z_div_mod (Z.pos mx * 2 ^ 53) (Z.pos my) ltac:(lia)) as Hdiv.
  destruct (Z.div_eucl (Z.pos mx * 2 ^ 53) (Z.pos my)) as [q r].
  destruct Hdiv as [Eq Hr].
  assert (Hq : 2 ^ 52 <= q < 2 ^ 54).
  { change (2 ^ 53) with 9007199254740992 in *. change (2 ^ 52) with 4503599627370496 in *.
    change (2 ^ 54) with 18014398509481984. split; nia. }
  set (n := if q <? 2 ^ 53 then 0 else 1).
  assert (Hn : 0 <= n <= 1) by (unfold n; destruct (q <? 2 ^ 53); lia).
  assert (Hqn : 2 ^ (52 + n) <= q < 2 ^ (53 + n)).
  { unfold n. destruct (Z.ltb_spec q (2 ^ 53)); simpl; lia. }
  set (t := (inject_Z (Z.pos mx * 2 ^ 53) / inject_Z (Z.pos my))%Q).
  assert (Hmy0 : ~ (inject_Z (Z.pos my) == 0)%Q).
  { intros H0. apply (Qlt_irrefl 0). rewrite <- H0 at 2. rewrite <- (Zlt_Qlt 0). lia. }
  assert (Hloc : at_location q (new_location (Z.pos my) r) t).
  { apply new_location_spec; [lia | lia |].
    rewrite <- Eq. unfold t. field. exact Hmy0. }
  destruct (round_aux_rounds (xorb false false) q (ex - ey - 53) n
              (new_location (Z.pos my) r) t
              (inject_Z (Z.pos mx) * pow2 ex / (inject_Z (Z.pos my) * pow2 ey))%Q
              ltac:(lia) Hqn Hloc ltac:(lia) ltac:(lia))
    as [m [e [E [Hm [Hee R]]]]].
  { unfold t. replace (ex - ey - 53) with (ex + (- ey + -53)) by lia.
    rewrite !pow2_add, pow2_opp, inject_Z_mult.
    change (pow2 (-53)) with (/ inject_Z (2 ^ 53))%Q.
    pose proof (pow2_pos ey).
    field. repeat split; [discriminate | lra | exact Hmy0]. }
  exists m, e. cbn [xorb] in *. rewrite E.
  split; [split; [reflexivity | exact Hm]|]. split; [lia|]. exact R.
Qed.

Lemma rounds_exact (x V : Q) : rounds x V -> is_double x -> (V == x)%Q.
Proof.
  intros [_ [_ [_ [Hup Hdown]]]] Hd.
  apply Qle_antisym; [apply Hup | apply Hdown]; try exact Hd; apply Qle_refl.
Qed.

(** Multiplication of two positive doubles whose product is in the normal
    range. *)
Lemma mul_rounds (x y : float) (mx my : positive) (ex ey : Z) :
  positive_double x mx ex -> positive_double y my ey -> -1126 <= ex + ey <= 900 ->
  exists m e,
    positive_double (x * y) m e /\ ex + ey + 52 <= e <= ex + ey + 54 /\
    rounds (value x * value y) (value (x * y)).
Proof.
  intros Hx Hy He.
  rewrite (value_positive_double x mx ex Hx), (value_positive_double y my ey Hy).
  destruct Hx as [Ex Hmx], Hy as [Ey Hmy].
  unfold positive_double, value. rewrite mul_spec, Ex, Ey.
  unfold SF64mul, SFmul.
  set (M := Z.pos (mx * my)).
  assert (EM : M = Z.pos mx * Z.pos my) by reflexivity.
  assert (HM : 2 ^ 104 <= M < 2 ^ 106).
  { rewrite EM. change (2 ^ 53) with 9007199254740992 in *.
    change (2 ^ 52) with 4503599627370496 in *.
    change (2 ^ 104) with (4503599627370496 * 4503599627370496).
    change (2 ^ 106) with (9007199254740992 * 9007199254740992). split; nia. }
  set (n := if M <? 2 ^ 105 then 52 else 53).
  assert (Hn : 52 <= n <= 53) by (unfold n; destruct (M <? 2 ^ 105); lia).
  assert (HMn : 2 ^ (52 + n) <= M < 2 ^ (53 + n)).
  { unfold n. destruct (Z.ltb_spec M (2 ^ 105)); simpl; lia. }
  assert (Hloc : at_location M loc_Exact (inject_Z M)) by (simpl; reflexivity).
  destruct (round_aux_rounds (xorb false false) M (ex + ey) n loc_Exact (inject_Z M)
              (inject_Z (Z.pos mx) * pow2 ex * (inject_Z (Z.pos my) * pow2 ey))%Q
              ltac:(lia) HMn Hloc ltac:(lia) ltac:(lia))
    as [m [e [E [Hm [Hee R]]]]].
  { rewrite EM, inject_Z_mult, pow2_add. ring. }
  exists m, e. cbn [xorb] in *. rewrite E.
  split; [split; [reflexivity | exact Hm]|]. split; [lia|]. exact R.
Qed.

(** Comparison of two positive doubles. *)
Lemma ltb_value (x y : float) (mx my : positive) (ex ey : Z) :
  positive_double x mx ex -> positive_double y my ey ->
  ((x <? y)%float = true <-> (value x < value y)%Q).
Proof.
  intros Hx Hy.
  rewrite (value_positive_double x mx ex Hx), (value_positive_double y my ey Hy).
  destruct Hx as [Ex [Hx1 Hx2]], Hy as [Ey [Hy1 Hy2]].
  rewrite ltb_spec, Ex, Ey. unfold SFltb, SFcompare.
  pose proof (inject_Z_pow52 _ Hx1) as Qx1. pose proof (inject_Z_pow53 _ Hx2) as Qx2.
  pose proof (inject_Z_pow52 _ Hy1) as Qy1. pose proof (inject_Z_pow53 _ Hy2) as Qy2.
  pose proof (pow2_pos ex) as Px. pose proof (pow2_pos ey) as Py.
  destruct (Z.compare_spec ex ey) as [Heq | Hlt | Hgt].
  - subst ey. rewrite Pos.compare_cont_spec. cbn [Pos.switch_Eq].
    change (mx ?= my)%positive with (Z.pos mx ?= Z.pos my).
    destruct (Z.compare_spec (Z.pos mx) (Z.pos my)) as [E | L | G].
    + rewrite E. split; [discriminate | intros Hc; exfalso; lra].
    + rewrite Zlt_Qlt in L. split; [intros _; nra | reflexivity].
    + rewrite Zlt_Qlt in G. split; [discriminate | intros Hc; exfalso; nra].
  - assert (Hp : (pow2 ex * 2 <= pow2 ey)%Q).
    { replace ey with (ey - 1 + 1) by lia. rewrite pow2_add. change (pow2 1) with 2%Q.
      pose proof (pow2_le ex (ey - 1) ltac:(lia)). lra. }
    split; [intros _; nra | reflexivity].
  - assert (Hp : (pow2 ey * 2 <= pow2 ex)%Q).
    { replace ex with (ex - 1 + 1) by lia. rewrite pow2_add. change (pow2 1) with 2%Q.
      pose proof (pow2_le ey (ex - 1) ltac:(lia)). lra. }
    split; [discriminate | intros Hc; exfalso; nra].
Qed.

Lemma Zdigits2_spec (p : positive) :
  2 ^ (Zdigits2 (Z.pos p) - 1) <= Z.pos p < 2 ^ Zdigits2 (Z.pos p).
Proof.
  change (Zdigits2 (Z.pos p)) with (Z.pos (digits2_pos p)). rewrite digits2_pos_size.
  assert (Hgt : Z.pos p < 2 ^ Z.pos (Pos.size p))
    by (rewrite <- Pos2Z.inj_pow; exact (Pos.size_gt p)).
  assert (Hle : 2 ^ Z.pos (Pos.size p) <= 2 * Z.pos p)
    by (rewrite <- Pos2Z.inj_pow; exact (Pos.size_le p)).
  split; [|exact Hgt].
  replace (Z.pos (Pos.size p)) with (Z.pos (Pos.size p) - 1 + 1) in Hle by lia.
  rewrite Z.pow_add_r in Hle by lia. change (2 ^ 1) with 2 in Hle. lia.
Qed.

Lemma iter_xO (m d : positive) : Z.pos (Pos.iter xO m d) = Z.pos m * 2 ^ Z.pos d.
Proof.
  induction d as [|d IH] using Pos.peano_ind.
  - simpl. rewrite Pos2Z.inj_xO. lia.
  - rewrite Pos.iter_succ, Pos2Z.inj_xO, IH, Pos2Z.inj_succ, Z.pow_succ_r by lia. lia.
Qed.

Lemma shl_align_spec (m : positive) (e e' : Z) :
  exists m', shl_align m e e' = (m', Z.min e e') /\
             Z.pos m' = Z.pos m * 2 ^ (e - Z.min e e').
Proof.
  unfold shl_align. destruct (e' - e) as [|d|d] eqn:Ed.
  - exists m. rewrite Z.min_l by lia. replace (e - e) with 0 by lia.
    split; [reflexivity | lia].
  - exists m. rewrite Z.min_l by lia. replace (e - e) with 0 by lia.
    split; [reflexivity | lia].
  - exists (Pos.iter xO m d). rewrite Z.min_r by lia.
    split; [reflexivity|]. rewrite iter_xO. f_equal. f_equal. lia.
Qed.

(** Rounding a positive integer [M] scaled by [2 ^ e]. *)
Lemma binary_round_rounds (M : positive) (e : Z) (x : Q) :
  -1021 <= e -> Zdigits2 (Z.pos M) + e <= 1000 ->
  (x == inject_Z (Z.pos M) * pow2 e)%Q ->
  exists m e',
    binary_round prec emax false M e = S754_finite false m e' /\
    2 ^ 52 <= Z.pos m < 2 ^ 53 /\
    Zdigits2 (Z.pos M) + e - 53 <= e' <= Zdigits2 (Z.pos M) + e - 52 /\
    rounds x (inject_Z (Z.pos m) * pow2 e').
Proof.
  intros Hlo Hhi Ex. unfold binary_round.
  pose proof (Zdigits2_spec M) as Hd.
  change (Z.pos (digits2_pos M)) with (Zdigits2 (Z.pos M)).
  set (d := Zdigits2 (Z.pos M)) in *.
  assert (Hd1 : 1 <= d) by (unfold d; simpl; lia).
  rewrite fexp_normal by lia.
  destruct (shl_align_spec M e (d + e - 53)) as [mz [Ea Emz]].
  rewrite Ea.
  set (ez := Z.min e (d + e - 53)) in *.
  set (n := Z.max 0 (d - 53)).
  assert (Hmz : 2 ^ (52 + n) <= Z.pos mz < 2 ^ (53 + n)).
  { rewrite Emz. destruct (Z_le_gt_dec d 53) as [Hle | Hgt].
    - unfold n, ez. rewrite Z.max_l, Z.min_r by lia.
      replace (e - (d + e - 53)) with (53 - d) by lia.
      replace (52 + 0) with (d - 1 + (53 - d)) by lia.
      replace (53 + 0) with (d + (53 - d)) by lia.
      rewrite !Z.pow_add_r by lia.
      assert (0 < 2 ^ (53 - d)) by (apply Z.pow_pos_nonneg; lia). nia.
    - unfold n, ez. rewrite Z.max_r, Z.min_l by lia.
      replace (e - e) with 0 by lia. rewrite Z.mul_1_r.
      replace (52 + (d - 53)) with (d - 1) by lia.
      replace (53 + (d - 53)) with d by lia. exact Hd. }
  assert (Hen : ez + n = d + e - 53) by (unfold ez, n; lia).
  assert (Hloc : at_location (Z.pos mz) loc_Exact (inject_Z (Z.pos mz))) by (simpl; reflexivity).
  destruct (round_aux_rounds false (Z.pos mz) ez n loc_Exact (inject_Z (Z.pos mz)) x
              ltac:(unfold n; lia) Hmz Hloc ltac:(lia) ltac:(lia))
    as [m [e' [E [Hm [Hee R]]]]].
  { rewrite Ex, Emz, inject_Z_mult, <- Qmult_assoc.
    rewrite <- pow2_Z by (unfold ez; lia). rewrite <- pow2_add.
    f_equiv. f_equiv. lia. }
  exists m, e'. split; [exact E|]. split; [exact Hm|]. split; [lia | exact R].
Qed.

(** An integer below [2 ^ 53] is a double. *)
Lemma Number_of_Z_exact (z : Z) :
  0 < z < 2 ^ 53 ->
  exists m e, positive_double (Number_of_Z z) m e /\ -52 <= e <= 1 /\
              (value (Number_of_Z z) == inject_Z z)%Q.
Proof.
  intros Hz. destruct z as [|p|p]; try lia.
  unfold positive_double, value, Number_of_Z.
  rewrite of_uint63_spec, Uint63.of_Z_spec.
  rewrite Z.mod_small by (change Uint63.wB with (2 ^ 63);
                          assert (2 ^ 53 < 2 ^ 63) by reflexivity; lia).
  cbn [binary_normalize].
  pose proof (Zdigits2_spec p) as Hd.
  assert (Hd53 : 1 <= Zdigits2 (Z.pos p) <= 53).
  { split; [simpl; lia|].
    destruct (Z_le_gt_dec (Zdigits2 (Z.pos p)) 53) as [Hle | Hgt]; [exact Hle|].
    exfalso. assert (2 ^ 53 <= 2 ^ (Zdigits2 (Z.pos p) - 1)) by (apply Z.pow_le_mono_r; lia).
    lia. }
  destruct (binary_round_rounds p 0 (inject_Z (Z.pos p)) ltac:(lia) ltac:(lia))
    as [m [e [E [Hm [He R]]]]].
  { change (pow2 0) with 1%Q. ring. }
  exists m, e. rewrite E. split; [split; [reflexivity | exact Hm]|]. split.
  - lia.
  - cbn [SF2Q]. apply (rounds_exact _ _ R).
    exists (Z.pos p * 2 ^ (53 - Zdigits2 (Z.pos p))), (Zdigits2 (Z.pos p) - 53).
    split.
    + set (d := Zdigits2 (Z.pos p)) in *.
      assert (E52 : 2 ^ (d - 1) * 2 ^ (53 - d) = 2 ^ 52)
        by (rewrite <- Z.pow_add_r by lia; f_equal; lia).
      assert (E53 : 2 ^ d * 2 ^ (53 - d) = 2 ^ 53)
        by (rewrite <- Z.pow_add_r by lia; f_equal; lia).
      assert (0 < 2 ^ (53 - d)) by (apply Z.pow_pos_nonneg; lia).
      rewrite <- E52, <- E53. split; nia.
    + rewrite inject_Z_mult, <- Qmult_assoc, <- pow2_Z by lia. rewrite <- pow2_add.
      replace (53 - Zdigits2 (Z.pos p) + (Zdigits2 (Z.pos p) - 53)) with 0 by lia.
      change (pow2 0) with 1%Q. ring.
Qed.

(** Subtraction of a smaller positive double from a larger one. *)
Lemma sub_rounds (x y : float) (mx my : positive) (ex ey : Z) :
  positive_double x mx ex -> positive_double y my ey ->
  -1021 <= ex <= 900 -> -1021 <= ey <= 900 ->
  (value y < value x)%Q ->
  exists m e,
    positive_double (x - y) m e /\ Z.min ex ey - 52 <= e <= ex + 1 /\
    rounds (value x - value y) (value (x - y)).
Proof.
  intros Hx Hy Hex Hey Hlt.
  rewrite (value_positive_double x mx ex Hx), (value_positive_double y my ey Hy) in *.
  destruct Hx as [Ex Hmx], Hy as [Ey Hmy].
  unfold positive_double, value. rewrite sub_spec, Ex, Ey.
  unfold SF64sub, SFsub. cbn [cond_Zopp].
  set (ez := Z.min ex ey).
  destruct (shl_align_spec mx ex ez) as [a [Ea Ha]].
  destruct (shl_align_spec my ey ez) as [b [Eb Hb]].
  rewrite Ea, Eb. cbn [fst].
  replace (Z.min ex ez) with ez in Ha by (unfold ez; lia).
  replace (Z.min ey ez) with ez in Hb by (unfold ez; lia).
  assert (Hxe : (pow2 ex == inject_Z (2 ^ (ex - ez)) * pow2 ez)%Q).
  { rewrite <- pow2_Z by (unfold ez; lia). rewrite <- pow2_add. f_equiv. lia. }
  assert (Hye : (pow2 ey == inject_Z (2 ^ (ey - ez)) * pow2 ez)%Q).
  { rewrite <- pow2_Z by (unfold ez; lia). rewrite <- pow2_add. f_equiv. lia. }
  assert (EA : (inject_Z (Z.pos mx) * pow2 ex == inject_Z (Z.pos a) * pow2 ez)%Q)
    by (rewrite Hxe, Ha, inject_Z_mult; ring).
  assert (EB : (inject_Z (Z.pos my) * pow2 ey == inject_Z (Z.pos b) * pow2 ez)%Q)
    by (rewrite Hye, Hb, inject_Z_mult; ring).
  rewrite EA, EB in Hlt.
  pose proof (pow2_pos ez) as HP.
  assert (Hba : Z.pos b < Z.pos a) by (rewrite Zlt_Qlt; nra).
  destruct (Z.pos a - Z.pos b) as [|M|M] eqn:EM; [lia| |lia].
  cbn [binary_normalize].
  assert (HdM : Zdigits2 (Z.pos M) <= 53 + ex - ez).
  { pose proof (Zdigits2_spec M) as [HM _].
    assert (HA : Z.pos a < 2 ^ (53 + ex - ez)).
    { rewrite Ha. replace (53 + ex - ez) with (53 + (ex - ez)) by lia.
      rewrite Z.pow_add_r by (unfold ez; lia).
      assert (0 < 2 ^ (ex - ez)) by (apply Z.pow_pos_nonneg; unfold ez; lia). nia. }
    destruct (Z_le_gt_dec (Zdigits2 (Z.pos M)) (53 + ex - ez)) as [Hle | Hgt]; [exact Hle|].
    exfalso.
    assert (2 ^ (53 + ex - ez) <= 2 ^ (Zdigits2 (Z.pos M) - 1))
      by (apply Z.pow_le_mono_r; lia).
    lia. }
  assert (HdM1 : 1 <= Zdigits2 (Z.pos M)) by (simpl; lia).
  destruct (binary_round_rounds M ez
              (inject_Z (Z.pos mx) * pow2 ex - inject_Z (Z.pos my) * pow2 ey)%Q
              ltac:(unfold ez; lia) ltac:(lia))
    as [m [e [E [Hm [He R]]]]].
  { rewrite EA, EB, <- EM. unfold Z.sub. rewrite inject_Z_plus, inject_Z_opp. ring. }
  exists m, e. rewrite E.
  split; [split; [reflexivity | exact Hm]|]. split; [lia | exact R].
Qed.

(** Two positive doubles of the same value are the same double. *)
Lemma positive_double_inj (x y : float) (mx my : positive) (ex ey : Z) :
  positive_double x mx ex -> positive_double y my ey -> (value x == value y)%Q -> x = y.
Proof.
  intros Hx Hy E.
  destruct (ltb_value x y mx my ex ey Hx Hy) as [L1 _].
  destruct (ltb_value y x my mx ey ex Hy Hx) as [L2 _].
  destruct Hx as [Ex Hmx], Hy as [Ey Hmy].
  apply Prim2SF_inj. rewrite Ex, Ey.
  rewrite ltb_spec, Ex, Ey in L1. rewrite ltb_spec, Ey, Ex in L2.
  unfold SFltb, SFcompare in L1, L2.
  rewrite Z.compare_antisym in L2.
  destruct (Z.compare_spec ex ey) as [Heq | Hlt | Hgt]; cbn [CompOpp] in L2.
  - subst ey. rewrite Pos.compare_cont_spec in L1, L2. cbn [Pos.switch_Eq] in L1, L2.
    rewrite (Pos.compare_antisym mx my) in L2.
    destruct (Pos.compare_spec mx my) as [-> | Hl | Hg]; cbn [CompOpp] in L2.
    + reflexivity.
    + exfalso. apply (Qlt_irrefl (value y)). rewrite <- E at 1. exact (L1 eq_refl).
    + exfalso. apply (Qlt_irrefl (value y)). rewrite <- E at 2. exact (L2 eq_refl).
  - exfalso. apply (Qlt_irrefl (value y)). rewrite <- E at 1. exact (L1 eq_refl).
  - exfalso. apply (Qlt_irrefl (value y)). rewrite <- E at 2. exact (L2 eq_refl).
Qed.

Lemma sub_self (x : float) (m : positive) (e : Z) :
  positive_double x m e -> Prim2SF (x - x) = S754_zero false.
Proof.
  intros [Ex _]. rewrite sub_spec, Ex. unfold SF64sub, SFsub. cbn [cond_Zopp].
  rewrite Z.sub_diag. reflexivity.
Qed.

Lemma positive_double_two : positive_double 2 (2 ^ 52) (-51).
Proof. split; [vm_compute; reflexivity | split; [reflexivity | reflexivity]]. Qed.

(** Halving is exact. *)
Lemma half_exact (x : float) (m : positive) (e : Z) :
  positive_double x m e -> -1000 <= e <= 900 ->
  (value (x / 2) == value x * (1 # 2))%Q.
Proof.
  intros Hx He.
  destruct (div_rounds x 2 m (2 ^ 52) e (-51) Hx positive_double_two ltac:(lia)) as [m' [e' [_ [_ R]]]].
  assert (E2 : (value 2 == 2)%Q) by (vm_compute; reflexivity).
  assert (Ev : (value x / value 2 == value x * (1 # 2))%Q) by (rewrite E2; field).
  rewrite (rounds_exact _ _ R); [exact Ev|].
  rewrite (value_positive_double x m e Hx) in *. destruct Hx as [_ Hm].
  exists (Z.pos m), (e - 1). split; [exact Hm|].
  rewrite Ev. replace (e - 1) with (e + -1) by lia.
  rewrite pow2_add. change (pow2 (-1)) with (1 # 2)%Q. ring.
Qed.

Lemma half_zero (x : float) : Prim2SF x = S754_zero false -> Prim2SF (x / 2) = S754_zero false.
Proof.
  intros E. rewrite div_spec, E. destruct positive_double_two as [E2 _]. rewrite E2. reflexivity.
Qed.

(** *** The placement of [fitImage] on the A4 page *)

(** The page is read as the doubles that 595.28 and 841.89 denote in the
    program text. *)
Example A4_double_literals :
  A4_double = (0x1.29a3d70a3d70ap+9, 0x1.a4f1eb851eb85p+9)%float.
Proof. vm_compute. reflexivity. Qed.

(** They are 595.28 and 841.89 to a relative error of [2 ^ -53]. *)
Example A4_double_value :
  (Qabs (value (fst A4_double) - fst A4) <= (1 # 9007199254740992) * fst A4 /\
   Qabs (value (snd A4_double) - snd A4) <= (1 # 9007199254740992) * snd A4)%Q.
Proof. split; vm_compute; discriminate. Qed.

Lemma A4_width_double : positive_double (fst A4_double) 5236138254259978 (-43).
Proof. split; [vm_compute; reflexivity | split; [discriminate | reflexivity]]. Qed.

Lemma A4_height_double : positive_double (snd A4_double) 7405342754466693 (-43).
Proof. split; [vm_compute; reflexivity | split; [discriminate | reflexivity]]. Qed.

(** The offset that centres: half of what is left of the page. *)
Lemma offset_rounds (P p : float) (mP mp : positive) (eP ep : Z) :
  positive_double P mP eP -> positive_double p mp ep ->
  -900 <= eP <= 800 -> -900 <= ep <= 800 ->
  (value p <= value P)%Q ->
  (Qabs (value ((P - p) / 2) - (value P - value p) / 2)
   <= (1 # 9007199254740992) * ((value P - value p) / 2))%Q.
Proof.
  intros HP Hp HeP Hep Hle.
  apply Qabs_Qle_condition.
  unfold Qdiv. change (/ 2)%Q with (1 # 2)%Q.
  destruct (Qlt_le_dec (value p) (value P)) as [Hlt | Hge].
  - destruct (sub_rounds P p mP mp eP ep HP Hp ltac:(lia) ltac:(lia) Hlt)
      as [m [e [Hn [He [_ [R1 [R2 _]]]]]]].
    rewrite (half_exact _ m e Hn ltac:(lia)).
    lra.
  - assert (E : P = p).
    { apply (positive_double_inj P p mP mp eP ep HP Hp). apply Qle_antisym; assumption. }
    subst p.
    assert (Ez : value ((P - P) / 2) = 0%Q).
    { unfold value. rewrite (half_zero _ (sub_self P mP eP HP)). reflexivity. }
    rewrite Ez. lra.
Qed.

(** Two roundings keep a ratio within [2 ^ -51]. *)
Lemma ratio_close_mul (H r w rho : Q) :
  (0 < H -> 0 < rho ->
   r - rho <= (1 # 9007199254740992) * rho -> rho - r <= (1 # 9007199254740992) * rho ->
   w - H * r <= (1 # 9007199254740992) * (H * r) ->
   H * r - w <= (1 # 9007199254740992) * (H * r) ->
   Qabs (w / H - rho) <= (1 # 2251799813685248) * rho)%Q.
Proof.
  intros HH Hrho R1 R2 W1 W2.
  apply Qabs_Qle_condition.
  set (q := (w / H)%Q).
  assert (Eq : (w == q * H)%Q) by (unfold q; field; lra).
  assert (Q1 : (q <= (1 + (1 # 9007199254740992)) * r)%Q).
  { apply Qmult_le_r with H; [exact HH|]. rewrite <- Eq. lra. }
  assert (Q2 : ((1 - (1 # 9007199254740992)) * r <= q)%Q).
  { apply Qmult_le_r with H; [exact HH|]. rewrite <- Eq. lra. }
  lra.
Qed.

Lemma ratio_close_div (W r h rho : Q) :
  (0 < W -> 0 < rho -> 0 < r -> 0 < h ->
   r - rho <= (1 # 9007199254740992) * rho -> rho - r <= (1 # 9007199254740992) * rho ->
   h - W / r <= (1 # 9007199254740992) * (W / r) ->
   W / r - h <= (1 # 9007199254740992) * (W / r) ->
   Qabs (W / h - rho) <= (1 # 2251799813685248) * rho)%Q.
Proof.
  intros HW Hrho Hr Hh R1 R2 H1 H2.
  apply Qabs_Qle_condition.
  set (q := (W / h)%Q). set (z := (W / r)%Q) in *.
  assert (Eq : (W == q * h)%Q) by (unfold q; field; lra).
  assert (Ez : (W == z * r)%Q) by (unfold z; field; lra).
  assert (Hq : (0 < q)%Q) by (unfold q; apply Qlt_shift_div_l; lra).
  assert (Hz : (0 < z)%Q) by (unfold z; apply Qlt_shift_div_l; lra).
  (* h between (1 - u) z and (1 + u) z, so r between (1 - u) q and (1 + u) q *)
  assert (Q1 : ((1 - (1 # 9007199254740992)) * q <= r)%Q).
  { apply Qmult_le_r with (z * h)%Q; [apply Qmult_lt_0_compat; assumption|].
    setoid_replace ((1 - (1 # 9007199254740992)) * q * (z * h))%Q
      with ((1 - (1 # 9007199254740992)) * z * (q * h))%Q by ring.
    setoid_replace (r * (z * h))%Q with (h * (z * r))%Q by ring.
    rewrite <- Eq, <- Ez.
    apply Qmult_le_compat_r; lra. }
  assert (Q2 : (r <= (1 + (1 # 9007199254740992)) * q)%Q).
  { apply Qmult_le_r with (z * h)%Q; [apply Qmult_lt_0_compat; assumption|].
    setoid_replace ((1 + (1 # 9007199254740992)) * q * (z * h))%Q
      with ((1 + (1 # 9007199254740992)) * z * (q * h))%Q by ring.
    setoid_replace (r * (z * h))%Q with (h * (z * r))%Q by ring.
    rewrite <- Eq, <- Ez.
    apply Qmult_le_compat_r; lra. }
  lra.
Qed.

(** The aspect ratio of the page, as computed, is below the exact one. *)
Lemma A4_ratio_rounds_down :
  (value (snd A4_double) * value (fst A4_double / snd A4_double)
   < value (fst A4_double))%Q.
Proof. vm_compute. reflexivity. Qed.

Lemma value_pos (x : float) (m : positive) (e : Z) : positive_double x m e -> (0 < value x)%Q.
Proof.
  intros Hn. rewrite (value_positive_double x m e Hn).
  apply Qmult_lt_0_compat; [rewrite <- (Zlt_Qlt 0); lia | apply pow2_pos].
Qed.

(** What [fitImage] computes for a picture of [iw] by [ih] pixels on the A4
    page. *)
Lemma fitImage_fitted (iw ih : Z) :
  0 < iw < 2 ^ 53 -> 0 < ih < 2 ^ 53 ->
  let '(x, y, w, h) := fitImage (Number_of_Z iw) (Number_of_Z ih) (fst A4_double) (snd A4_double) in
  fitted iw ih (value x) (value y) (value w) (value h).
Proof.
  intros Hiw Hih.
  destruct (Number_of_Z_exact iw Hiw) as [ma [ea [Na [Hea Va]]]].
  destruct (Number_of_Z_exact ih Hih) as [mb [eb [Nb [Heb Vb]]]].
  set (a := Number_of_Z iw) in *. set (b := Number_of_Z ih) in *.
  pose proof A4_width_double as NW. pose proof A4_height_double as NH.
  destruct (div_rounds a b ma mb ea eb Na Nb ltac:(lia)) as [mr [er [Nr [Her Rr]]]].
  destruct (div_rounds (fst A4_double) (snd A4_double) _ _ _ _ NW NH ltac:(lia))
    as [mp [ep [Np [Hep Rp]]]].
  unfold fitImage.
  set (r := (a / b)%float) in *. set (pr := (fst A4_double / snd A4_double)%float) in *.
  pose proof (value_pos _ _ _ NW) as HW. pose proof (value_pos _ _ _ NH) as HH.
  pose proof (value_pos _ _ _ Nr) as Hr.
  assert (Hrho : (0 < inject_Z iw / inject_Z ih)%Q).
  { apply Qlt_shift_div_l; [rewrite <- (Zlt_Qlt 0); lia|].
    rewrite Qmult_0_l, <- (Zlt_Qlt 0). lia. }
  assert (Rr1 : (value r - inject_Z iw / inject_Z ih
                 <= (1 # 9007199254740992) * (inject_Z iw / inject_Z ih))%Q)
    by (rewrite <- Va, <- Vb; apply Rr).
  assert (Rr2 : (inject_Z iw / inject_Z ih - value r
                 <= (1 # 9007199254740992) * (inject_Z iw / inject_Z ih))%Q)
    by (rewrite <- Va, <- Vb; apply Rr).
  destruct (pr <? r)%float eqn:Hcmp.
  - (* the image is wider than the page *)
    apply (ltb_value pr r mp mr ep er Np Nr) in Hcmp.
    destruct (div_rounds (fst A4_double) r _ _ _ _ NW Nr ltac:(lia)) as [mh [eh [Nh [Heh Rh]]]].
    set (h := ((fst A4_double) / r)%float) in *.
    pose proof (value_pos _ _ _ Nh) as Hh.
    assert (Hfit : (value h <= value (snd A4_double))%Q).
    { assert (Hge : (value (fst A4_double) / value (snd A4_double) <= value r)%Q).
      { destruct (Qlt_le_dec (value r) (value (fst A4_double) / value (snd A4_double))) as [Hlt | Hge];
          [|exact Hge].
        exfalso. destruct Rp as [_ [_ [_ [_ Hdown]]]].
        assert (Hc : (value r <= value pr)%Q).
        { apply Hdown; [exact (positive_double_is_double _ _ _ Nr) | apply Qlt_le_weak; exact Hlt]. }
        apply (Qlt_irrefl (value r)). apply Qle_lt_trans with (value pr); assumption. }
      destruct Rh as [_ [_ [_ [Hup _]]]].
      apply Hup; [exact (positive_double_is_double _ _ _ NH)|].
      apply Qle_shift_div_r; [exact Hr|].
      apply Qle_trans with (value (fst A4_double) / value (snd A4_double) * value (snd A4_double))%Q.
      - apply Qle_lteq. right. field. lra.
      - rewrite (Qmult_comm (value (snd A4_double))). apply Qmult_le_compat_r; lra. }
    unfold fitted. cbv zeta.
    split; [exact HW|]. split; [exact Hh|].
    split; [left; split; [reflexivity | exact Hfit]|].
    split.
    { apply (ratio_close_div _ (value r)); try assumption; apply Rh. }
    split.
    { apply (offset_rounds (fst A4_double) (fst A4_double) _ _ _ _ NW NW); try lia. apply Qle_refl. }
    { apply (offset_rounds (snd A4_double) h _ _ _ _ NH Nh); try lia. exact Hfit. }
  - (* the image is as narrow as the page, or narrower *)
    assert (Hge : (value r <= value pr)%Q).
    { apply Qnot_lt_le. intros Hlt.
      apply (ltb_value pr r mp mr ep er Np Nr) in Hlt. congruence. }
    destruct (mul_rounds (snd A4_double) r _ _ _ _ NH Nr ltac:(lia)) as [mw [ew [Nw [Hew Rw]]]].
    set (w := ((snd A4_double) * r)%float) in *.
    pose proof (value_pos _ _ _ Nw) as Hw.
    assert (Hfit : (value w <= value (fst A4_double))%Q).
    { destruct Rw as [_ [_ [_ [Hup _]]]].
      apply Hup; [exact (positive_double_is_double _ _ _ NW)|].
      apply Qle_trans with (value (snd A4_double) * value pr)%Q.
      - rewrite !(Qmult_comm (value (snd A4_double))). apply Qmult_le_compat_r; lra.
      - apply Qlt_le_weak. exact A4_ratio_rounds_down. }
    unfold fitted. cbv zeta.
    split; [exact Hw|]. split; [exact HH|].
    split; [right; split; [reflexivity | exact Hfit]|].
    split.
    { apply (ratio_close_mul _ (value r)); try assumption; apply Rw. }
    split.
    { apply (offset_rounds (fst A4_double) w _ _ _ _ NW Nw); try lia. exact Hfit. }
    { apply (offset_rounds (snd A4_double) (snd A4_double) _ _ _ _ NH NH); try lia. apply Qle_refl. }
Qed.

(** ** imagesToPdf *)

Lemma embed_declared (file : File) (image : EncodedImage) :
  holds_image file image ->
  (if includes (type file) "png"
   then await (embedPng (ImageBytes image))
   else await (embedJpg (ImageBytes image))) = Normal image.
Proof.
  intros [_ [Hfmt _]]. unfold embedPng, embedJpg, embed.
  destruct (includes (type file) "png"); rewrite Hfmt; reflexivity.
Qed.

Lemma nth_length_app {A} (l : list A) (x d : A) : nth (List.length l) (l ++ [x]) d = x.
Proof. induction l as [|y l IH]; simpl; [reflexivity | exact IH]. Qed.

Lemma images_step (file : File) (image : EncodedImage) (doc : PDFDocument) :
  holds_image file image ->
  (arrayBuffer <- await (arrayBuffer file) ;;
   image <- (if includes (type file) "png"
             then await (embedPng arrayBuffer)
             else await (embedJpg arrayBuffer)) ;;
   let '(page, pdfDoc) := addNewPage doc in
   let '(width, height) := getSize page pdfDoc in
   let '(x, y, imageWidth, imageHeight) :=
     fitImage (image_width image) (image_height image)
       (Number_of_Q width) (Number_of_Q height) in
   Normal (drawImage image (value x) (value y)
             (value imageWidth) (value imageHeight) page pdfDoc))
  = Normal {| pages := pages doc ++ [imagePage image] |}.
Proof.
  intros Hh. destruct (Hh) as [E _]. rewrite E. cbn [await bind].
  rewrite (embed_declared file image Hh). cbn [bind].
  unfold addNewPage, getSize, addPage. cbn [pages].
  rewrite nth_length_app. cbn [size blankPage].
  unfold imagePage, A4_double. cbn [fst snd A4].
  destruct (fitImage (image_width image) (image_height image)
              (Number_of_Q (59528 # 100)) (Number_of_Q (84189 # 100))) as [[[x y] w] h].
  unfold drawImage, updatePage. cbn [pages].
  rewrite (update_nth_app _ (pages doc) blankPage []). reflexivity.
Qed.

Lemma images_loop (files : list File) (images : list EncodedImage) (doc : PDFDocument) :
  Forall2 holds_image files images ->
  forEach (fun file pdfDoc =>
             arrayBuffer <- await (arrayBuffer file) ;;
             image <- (if includes (type file) "png"
                       then await (embedPng arrayBuffer)
                       else await (embedJpg arrayBuffer)) ;;
             let '(page, pdfDoc) := addNewPage pdfDoc in
             let '(width, height) := getSize page pdfDoc in
             let '(x, y, imageWidth, imageHeight) :=
               fitImage (image_width image) (image_height image)
                 (Number_of_Q width) (Number_of_Q height) in
             Normal (drawImage image (value x) (value y)
                       (value imageWidth) (value imageHeight) page pdfDoc))
          files doc
  = Normal {| pages := pages doc ++ map imagePage images |}.
Proof.
  intros Hall; revert doc.
  induction Hall as [|file image files images Hh _ IH]; intros doc.
  - simpl. rewrite app_nil_r, doc_eta. reflexivity.
  - cbn [forEach]. rewrite (images_step file image doc Hh). cbn [bind].
    rewrite IH. cbn [pages map]. rewrite <- app_assoc. reflexivity.
Qed.

Lemma imagesToPdf_pages (files : list File) (images : list EncodedImage) :
  Forall2 holds_image files images ->
  imagesToPdf files
  = Fulfilled (pdfBlob (PdfBytes true
      {| pages := match images with
                  | [] => [blankPage]
                  | _ => map imagePage images
                  end |})).
Proof.
  intros Hall. unfold imagesToPdf. cbn [create await bind].
  rewrite (images_loop files images _ Hall).
  destruct images as [|image images]; cbn [bind pages app map].
  - rewrite save_empty. reflexivity.
  - rewrite save_nonempty by discriminate. reflexivity.
Qed.

(** The page made for an image of positive dimensions below [2 ^ 53]
    shows it fitted. *)
Lemma imagePage_shows_fitted (image : EncodedImage) :
  0 < bm_width (bitmap image) -> 0 < bm_height (bitmap image) ->
  exact_dimensions image ->
  shows_fitted image (imagePage image).
Proof.
  intros Hw Hh [Hw' Hh'].
  assert (H := fitImage_fitted (bm_width (bitmap image)) (bm_height (bitmap image))
                 ltac:(lia) ltac:(lia)).
  unfold imagePage, shows_fitted, image_width, image_height.
  destruct (fitImage (Number_of_Z (bm_width (bitmap image)))
              (Number_of_Z (bm_height (bitmap image)))
              (fst A4_double) (snd A4_double)) as [[[x y] w] h].
  exists (value x), (value y), (value w), (value h).
  split; [reflexivity | exact H].
Qed.

(** C9 (amended).  For every list of image inputs whose bytes are of the
    format their declared MIME type selects (PNG when it contains "png",
    JPEG otherwise), [imagesToPdf] gives each image a new page of its own, in
    input order, and draws it there fitted: as wide or as high as the page
    and within it in the other dimension, centred, and with the image's
    aspect ratio up to the rounding of the doubles the program computes
    with, drawn width / drawn height being within a relative [2 ^ -51] of
    image width / image height. *)
Theorem imagesToPdf_fits_each_image (files : list File) (images : list EncodedImage) :
  Forall2 holds_image files images ->
  Forall exact_dimensions images ->
  exists blob ps,
    imagesToPdf files = Fulfilled blob /\
    pdf_pages blob = Some ps /\
    (files <> [] -> Forall2 shows_fitted images ps) /\
    (files = [] -> ps = [blankPage]).
Proof.
  intros Hall Hdim. do 2 eexists.
  split; [apply imagesToPdf_pages; exact Hall|].
  split; [reflexivity|]. split.
  - intros Hne. destruct Hall as [|file image files images Hh Hall]; [contradiction|].
    assert (Hpos : Forall (fun image => 0 < bm_width (bitmap image) /\
                                        0 < bm_height (bitmap image))
                     (image :: images)).
    { constructor; [apply Hh|].
      clear -Hall. induction Hall as [|f i fs rest Hi _ IH]; constructor;
        [apply Hi | exact IH]. }
    clear -Hpos Hdim. revert Hdim.
    induction Hpos as [|i rest [Hw Hh] _ IH]; intros Hdim; simpl; constructor.
    + apply imagePage_shows_fitted; [assumption | assumption |].
      inversion Hdim; assumption.
    + apply IH. inversion Hdim; assumption.
  - intros ->. inversion Hall; subst. reflexivity.
Qed.

Lemma imagesToPdf_fits_each_image_witness :
  exists blob ps,
    imagesToPdf [imageFile "wide.png" "image/png" (pngImage 1920 1080);
                 imageFile "tall.jpg" "image/jpeg" (jpegImage 600 1200)]
    = Fulfilled blob /\
    pdf_pages blob = Some ps /\
    Forall2 shows_fitted [pngImage 1920 1080; jpegImage 600 1200] ps.
Proof.
  assert (Hall : Forall2 holds_image
                   [imageFile "wide.png" "image/png" (pngImage 1920 1080);
                    imageFile "tall.jpg" "image/jpeg" (jpegImage 600 1200)]
                   [pngImage 1920 1080; jpegImage 600 1200]).
  { repeat constructor. }
  assert (Hdim : Forall exact_dimensions [pngImage 1920 1080; jpegImage 600 1200]).
  { repeat constructor. }
  destruct (imagesToPdf_fits_each_image _ _ Hall Hdim) as [blob [ps [E [Hp [Hfit _]]]]].
  exists blob, ps. split; [exact E|]. split; [exact Hp|].
  apply Hfit. discriminate.
Defined.

(** C9 as stated fails on two counts.  An image whose declared type does not
    select its format is not embedded: a PNG picture that comes without a
    declared type is handed to the JPEG decoder, and the conversion rejects
    without a PDF.  And where the image is embedded, its aspect ratio is
    kept up to rounding only: for the 1920 x 1080 picture, drawn width /
    drawn height is not 1920 / 1080. *)
Lemma imagesToPdf_claim_counterexample :
  imagesToPdf [imageFile "scan" EmptyString (pngImage 4 3)]
  = Rejected (Error "SOI not found in JPEG") /\
  exists x y w h : Q,
    imagesToPdf [imageFile "wide.png" "image/png" (pngImage 1920 1080)]
    = Fulfilled (pdfBlob (PdfBytes true
        {| pages := [ {| size := A4; rotation := 0;
                         contents := [DrawImageOp (pngImage 1920 1080) x y w h] |} ] |})) /\
    ~ (w / h == 1920 / 1080)%Q.
Proof.
  split; [reflexivity|].
  do 4 eexists. split.
  - vm_compute. reflexivity.
  - vm_compute. discriminate.
Qed.

(** The embedding function is chosen by the declared MIME type, not by the
    bytes. *)
Example imagesToPdf_embeds_by_declared_type :
  imagesToPdf [imageFile "photo.png" "image/png" (jpegImage 4 3)]
  = Rejected (Error "The input is not a PNG file!") /\
  imagesToPdf [imageFile "scan" EmptyString (pngImage 4 3)]
  = Rejected (Error "SOI not found in JPEG").
Proof. split; reflexivity. Qed.

(** A picture of the exact proportions of the page, 8504 x 12027: the
    computed ratio of the page is below that of the picture, so the picture
    counts as the wider one, is drawn as wide as the page, and its height
    comes out one unit in the last place short of the page's. *)
Example imagesToPdf_at_page_ratio :
  exists x y w h : Q,
    imagePage (pngImage 8504 12027)
    = {| size := A4; rotation := 0;
         contents := [DrawImageOp (pngImage 8504 12027) x y w h] |} /\
    (inject_Z 8504 / inject_Z 12027 == fst A4 / snd A4)%Q /\
    (w == value (fst A4_double))%Q /\
    (h == value (snd A4_double) - pow2 (-43))%Q /\
    (x == 0)%Q /\ (y == pow2 (-44))%Q.
Proof.
  do 4 eexists. split; [vm_compute; reflexivity|].
  repeat split; vm_compute; reflexivity.
Qed.

(** ** DocumentProcessor *)

Import DocumentProcessor.

(** The three conversions from PDF cannot fail: their bodies build a string
    or a workbook and wrap it in a blob. *)
Lemma pdfToWord_fulfilled (file : File) :
  exists blob, pdfToWord file = ([], Fulfilled blob) /\
               blobType blob
               = "application/vnd.openxmlformats-officedocument.wordprocessingml.document"%string.
Proof. eexists. split; reflexivity. Qed.

Lemma pdfToPowerPoint_fulfilled (file : File) :
  exists blob, pdfToPowerPoint file = ([], Fulfilled blob) /\
               blobType blob
               = "application/vnd.openxmlformats-officedocument.presentationml.presentation"%string.
Proof. eexists. split; reflexivity. Qed.

Section ToPdf.
Context {J : JsPDF} {R : OfficeReaders}.

(** A failure while the file is read or its text extracted is caught,
    logged, and replaced by the generic error. *)
Lemma wordToPdf_read_failure (file : File) (e : JsError) :
  (arrayBuffer <- await (arrayBuffer file) ;;
   await (mammoth_extractRawText arrayBuffer)) = Throw e ->
  wordToPdf file
  = ([("Word to PDF conversion failed:"%string, e)],
     Rejected (Error "Failed to convert Word document")).
Proof.
  intros Hfail. unfold wordToPdf.
  destruct (arrayBuffer file) as [bytes|e']; cbn in *.
  - destruct (mammoth_extractRawText bytes); cbn in *; [discriminate|].
    injection Hfail as ->. reflexivity.
  - injection Hfail as ->. reflexivity.
Qed.

(** The promise of [createTextPdf] is returned without [await]: whatever
    it settles to is the result, and nothing is logged. *)
Lemma wordToPdf_returns_createTextPdf (file : File) (bytes : Bytes) (content : string) :
  arrayBuffer file = Fulfilled bytes ->
  mammoth_extractRawText bytes = Fulfilled content ->
  wordToPdf file
  = ([], createTextPdf content (replace_extension (name file) ".pdf")).
Proof.
  intros E1 E2. unfold wordToPdf. rewrite E1; cbn. rewrite E2; cbn.
  destruct (createTextPdf content (replace_extension (name file) ".pdf"));
    reflexivity.
Qed.

Lemma powerPointToPdf_returns_createTextPdf (file : File) :
  powerPointToPdf file
  = ([], createTextPdf
           ("PowerPoint Presentation: " ++ name file ++ LF ++ LF ++
            "This is a simplified conversion. The original presentation contained slides that would need specialized processing to maintain formatting.")%string
           (replace_extension (name file) ".pdf")).
Proof.
  unfold powerPointToPdf, Console.async, Console.try_catch, Console.lift.
  cbn [fst snd async].
  match goal with |- context [createTextPdf ?c ?n] => destruct (createTextPdf c n) end;
    reflexivity.
Qed.

(** [excelToPdf]: a failure while the workbook is read or turned into text
    is wrapped; once the text is there the promise of [createTextPdf] is the
    result. *)
Lemma excelToPdf_cases (file : File) :
  match (arrayBuffer <- await (arrayBuffer file) ;;
         workbook <- XLSX_read arrayBuffer ;;
         forEach (fun sheetName content =>
                    csvData <- XLSX_sheet_to_csv (Sheets workbook sheetName) ;;
                    Normal (content ++ "Sheet: " ++ sheetName ++ LF
                                    ++ csvData ++ LF ++ LF)%string)
           (SheetNames workbook) EmptyString) with
  | Normal content =>
      excelToPdf file
      = ([], createTextPdf content (replace_extension (name file) ".pdf"))
  | Throw e =>
      excelToPdf file
      = ([("Excel to PDF conversion failed:"%string, e)],
         Rejected (Error "Failed to convert Excel document"))
  end.
Proof.
  unfold excelToPdf.
  destruct (arrayBuffer file) as [bytes|e]; cbn; [|reflexivity].
  destruct (XLSX_read bytes) as [workbook|e]; cbn; [|reflexivity].
  match goal with |- context [forEach ?f ?l ?s] => destruct (forEach f l s) as [content|e] end;
    cbn; [|reflexivity].
  destruct (createTextPdf content (replace_extension (name file) ".pdf")); reflexivity.
Qed.

End ToPdf.

(** C1 at the failing inputs.  When jsPDF throws inside [createTextPdf], the
    callers of [wordToPdf], [excelToPdf] and [powerPointToPdf] receive that
    error as it is, not the method's generic error, and nothing is logged:
    the promise is returned from the [try] block without [await]. *)
Theorem toPdf_passes_on_createTextPdf_error :
  @wordToPdf jsPDF_output_throws sampleReaders docxFile
  = ([], Rejected (Error "Invalid string length")) /\
  @excelToPdf jsPDF_output_throws sampleReaders xlsxFile
  = ([], Rejected (Error "Invalid string length")) /\
  @powerPointToPdf jsPDF_output_throws pptxFile
  = ([], Rejected (Error "Invalid string length")) /\
  Error "Invalid string length" <> Error "Failed to convert Word document".
Proof. repeat split; try reflexivity. discriminate. Qed.

(** A failure before [createTextPdf] is wrapped as the specification says. *)
Example wordToPdf_wraps_extraction_error :
  @wordToPdf jsPDF_output_throws sampleReaders
    {| name := "broken.docx"; type := EmptyString; arrayBuffer := Fulfilled (RawBytes []) |}
  = ([("Word to PDF conversion failed:"%string,
       Error "Can't find end of central directory")],
     Rejected (Error "Failed to convert Word document")).
Proof. reflexivity. Qed.

(** C7 (amended).  For every input file, [pdfToExcel] is fulfilled with a
    spreadsheet blob whose single sheet has four rows: two metadata rows,
    the first of which carries the name of the file, and a three-column
    sample of two rows, a header row and a data row.  The sheet depends on
    the name of the input and on nothing else: not on its content, not on
    its declared type. *)
Theorem pdfToExcel_fixed_content (file : File) :
  pdfToExcel file
  = ([], Fulfilled
           {| blobPart :=
                XlsxBytes
                  [("Extracted Data"%string,
                    [ ["Extracted from PDF:"; name file];
                      ["Note:"; "This is a simplified extraction"];
                      ["Column 1"; "Column 2"; "Column 3"];
                      ["Data 1"; "Data 2"; "Data 3"] ]%string)];
              blobType :=
                "application/vnd.openxmlformats-officedocument.spreadsheetml.sheet" |}) /\
  map (@List.length string) (extractedRows file) = [2; 2; 3; 3]%nat /\
  (forall mime1 mime2 content1 content2,
      pdfToExcel {| name := name file; type := mime1; arrayBuffer := content1 |}
      = pdfToExcel {| name := name file; type := mime2; arrayBuffer := content2 |}).
Proof. split; [reflexivity|]. split; reflexivity. Qed.

(** C7 as stated fails: the sheet has four rows, two of them of three
    columns, where the claim counts three rows, one of them of three
    columns; and its content is not fixed, for two files that differ in
    their names only get different sheets. *)
Lemma pdfToExcel_claim_counterexample :
  List.length (extractedRows (pdfFile "january.pdf" [samplePage "p"])) = 4%nat /\
  List.length (filter (fun row => (List.length row =? 3)%nat)
                 (extractedRows (pdfFile "january.pdf" [samplePage "p"]))) = 2%nat /\
  pdfToExcel (pdfFile "january.pdf" [samplePage "p"])
  <> pdfToExcel (pdfFile "february.pdf" [samplePage "p"]).
Proof. split; [reflexivity|]. split; [reflexivity | discriminate]. Qed.

(** * Further properties of PDFProcessor *)

(** ** Inputs that do not load *)

Lemma concat_singletons {A} (l : list A) : List.concat (map (fun x => [x]) l) = l.
Proof. induction l as [|x l IH]; simpl; [reflexivity | rewrite IH; reflexivity]. Qed.

(** X1.  A file that cannot be read, or whose bytes are no PDF, makes every
    single-file operation reject with exactly that error: nothing is
    wrapped, logged or partially returned. *)
Theorem unloadable_input_rejects
    (file : File) (e : JsError) (password : string) (degrees : Z)
    (pagesToDelete : list Z) (kind : ImageKind) :
  (arrayBuffer <- await (arrayBuffer file) ;; await (load arrayBuffer)) = Throw e ->
  protectPdf file password = Rejected e /\
  rotatePdf file degrees = Rejected e /\
  deletePages file pagesToDelete = Rejected e /\
  splitPdf file = Rejected e /\
  compressPdf file = Rejected e /\
  pdfToImages file kind = Rejected e.
Proof.
  intros Hfail.
  unfold protectPdf, rotatePdf, deletePages, splitPdf, compressPdf, pdfToImages.
  destruct (arrayBuffer file) as [bytes|e']; cbn in Hfail |- *.
  - destruct (load bytes) as [doc|e'']; cbn in Hfail |- *; [discriminate|].
    injection Hfail as ->. repeat split; reflexivity.
  - injection Hfail as ->. repeat split; reflexivity.
Qed.

Lemma unloadable_input_rejects_witness :
  splitPdf docxFile
  = Rejected (Error "Failed to parse PDF document: No PDF header found") /\
  deletePages docxFile [0]
  = Rejected (Error "Failed to parse PDF document: No PDF header found").
Proof.
  destruct (unloadable_input_rejects docxFile
              (Error "Failed to parse PDF document: No PDF header found")
              "pw" 90 [0] jpg eq_refl) as [_ [_ [Hd [Hs _]]]].
  split; [exact Hs | exact Hd].
Defined.

(** ** mergePdfs *)

(** X2.  [mergePdfs] is all or nothing: when the inputs before [bad] load and
    [bad] does not, the merge rejects with the error of [bad], whatever
    follows it. *)
Theorem mergePdfs_rejects_at_first_bad_input
    (before after : list File) (docs : list PDFDocument) (bad : File) (e : JsError) :
  Forall2 loads before docs ->
  (arrayBuffer <- await (arrayBuffer bad) ;; await (load arrayBuffer)) = Throw e ->
  mergePdfs (before ++ bad :: after) = Rejected e.
Proof.
  intros Hall Hbad. unfold mergePdfs. cbn [create await bind].
  rewrite forEach_app. rewrite (merge_loop before docs _ Hall). cbn [bind forEach].
  destruct (arrayBuffer bad) as [bytes|e']; cbn in Hbad |- *.
  - destruct (load bytes) as [doc|e'']; cbn in Hbad |- *; [discriminate|].
    injection Hbad as ->. reflexivity.
  - injection Hbad as ->. reflexivity.
Qed.

Lemma mergePdfs_rejects_at_first_bad_input_witness :
  mergePdfs [fileA; docxFile; fileB]
  = Rejected (Error "Failed to parse PDF document: No PDF header found").
Proof.
  apply (mergePdfs_rejects_at_first_bad_input [fileA] [fileB]
           [ {| pages := [samplePage "p"] |} ] docxFile).
  - constructor; [exists true; reflexivity | constructor].
  - reflexivity.
Defined.

(** X3.  Splitting a valid PDF and merging the parts, in order, gives back
    its page sequence. *)
Theorem mergePdfs_of_splitPdf (file : File) (doc : PDFDocument) (partName : string) :
  valid_pdf file doc ->
  exists parts merged,
    splitPdf file = Fulfilled parts /\
    mergePdfs (map (fileOf partName) parts) = Fulfilled merged /\
    pdf_pages merged = Some (pages doc).
Proof.
  intros [Hl Hne]. do 2 eexists.
  split; [apply splitPdf_blobs; exact Hl|].
  rewrite map_map.
  assert (Hall : Forall2 valid_pdf
            (map (fun p => fileOf partName (pdfBlob (PdfBytes true {| pages := [p] |})))
                 (pages doc))
            (map (fun p => {| pages := [p] |}) (pages doc))).
  { clear. induction (pages doc) as [|p ps IH]; simpl; constructor.
    - split; [exists true; reflexivity | discriminate].
    - exact IH. }
  rewrite (mergePdfs_valid _ _ Hall).
  - split; [reflexivity|]. unfold pdf_pages; simpl.
    rewrite map_map. simpl. rewrite concat_singletons. reflexivity.
  - destruct (pages doc); [contradiction | discriminate].
Qed.

Lemma mergePdfs_of_splitPdf_witness :
  exists parts merged,
    splitPdf fileABC = Fulfilled parts /\
    mergePdfs (map (fileOf "part.pdf") parts) = Fulfilled merged /\
    pdf_pages merged = Some [samplePage "a"; samplePage "b"; samplePage "c"].
Proof.
  assert (Hv : valid_pdf fileABC
                 {| pages := [samplePage "a"; samplePage "b"; samplePage "c"] |})
    by (split; [exists true; reflexivity | discriminate]).
  exact (mergePdfs_of_splitPdf fileABC _ "part.pdf" Hv).
Defined.

(** X4.  Merging is associative over results: merging the result of a first
    merge with further inputs is merging all the inputs at once. *)
Theorem mergePdfs_nested
    (first rest : list File) (firstDocs restDocs : list PDFDocument)
    (mergedName : string) :
  Forall2 valid_pdf first firstDocs -> first <> [] ->
  Forall2 valid_pdf rest restDocs ->
  exists merged,
    mergePdfs first = Fulfilled merged /\
    mergePdfs (fileOf mergedName merged :: rest) = mergePdfs (first ++ rest).
Proof.
  intros Hfirst Hne Hrest. eexists.
  split; [apply mergePdfs_valid; eassumption|].
  assert (Hcat : List.concat (map pages firstDocs) <> [])
    by (apply (concat_valid_nonempty first); assumption).
  assert (Hm : valid_pdf
                 (fileOf mergedName
                    (pdfBlob (PdfBytes true {| pages := List.concat (map pages firstDocs) |})))
                 {| pages := List.concat (map pages firstDocs) |})
    by (split; [exists true; reflexivity | exact Hcat]).
  rewrite (mergePdfs_valid _ _ (Forall2_cons _ _ Hm Hrest)) by discriminate.
  rewrite (mergePdfs_valid _ _ (Forall2_app Hfirst Hrest)).
  - simpl. rewrite map_app, concat_app. reflexivity.
  - destruct first; [contradiction | discriminate].
Qed.

Lemma mergePdfs_nested_witness :
  exists merged,
    mergePdfs [fileA; fileB] = Fulfilled merged /\
    mergePdfs [fileOf "ab.pdf" merged; fileABC] = mergePdfs [fileA; fileB; fileABC].
Proof.
  apply (mergePdfs_nested [fileA; fileB] [fileABC]
           [ {| pages := [samplePage "p"] |};
             {| pages := [samplePage "p"; samplePage "p"] |} ]
           [ {| pages := [samplePage "a"; samplePage "b"; samplePage "c"] |} ]
           "ab.pdf").
  - repeat constructor; try (exists true; reflexivity); discriminate.
  - discriminate.
  - repeat constructor; try (exists true; reflexivity); discriminate.
Defined.

(** ** rotatePdf and compressPdf *)

(** X5.  On a valid PDF, [rotatePdf] is fulfilled exactly for the angles that
    are multiples of 90; every other angle is rejected by [setRotation]. *)
Theorem rotatePdf_succeeds_iff_multiple_of_90
    (file : File) (doc : PDFDocument) (degrees : Z) :
  valid_pdf file doc ->
  ((exists blob, rotatePdf file degrees = Fulfilled blob) <-> Z.rem degrees 90 = 0).
Proof.
  intros Hv. split.
  - intros [blob E]. destruct (Z.eq_dec (Z.rem degrees 90) 0) as [Hmul|Hmul];
      [exact Hmul|].
    rewrite (rotatePdf_rejects _ _ _ Hv Hmul) in E. discriminate.
  - intros Hmul. eexists. apply (rotatePdf_valid file doc degrees Hv Hmul).
Qed.

Lemma rotatePdf_succeeds_iff_multiple_of_90_witness :
  (exists blob, rotatePdf fileA 270 = Fulfilled blob) /\
  ~ (exists blob, rotatePdf fileA 45 = Fulfilled blob).
Proof.
  assert (Hv : valid_pdf fileA {| pages := [samplePage "p"] |})
    by (split; [exists true; reflexivity | discriminate]).
  split.
  - apply (rotatePdf_succeeds_iff_multiple_of_90 fileA _ 270 Hv). reflexivity.
  - intros H. apply (rotatePdf_succeeds_iff_multiple_of_90 fileA _ 45 Hv) in H.
    discriminate.
Defined.

(** X6.  The last rotation wins: rotating a result by another multiple of 90
    gives what rotating the original by that angle gives. *)
Theorem rotatePdf_last_angle_wins
    (file : File) (doc : PDFDocument) (first second : Z) :
  valid_pdf file doc ->
  Z.rem first 90 = 0 -> Z.rem second 90 = 0 ->
  exists once,
    rotatePdf file first = Fulfilled once /\
    rotatePdf (fileOf (name file) once) second = rotatePdf file second.
Proof.
  intros Hv H1 H2. assert (Hne : pages doc <> []) by apply Hv.
  eexists. split; [apply (rotatePdf_valid file doc first Hv H1)|].
  rewrite (rotatePdf_valid _ _ second (rotated_valid (name file) doc first Hne) H2).
  rewrite (rotatePdf_valid _ _ second Hv H2).
  simpl. rewrite map_map. reflexivity.
Qed.

Lemma rotatePdf_last_angle_wins_witness :
  exists once,
    rotatePdf fileB 90 = Fulfilled once /\
    rotatePdf (fileOf "b.pdf" once) 180 = rotatePdf fileB 180.
Proof.
  assert (Hv : valid_pdf fileB {| pages := [samplePage "p"; samplePage "p"] |})
    by (split; [exists true; reflexivity | discriminate]).
  exact (rotatePdf_last_angle_wins fileB _ 90 180 Hv eq_refl eq_refl).
Defined.

(** X7.  [compressPdf] keeps the page sequence of every input that parses,
    also of one without pages (it switches [addDefaultPage] off), and
    compressing its result again changes nothing. *)
Theorem compressPdf_keeps_pages (file : File) (doc : PDFDocument) :
  loads file doc ->
  exists blob,
    compressPdf file = Fulfilled blob /\
    pdf_pages blob = Some (pages doc) /\
    compressPdf (fileOf (name file) blob) = Fulfilled blob.
Proof.
  intros [os E]. unfold compressPdf. rewrite E. eexists.
  split; [reflexivity|]. split; [|reflexivity].
  unfold pdf_pages. reflexivity.
Qed.

Lemma compressPdf_keeps_pages_witness :
  exists blob,
    compressPdf emptyPdf = Fulfilled blob /\ pdf_pages blob = Some [].
Proof.
  assert (Hl : loads emptyPdf {| pages := [] |}) by (exists true; reflexivity).
  destruct (compressPdf_keeps_pages emptyPdf _ Hl) as [blob [E [Hp _]]].
  exists blob. split; [exact E | exact Hp].
Defined.

(** X8.  A PDF without pages.  [protectPdf], [rotatePdf] (with any angle, also
    one that is no multiple of 90) and [deletePages] (with any index list)
    return a document holding one blank, unrotated page; [compressPdf]
    returns a document without pages; [splitPdf] and [pdfToImages] return no
    blobs. *)
Theorem operations_on_pageless_pdf
    (file : File) (doc : PDFDocument) (password : string) (degrees : Z)
    (pagesToDelete : list Z) (kind : ImageKind) :
  loads file doc -> pages doc = [] ->
  protectPdf file password
  = Fulfilled (pdfBlob (PdfBytes true {| pages := [blankPage] |})) /\
  rotatePdf file degrees
  = Fulfilled (pdfBlob (PdfBytes true {| pages := [blankPage] |})) /\
  deletePages file pagesToDelete
  = Fulfilled (pdfBlob (PdfBytes true {| pages := [blankPage] |})) /\
  compressPdf file = Fulfilled (pdfBlob (PdfBytes false {| pages := [] |})) /\
  splitPdf file = Fulfilled [] /\
  pdfToImages file kind = Fulfilled [].
Proof.
  intros Hl Hempty. destruct doc as [ps]. simpl in Hempty. subst ps.
  split; [|split; [|split; [|split; [|split]]]].
  - destruct Hl as [os E]. unfold protectPdf. rewrite E. reflexivity.
  - destruct Hl as [os E]. unfold rotatePdf. rewrite E. reflexivity.
  - rewrite (deletePages_filter file _ pagesToDelete Hl).
    rewrite filter_none.
    + destruct Hl as [os E]. unfold deletePages. rewrite E. reflexivity.
    + apply Forall_forall. intros i _. unfold inRange, getPageCount. simpl.
      destruct (i >=? 0) eqn:E1; [|reflexivity].
      rewrite Z.geb_leb in E1. apply Z.leb_le in E1.
      simpl. apply Z.ltb_ge. exact E1.
  - destruct Hl as [os E]. unfold compressPdf. rewrite E. reflexivity.
  - destruct Hl as [os E]. unfold splitPdf. rewrite E. reflexivity.
  - destruct Hl as [os E]. unfold pdfToImages. rewrite E. reflexivity.
Qed.

Lemma operations_on_pageless_pdf_witness :
  rotatePdf emptyPdf 45
  = Fulfilled (pdfBlob (PdfBytes true {| pages := [blankPage] |})) /\
  deletePages emptyPdf [0; 0; 3]
  = Fulfilled (pdfBlob (PdfBytes true {| pages := [blankPage] |})) /\
  splitPdf emptyPdf = Fulfilled [].
Proof.
  assert (Hl : loads emptyPdf {| pages := [] |}) by (exists true; reflexivity).
  destruct (operations_on_pageless_pdf emptyPdf _ "pw" 45 [0; 0; 3] png Hl eq_refl)
    as [_ [Hr [Hd [_ [Hs _]]]]].
  split; [exact Hr|]. split; [exact Hd | exact Hs].
Defined.

(** ** deletePages *)

Lemma descending_sorted_unique (l1 l2 : list Z) :
  StronglySorted descending l1 -> StronglySorted descending l2 ->
  Permutation l1 l2 -> l1 = l2.
Proof.
  intros H1. revert l2. induction H1 as [|x l1 Hs1 IH Hx]; intros l2 H2 Hperm.
  - apply Permutation_nil in Hperm. subst. reflexivity.
  - destruct H2 as [|y l2 Hs2 Hy].
    + apply Permutation_sym, Permutation_nil in Hperm. discriminate.
    + assert (Hxy : x = y).
      { assert (Hin1 : In x (y :: l2))
          by (eapply Permutation_in; [exact Hperm | left; reflexivity]).
        assert (Hin2 : In y (x :: l1))
          by (eapply Permutation_in; [apply Permutation_sym; exact Hperm
                                     | left; reflexivity]).
        rewrite Forall_forall in Hx, Hy. unfold descending in Hx, Hy.
        destruct Hin1 as [->|Hin1]; [reflexivity|].
        destruct Hin2 as [->|Hin2]; [reflexivity|].
        specialize (Hx y Hin2). specialize (Hy x Hin1). lia. }
      subst y. f_equal. apply IH; [exact Hs2|].
      eapply Permutation_cons_inv. exact Hperm.
Qed.

(** X9.  The order in which the indices are given does not matter:
    [deletePages] gives the same result for any rearrangement of the
    list. *)
Theorem deletePages_order_irrelevant (file : File) (l1 l2 : list Z) :
  Permutation l1 l2 -> deletePages file l1 = deletePages file l2.
Proof.
  intros Hperm. unfold deletePages.
  rewrite (descending_sorted_unique
             (Array_sort (fun a b => b - a) l1) (Array_sort (fun a b => b - a) l2)).
  - reflexivity.
  - apply Array_sort_sorted.
  - apply Array_sort_sorted.
  - apply perm_trans with l1; [apply Array_sort_perm|].
    apply perm_trans with l2; [exact Hperm | apply Permutation_sym, Array_sort_perm].
Qed.

Lemma deletePages_order_irrelevant_witness :
  deletePages fileABC [0; 2] = deletePages fileABC [2; 0].
Proof.
  apply deletePages_order_irrelevant. apply perm_swap.
Defined.

Lemma remove_nth_twice {A} (k : nat) (l : list A) :
  remove_nth k (remove_nth k l) = remove_nth k (remove_nth (S k) l).
Proof.
  revert l. induction k as [|k IH]; intros l.
  - destruct l as [|a [|b l]]; reflexivity.
  - destruct l as [|a l]; [reflexivity|].
    change (remove_nth (S k) (a :: l)) with (a :: remove_nth k l).
    change (remove_nth (S (S k)) (a :: l)) with (a :: remove_nth (S k) l).
    change (remove_nth (S k) (a :: remove_nth k l))
      with (a :: remove_nth k (remove_nth k l)).
    change (remove_nth (S k) (a :: remove_nth (S k) l))
      with (a :: remove_nth k (remove_nth (S k) l)).
    rewrite IH. reflexivity.
Qed.

Lemma inRange_true (totalPages i : Z) :
  0 <= i < totalPages -> inRange totalPages i = true.
Proof.
  intros Hi. unfold inRange. apply andb_true_intro.
  split; [apply Z.geb_le | apply Z.ltb_lt]; lia.
Qed.

(** X10.  An index given twice.  The guard passes both copies, so the second
    one removes the page that has moved into the place of the first:
    [deletePages file [i; i]] equals [deletePages file [i; i + 1]] when
    page [i + 1] exists, and is rejected by [removePage] when [i] is the
    last page. *)
Theorem deletePages_doubled_index (file : File) (doc : PDFDocument) (i : Z) :
  valid_pdf file doc -> 0 <= i < getPageCount doc ->
  (i + 1 < getPageCount doc ->
   deletePages file [i; i] = deletePages file [i; i + 1]) /\
  (i + 1 = getPageCount doc ->
   exists e, deletePages file [i; i] = Rejected e).
Proof.
  intros [Hl Hne] Hi. destruct doc as [ps]. unfold getPageCount in *. simpl in *.
  rewrite !(deletePages_loaded file {| pages := ps |}) by exact Hl.
  unfold getPageCount. cbn [pages Array_sort sort_insert].
  rewrite Z.sub_diag. cbn [Z.leb Z.compare].
  replace (i + 1 - i <=? 0) with false by (symmetry; apply Z.leb_gt; lia).
  assert (Hlen : S (List.length (remove_nth (Z.to_nat i) ps)) = List.length ps)
    by (apply length_remove_nth; lia).
  split.
  - intros Hnext.
    assert (Hlen' : S (List.length (remove_nth (Z.to_nat (i + 1)) ps)) = List.length ps)
      by (apply length_remove_nth; lia).
    cbn [forEach].
    rewrite (inRange_true _ i), (inRange_true _ (i + 1)) by lia.
    rewrite (removePage_in_range i ps), (removePage_in_range (i + 1) ps) by lia.
    cbn [bind].
    rewrite !removePage_in_range by lia. cbn [bind].
    replace (Z.to_nat (i + 1)) with (S (Z.to_nat i)) by lia.
    rewrite remove_nth_twice. reflexivity.
  - intros Hlast. cbn [forEach].
    rewrite (inRange_true _ i) by lia.
    rewrite (removePage_in_range i ps) by lia. cbn [bind].
    unfold removePage, getPageCount. cbn [pages].
    destruct (Z.of_nat (List.length (remove_nth (Z.to_nat i) ps)) =? 0) eqn:E0.
    + eexists. reflexivity.
    + replace ((0 <=? i) &&
               (i <=? Z.of_nat (List.length (remove_nth (Z.to_nat i) ps)) - 1))
        with false
        by (symmetry; apply andb_false_intro2; apply Z.leb_gt; lia).
      eexists. reflexivity.
Qed.

Lemma deletePages_doubled_index_witness :
  deletePages fileABC [0; 0] = deletePages fileABC [0; 1] /\
  exists e, deletePages fileABC [2; 2] = Rejected e.
Proof.
  assert (Hv : valid_pdf fileABC
                 {| pages := [samplePage "a"; samplePage "b"; samplePage "c"] |})
    by (split; [exists true; reflexivity | discriminate]).
  split.
  - apply (deletePages_doubled_index fileABC _ 0 Hv);
      unfold getPageCount; simpl; lia.
  - apply (deletePages_doubled_index fileABC _ 2 Hv);
      unfold getPageCount; simpl; lia.
Defined.

(** X11.  Deleting in two calls, the higher index first, is deleting both at
    once. *)
Theorem deletePages_in_two_steps
    (file : File) (doc : PDFDocument) (i j : Z) (resultName : string) :
  valid_pdf file doc -> 0 <= j < i -> i < getPageCount doc ->
  exists once,
    deletePages file [i] = Fulfilled once /\
    deletePages (fileOf resultName once) [j] = deletePages file [i; j].
Proof.
  intros [Hl Hne] Hj Hi. destruct doc as [ps]. unfold getPageCount in *. simpl in *.
  assert (Hlen : S (List.length (remove_nth (Z.to_nat i) ps)) = List.length ps)
    by (apply length_remove_nth; lia).
  assert (Hne1 : remove_nth (Z.to_nat i) ps <> [])
    by (intros E; rewrite E in Hlen; simpl in Hlen; lia).
  exists (pdfBlob (PdfBytes true {| pages := remove_nth (Z.to_nat i) ps |})).
  split.
  - rewrite (deletePages_loaded file {| pages := ps |}) by exact Hl.
    unfold getPageCount. cbn [pages Array_sort sort_insert forEach].
    rewrite (inRange_true _ i) by lia.
    rewrite (removePage_in_range i ps) by lia. cbn [bind forEach].
    rewrite save_nonempty by exact Hne1. reflexivity.
  - rewrite (deletePages_loaded _ {| pages := remove_nth (Z.to_nat i) ps |})
      by (exists true; reflexivity).
    rewrite (deletePages_loaded file {| pages := ps |}) by exact Hl.
    unfold getPageCount. cbn [pages Array_sort sort_insert].
    replace (j - i <=? 0) with true by (symmetry; apply Z.leb_le; lia).
    cbn [forEach].
    rewrite (inRange_true _ i) by lia.
    rewrite (removePage_in_range i ps) by lia. cbn [bind forEach].
    rewrite !(inRange_true _ j) by lia.
    reflexivity.
Qed.

Lemma deletePages_in_two_steps_witness :
  exists once,
    deletePages fileABC [2] = Fulfilled once /\
    deletePages (fileOf "cut.pdf" once) [0] = deletePages fileABC [2; 0].
Proof.
  assert (Hv : valid_pdf fileABC
                 {| pages := [samplePage "a"; samplePage "b"; samplePage "c"] |})
    by (split; [exists true; reflexivity | discriminate]).
  apply (deletePages_in_two_steps fileABC _ 2 0 "cut.pdf" Hv);
    unfold getPageCount; simpl; lia.
Defined.

(** ** pdfToImages *)

(** X12.  The pictures do not depend on what the pages show, nor on the format
    asked for: two PDFs with the same number of pages give the same list of
    blobs. *)
Theorem pdfToImages_depends_on_page_count_only
    (file1 file2 : File) (doc1 doc2 : PDFDocument) (kind1 kind2 : ImageKind) :
  loads file1 doc1 -> loads file2 doc2 ->
  List.length (pages doc1) = List.length (pages doc2) ->
  pdfToImages file1 kind1 = pdfToImages file2 kind2.
Proof.
  intros H1 H2 Hlen.
  rewrite (pdfToImages_blobs file1 doc1 kind1 H1).
  rewrite (pdfToImages_blobs file2 doc2 kind2 H2).
  unfold getPageCount. rewrite Hlen. reflexivity.
Qed.

Lemma pdfToImages_depends_on_page_count_only_witness :
  pdfToImages fileB jpg
  = pdfToImages (pdfFile "other.pdf" [samplePage "x"; samplePage "y"]) png.
Proof.
  apply (pdfToImages_depends_on_page_count_only fileB _
           {| pages := [samplePage "p"; samplePage "p"] |}
           {| pages := [samplePage "x"; samplePage "y"] |}).
  - exists true; reflexivity.
  - exists true; reflexivity.
  - reflexivity.
Defined.

Lemma to_uint_not_nil (n : N) : N.to_uint n <> Decimal.Nil.
Proof.
  intros H.
  assert (Hn : n = 0%N) by (rewrite <- (DecimalN.Unsigned.of_to n), H; reflexivity).
  subst n. discriminate H.
Qed.

Lemma toString_injective (m n : Z) :
  0 <= m -> 0 <= n -> toString m = toString n -> m = n.
Proof.
  intros Hm Hn E. unfold toString in E.
  apply (f_equal NilZero.uint_of_string) in E.
  rewrite !NilZero.usu in E by apply to_uint_not_nil.
  injection E as E. apply (f_equal N.of_uint) in E.
  rewrite !DecimalN.Unsigned.of_to in E. lia.
Qed.

Lemma range_NoDup (n : nat) : NoDup (range (Z.of_nat n)).
Proof.
  rewrite range_spec. apply NoDup_map_NoDup_ForallPairs; [|apply seq_NoDup].
  intros a b _ _ E. apply Nat2Z.inj. exact E.
Qed.

(** X13.  Every page gets a picture of its own: the blobs are pairwise
    different (they differ in the page number they show), and there is one
    for each page. *)
Theorem pdfToImages_blobs_pairwise_distinct
    (file : File) (doc : PDFDocument) (kind : ImageKind) :
  loads file doc ->
  exists blobs,
    pdfToImages file kind = Fulfilled blobs /\
    List.length blobs = List.length (pages doc) /\
    NoDup blobs.
Proof.
  intros Hl. eexists. split; [apply pdfToImages_blobs; exact Hl|].
  unfold getPageCount. split.
  - rewrite range_spec, !length_map, length_seq. reflexivity.
  - apply NoDup_map_NoDup_ForallPairs; [|apply range_NoDup].
    intros i j Hi Hj E. apply in_range_iff in Hi, Hj.
    assert (E' : toString (i + 1) = toString (j + 1)).
    { unfold pngPlaceholder in E. rewrite !pageCanvas_bitmap in E.
      injection E as E. exact E. }
    apply toString_injective in E'; lia.
Qed.

Lemma pdfToImages_blobs_pairwise_distinct_witness :
  exists blobs,
    pdfToImages fileABC jpg = Fulfilled blobs /\
    List.length blobs = 3%nat /\
    NoDup blobs.
Proof.
  assert (Hl : loads fileABC
                 {| pages := [samplePage "a"; samplePage "b"; samplePage "c"] |})
    by (exists true; reflexivity).
  exact (pdfToImages_blobs_pairwise_distinct fileABC _ jpg Hl).
Defined.

(** ** imagesToPdf *)

(** X14.  [imagesToPdf] is all or nothing: when the files before [bad] hold
    images of their declared kind and [bad] cannot be read or embedded (its
    bytes are not of the kind its MIME type selects), the conversion rejects
    with that error, whatever follows. *)
Theorem imagesToPdf_rejects_at_first_bad_input
    (before after : list File) (images : list EncodedImage) (bad : File) (e : JsError) :
  Forall2 holds_image before images ->
  (arrayBuffer <- await (arrayBuffer bad) ;;
   if includes (type bad) "png"
   then await (embedPng arrayBuffer)
   else await (embedJpg arrayBuffer)) = Throw e ->
  imagesToPdf (before ++ bad :: after) = Rejected e.
Proof.
  intros Hall Hbad. unfold imagesToPdf. cbn [create await bind].
  rewrite forEach_app. rewrite (images_loop before images _ Hall).
  cbn [bind forEach].
  destruct (arrayBuffer bad) as [bytes|e']; cbn [await bind] in Hbad |- *.
  - destruct (includes (type bad) "png").
    + destruct (embedPng bytes) as [img|e'']; cbn [await bind] in Hbad |- *;
        [discriminate|]. injection Hbad as ->. reflexivity.
    + destruct (embedJpg bytes) as [img|e'']; cbn [await bind] in Hbad |- *;
        [discriminate|]. injection Hbad as ->. reflexivity.
  - injection Hbad as ->. reflexivity.
Qed.

Lemma imagesToPdf_rejects_at_first_bad_input_witness :
  imagesToPdf [imageFile "wide.png" "image/png" (pngImage 1920 1080);
               imageFile "drawing.gif" "image/gif" (pngImage 10 10);
               imageFile "tall.jpg" "image/jpeg" (jpegImage 600 1200)]
  = Rejected (Error "SOI not found in JPEG").
Proof.
  apply (imagesToPdf_rejects_at_first_bad_input
           [imageFile "wide.png" "image/png" (pngImage 1920 1080)]
           [imageFile "tall.jpg" "image/jpeg" (jpegImage 600 1200)]
           [pngImage 1920 1080]
           (imageFile "drawing.gif" "image/gif" (pngImage 10 10))).
  - repeat constructor.
  - reflexivity.
Defined.

(** * Further properties of DocumentProcessor *)

(** ** The output file name *)

Lemma list_ascii_of_string_app (s1 s2 : string) :
  list_ascii_of_string (s1 ++ s2)%string
  = list_ascii_of_string s1 ++ list_ascii_of_string s2.
Proof. induction s1 as [|c s1 IH]; simpl; [reflexivity | rewrite IH; reflexivity]. Qed.

Lemma string_of_list_ascii_app (l1 l2 : list ascii) :
  string_of_list_ascii (l1 ++ l2)
  = (string_of_list_ascii l1 ++ string_of_list_ascii l2)%string.
Proof. induction l1 as [|c l1 IH]; simpl; [reflexivity | rewrite IH; reflexivity]. Qed.

Lemma scan_extension_app (ext rest : list ascii) :
  Forall (fun c => c <> "."%char /\ c <> "/"%char) ext ->
  scan_extension (ext ++ "."%char :: rest) = Some rest.
Proof.
  induction 1 as [|c ext [Hdot Hslash] _ IH]; simpl.
  - reflexivity.
  - apply Ascii.eqb_neq in Hdot, Hslash. rewrite Hdot, Hslash. exact IH.
Qed.

Lemma scan_extension_no_dot (l : list ascii) :
  Forall (fun c => c <> "."%char) l -> scan_extension l = None.
Proof.
  induction 1 as [|c l Hdot _ IH]; simpl.
  - reflexivity.
  - apply Ascii.eqb_neq in Hdot. rewrite Hdot.
    destruct (Ascii.eqb c "/"); [reflexivity | exact IH].
Qed.

Lemma replace_extension_at_last_dot (stem ext replacement : string) :
  ext <> EmptyString ->
  Forall (fun c => c <> "."%char /\ c <> "/"%char) (list_ascii_of_string ext) ->
  replace_extension (stem ++ "." ++ ext) replacement = (stem ++ replacement)%string.
Proof.
  intros Hne Hext. unfold replace_extension.
  rewrite !list_ascii_of_string_app. cbn [list_ascii_of_string app].
  rewrite rev_app_distr. cbn [rev]. rewrite <- app_assoc. cbn [app].
  assert (Hrev : Forall (fun c => c <> "."%char /\ c <> "/"%char)
                   (rev (list_ascii_of_string ext)))
    by (apply Forall_rev; exact Hext).
  destruct (rev (list_ascii_of_string ext)) as [|c rest] eqn:E.
  - exfalso. apply Hne.
    apply (f_equal (@rev ascii)) in E. rewrite rev_involutive in E. simpl in E.
    rewrite <- (string_of_list_ascii_of_string ext), E. reflexivity.
  - inversion Hrev as [|? ? [Hdot Hslash] Hrest]; subst.
    cbn [app]. apply Ascii.eqb_neq in Hdot, Hslash. rewrite Hdot, Hslash.
    cbn [orb]. rewrite (scan_extension_app rest _ Hrest).
    rewrite rev_involutive, string_of_list_ascii_of_string. reflexivity.
Qed.

(** X15.  A name [stem.ext], where [ext] is not empty and holds neither a dot
    nor a slash, becomes [stem] followed by the replacement: only the last
    extension is replaced. *)
Theorem replace_extension_swaps_last_extension (stem ext replacement : string) :
  ext <> EmptyString ->
  Forall (fun c => c <> "."%char /\ c <> "/"%char) (list_ascii_of_string ext) ->
  replace_extension (stem ++ "." ++ ext) replacement = (stem ++ replacement)%string.
Proof. apply replace_extension_at_last_dot. Qed.

Lemma replace_extension_swaps_last_extension_witness :
  replace_extension "annual.report.docx" ".pdf" = "annual.report.pdf"%string.
Proof.
  apply (replace_extension_swaps_last_extension "annual.report" "docx" ".pdf").
  - discriminate.
  - repeat constructor; discriminate.
Defined.

(** X16.  A name without a dot is left as it is: it does not get the new
    extension. *)
Theorem replace_extension_without_dot (fileName replacement : string) :
  Forall (fun c => c <> "."%char) (list_ascii_of_string fileName) ->
  replace_extension fileName replacement = fileName.
Proof.
  intros Hno. unfold replace_extension.
  assert (Hrev : Forall (fun c => c <> "."%char) (rev (list_ascii_of_string fileName)))
    by (apply Forall_rev; exact Hno).
  destruct (rev (list_ascii_of_string fileName)) as [|c rest]; [reflexivity|].
  inversion Hrev as [|? ? Hdot Hrest]; subst.
  destruct (Ascii.eqb c "." || Ascii.eqb c "/"); [reflexivity|].
  rewrite (scan_extension_no_dot rest Hrest). reflexivity.
Qed.

Lemma replace_extension_without_dot_witness :
  replace_extension "README" ".pdf" = "README"%string.
Proof.
  apply replace_extension_without_dot. repeat constructor; discriminate.
Defined.

Lemma replace_extension_cases (fileName replacement : string) :
  replace_extension fileName replacement = fileName \/
  exists stem, replace_extension fileName replacement = (stem ++ replacement)%string.
Proof.
  unfold replace_extension.
  destruct (rev (list_ascii_of_string fileName)) as [|c rest]; [left; reflexivity|].
  destruct (Ascii.eqb c "." || Ascii.eqb c "/"); [left; reflexivity|].
  destruct (scan_extension rest) as [stem|]; [|left; reflexivity].
  right. eexists. reflexivity.
Qed.

(** X17.  Replacing the extension by [".pdf"] twice is replacing it once. *)
Theorem replace_extension_pdf_idempotent (fileName : string) :
  replace_extension (replace_extension fileName ".pdf") ".pdf"
  = replace_extension fileName ".pdf".
Proof.
  destruct (replace_extension_cases fileName ".pdf") as [H|[stem H]]; rewrite H.
  - exact H.
  - apply (replace_extension_at_last_dot stem "pdf" ".pdf").
    + discriminate.
    + repeat constructor; discriminate.
Qed.

(** ** Conversions to PDF *)

Lemma append_assoc (s1 s2 s3 : string) :
  ((s1 ++ s2) ++ s3 = s1 ++ (s2 ++ s3))%string.
Proof. induction s1 as [|c s1 IH]; simpl; [reflexivity | rewrite IH; reflexivity]. Qed.

Lemma append_empty_r (s : string) : (s ++ EmptyString)%string = s.
Proof. induction s as [|c s IH]; simpl; [reflexivity | rewrite IH; reflexivity]. Qed.

Section ToPdfOutcomes.
Context {J : JsPDF} {R : OfficeReaders}.

(** X18.  The outcomes of [wordToPdf].  When reading the file or extracting
    its text fails with [e], [e] is logged once and the promise rejects with
    the generic error; otherwise nothing is logged and the promise is the
    one [createTextPdf] returns for the extracted text, fulfilled or
    rejected. *)
Theorem wordToPdf_outcomes (file : File) :
  match (arrayBuffer <- await (arrayBuffer file) ;;
         await (mammoth_extractRawText arrayBuffer)) with
  | Normal content =>
      wordToPdf file
      = ([], createTextPdf content (replace_extension (name file) ".pdf"))
  | Throw e =>
      wordToPdf file
      = ([("Word to PDF conversion failed:"%string, e)],
         Rejected (Error "Failed to convert Word document"))
  end.
Proof.
  unfold wordToPdf.
  destruct (arrayBuffer file) as [bytes|e]; cbn; [|reflexivity].
  destruct (mammoth_extractRawText bytes) as [content|e]; cbn; [|reflexivity].
  destruct (createTextPdf content (replace_extension (name file) ".pdf")); reflexivity.
Qed.

Lemma excel_text_loop (workbook : Workbook) (csv : string -> string)
    (names : list string) (content : string) :
  (forall sheetName, In sheetName names ->
     XLSX_sheet_to_csv (Sheets workbook sheetName) = Normal (csv sheetName)) ->
  forEach (fun sheetName content =>
             let worksheet := Sheets workbook sheetName in
             csvData <- XLSX_sheet_to_csv worksheet ;;
             Normal (content ++ "Sheet: " ++ sheetName ++ LF ++ csvData ++ LF ++ LF)%string)
    names content
  = Normal (content ++
            fold_right String.append EmptyString
              (map (fun sheetName =>
                      "Sheet: " ++ sheetName ++ LF ++ csv sheetName ++ LF ++ LF)%string
                   names))%string.
Proof.
  revert content. induction names as [|n names IH]; intros content Hcsv.
  - simpl. rewrite append_empty_r. reflexivity.
  - cbn [forEach]. cbv zeta. rewrite (Hcsv n (or_introl eq_refl)). cbn [bind].
    rewrite IH by (intros m Hm; apply Hcsv; right; exact Hm).
    cbn [map fold_right]. rewrite append_assoc. reflexivity.
Qed.

(** X19.  The text [excelToPdf] renders.  When the workbook is read and every
    sheet converts to CSV, the text handed to [createTextPdf] is, for each
    sheet in workbook order, the line [Sheet: name], the sheet's CSV and an
    empty line; nothing is logged. *)
Theorem excelToPdf_text
    (file : File) (bytes : Bytes) (workbook : Workbook) (csv : string -> string) :
  arrayBuffer file = Fulfilled bytes ->
  XLSX_read bytes = Normal workbook ->
  (forall sheetName, In sheetName (SheetNames workbook) ->
     XLSX_sheet_to_csv (Sheets workbook sheetName) = Normal (csv sheetName)) ->
  excelToPdf file
  = ([], createTextPdf
           (fold_right String.append EmptyString
              (map (fun sheetName =>
                      "Sheet: " ++ sheetName ++ LF ++ csv sheetName ++ LF ++ LF)%string
                   (SheetNames workbook)))
           (replace_extension (name file) ".pdf")).
Proof.
  intros E1 E2 Hcsv. unfold excelToPdf. rewrite E1. cbn [await bind Console.lift].
  rewrite E2. cbn [bind].
  rewrite (excel_text_loop workbook csv _ _ Hcsv). cbn [bind String.append].
  unfold Console.async, Console.try_catch. cbn [fst snd async].
  match goal with |- context [createTextPdf ?c ?n] => destruct (createTextPdf c n) end;
    reflexivity.
Qed.

(** X20.  [excelToPdf] is all or nothing: when the sheets before [bad] convert
    and the CSV conversion of [bad] throws [e], the error is logged and the
    promise rejects with the generic error; no partial text is rendered. *)
Theorem excelToPdf_rejects_at_first_bad_sheet
    (file : File) (bytes : Bytes) (workbook : Workbook) (csv : string -> string)
    (before after : list string) (bad : string) (e : JsError) :
  arrayBuffer file = Fulfilled bytes ->
  XLSX_read bytes = Normal workbook ->
  SheetNames workbook = before ++ bad :: after ->
  (forall sheetName, In sheetName before ->
     XLSX_sheet_to_csv (Sheets workbook sheetName) = Normal (csv sheetName)) ->
  XLSX_sheet_to_csv (Sheets workbook bad) = Throw e ->
  excelToPdf file
  = ([("Excel to PDF conversion failed:"%string, e)],
     Rejected (Error "Failed to convert Excel document")).
Proof.
  intros E1 E2 Hnames Hcsv Hbad. unfold excelToPdf.
  rewrite E1. cbn [await bind Console.lift]. rewrite E2. cbn [bind].
  rewrite Hnames, forEach_app.
  rewrite (excel_text_loop workbook csv _ _ Hcsv). cbn [bind forEach].
  cbv zeta. rewrite Hbad. reflexivity.
Qed.

End ToPdfOutcomes.

Lemma excelToPdf_text_witness :
  @excelToPdf jsPDF_output_throws sampleReaders xlsxFile
  = ([], @createTextPdf jsPDF_output_throws
           ("Sheet: Sheet1" ++ LF ++ "a,b" ++ LF ++ LF)%string "table.pdf").
Proof.
  apply (@excelToPdf_text jsPDF_output_throws sampleReaders xlsxFile
           (XlsxBytes [("Sheet1"%string, [["a"; "b"]%string])])
           [("Sheet1"%string, [["a"; "b"]%string])]
           (fun _ => "a,b"%string)).
  - reflexivity.
  - reflexivity.
  - intros sheetName [<-|[]]. reflexivity.
Defined.

Lemma excelToPdf_rejects_at_first_bad_sheet_witness :
  @excelToPdf jsPDF_output_throws fragileReaders twoSheetFile
  = ([("Excel to PDF conversion failed:"%string, Error "Sheet has no rows")],
     Rejected (Error "Failed to convert Excel document")).
Proof.
  apply (@excelToPdf_rejects_at_first_bad_sheet jsPDF_output_throws fragileReaders
           twoSheetFile
           (XlsxBytes [("Data"%string, [["a"; "b"]%string]); ("Blank"%string, [])])
           [("Data"%string, [["a"; "b"]%string]); ("Blank"%string, [])]
           (fun _ => "a,b"%string) ["Data"%string] [] "Blank").
  - reflexivity.
  - reflexivity.
  - reflexivity.
  - intros sheetName [<-|[]]. reflexivity.
  - reflexivity.
Defined.

(** ** Conversions from PDF *)

Lemma prefix_append (needle rest : string) : prefix needle (needle ++ rest) = true.
Proof.
  induction needle as [|c needle IH]; cbn [String.append].
  - destruct rest; reflexivity.
  - cbn [prefix]. destruct (ascii_dec c c) as [_|Hne]; [exact IH | contradiction].
Qed.

Lemma includes_prefix (s needle : string) :
  prefix needle s = true -> includes s needle = true.
Proof. intros H. destruct s; cbn [includes]; rewrite H; reflexivity. Qed.

Lemma includes_append (before needle rest : string) :
  includes (before ++ needle ++ rest) needle = true.
Proof.
  induction before as [|c before IH].
  - cbn [String.append]. apply includes_prefix, prefix_append.
  - cbn [String.append includes].
    destruct (prefix needle (String c (before ++ needle ++ rest)));
      [reflexivity | exact IH].
Qed.

(** X21.  [pdfToWord] and [pdfToPowerPoint] never look at the input's bytes:
    for every file, also one that cannot be read or is no PDF, they log
    nothing and are fulfilled with a blob of plain text (tagged with the
    Word or PowerPoint MIME type) that mentions the file's name. *)
Theorem fromPdf_text_placeholders (fileName mime : string) (content : promise Bytes) :
  let file := {| name := fileName; type := mime; arrayBuffer := content |} in
  (exists text,
      pdfToWord file
      = ([], Fulfilled
               {| blobPart := Utf8Text text;
                  blobType := "application/vnd.openxmlformats-officedocument.wordprocessingml.document" |}) /\
      includes text fileName = true) /\
  (exists text,
      pdfToPowerPoint file
      = ([], Fulfilled
               {| blobPart := Utf8Text text;
                  blobType := "application/vnd.openxmlformats-officedocument.presentationml.presentation" |}) /\
      includes text fileName = true).
Proof.
  intros file. split; eexists; (split; [reflexivity|]); cbn [name file];
    apply includes_append.
Qed.

(** * htmlToPdf *)

Import Qround.

(** ** The frame in the document *)

Lemma frame_in_document (url : string) (document : DOM.Document) :
  wellFormed document ->
  DOM.set_src
    (DOM.set_style "height" "768px"
       (DOM.set_style "width" "1024px"
          (DOM.set_style "left" "-9999px"
             (DOM.set_style "position" "absolute"
                (fst (DOM.createElement "iframe" document))))))
    url
    (DOM.appendChild
       (DOM.set_style "height" "768px"
          (DOM.set_style "width" "1024px"
             (DOM.set_style "left" "-9999px"
                (DOM.set_style "position" "absolute"
                   (fst (DOM.createElement "iframe" document))))))
       (snd (DOM.createElement "iframe" document)))
  = withFrame url document.
Proof.
  intros Hwf. unfold DOM.set_src, DOM.appendChild, withFrame. cbn.
  f_equal. rewrite map_app. cbn. rewrite Nat.eqb_refl. f_equal.
  rewrite <- (map_id (DOM.body document)) at 2.
  apply map_ext_in. intros c Hc.
  unfold wellFormed in Hwf. rewrite Forall_forall in Hwf. specialize (Hwf c Hc).
  replace (Nat.eqb (DOM.nodeId c) (DOM.nextNodeId document)) with false
    by (symmetry; apply Nat.eqb_neq; lia).
  reflexivity.
Qed.

Lemma removeChild_frame (url : string) (document : DOM.Document) (frame : DOM.Element) :
  wellFormed document ->
  DOM.nodeId frame = DOM.nextNodeId document ->
  DOM.removeChild frame (withFrame url document) = Normal (afterRelease document).
Proof.
  intros Hwf Hid. unfold DOM.removeChild, withFrame, afterRelease. cbn.
  rewrite existsb_app. cbn. rewrite Hid, Nat.eqb_refl, orb_true_r. cbn.
  rewrite filter_app. cbn. rewrite Nat.eqb_refl. cbn. rewrite app_nil_r.
  f_equal. f_equal.
  unfold wellFormed in Hwf.
  induction Hwf as [|c cs Hc _ IH]; cbn; [reflexivity|].
  replace (Nat.eqb (DOM.nodeId c) (DOM.nextNodeId document)) with false
    by (symmetry; apply Nat.eqb_neq; lia).
  cbn. rewrite IH. reflexivity.
Qed.

Lemma removeAndReject_frame
    (url : string) (document : DOM.Document) (frame : DOM.Element) (e : JsError) :
  wellFormed document ->
  DOM.nodeId frame = DOM.nextNodeId document ->
  removeAndReject frame e (withFrame url document)
  = (afterRelease document, Settles (Rejected e)).
Proof.
  intros Hwf Hid. unfold removeAndReject.
  rewrite (removeChild_frame url document frame Hwf Hid). reflexivity.
Qed.

(** ** The pages *)

Lemma addImage_on_new_page (imgData : EncodedImage) (y w h : Q) (pdf : PDFDocument) :
  JsPDFPages.addImage imgData 0 y w h (JsPDFPages.addPage pdf)
  = {| pages := pages pdf ++ [tiledPage imgData y w h] |}.
Proof.
  unfold JsPDFPages.addImage, JsPDFPages.addPage, drawImage, updatePage. cbn [pages].
  rewrite length_app. cbn [List.length].
  replace (List.length (pages pdf) + 1 - 1)%nat with (List.length (pages pdf)) by lia.
  rewrite update_nth_app. reflexivity.
Qed.

Lemma Qfloor_unique (x : Q) (z : Z) :
  (inject_Z z <= x)%Q -> (x < inject_Z (z + 1))%Q -> Qfloor x = z.
Proof.
  intros Hle Hlt.
  assert (H1 : (inject_Z (Qfloor x) < inject_Z (z + 1))%Q)
    by (eapply Qle_lt_trans; [apply Qfloor_le | exact Hlt]).
  assert (H2 : (inject_Z z < inject_Z (Qfloor x + 1))%Q)
    by (eapply Qle_lt_trans; [exact Hle | apply Qlt_floor]).
  rewrite <- Zlt_Qlt in H1, H2. lia.
Qed.

Lemma Qfloor_step (x p : Q) :
  (0 < p)%Q -> Qfloor ((x - p) / p) = Qfloor (x / p) - 1.
Proof.
  intros Hp.
  assert (Hp0 : ~ (p == 0)%Q) by (intros E; rewrite E in Hp; exact (Qlt_irrefl 0 Hp)).
  assert (E : ((x - p) / p == x / p - 1)%Q) by (field; exact Hp0).
  rewrite E. apply Qfloor_unique.
  - unfold Z.sub. rewrite inject_Z_plus, inject_Z_opp.
    apply Qplus_le_compat; [apply Qfloor_le | apply Qle_refl].
  - replace (Qfloor (x / p) - 1 + 1) with (Qfloor (x / p)) by lia.
    assert (H := Qlt_floor (x / p)). rewrite inject_Z_plus in H.
    apply Qplus_lt_l with (z := 1%Q).
    setoid_replace (x / p - 1 + 1)%Q with (x / p)%Q by ring.
    exact H.
Qed.

Lemma Qfloor_nonneg (x : Q) : (0 <= x)%Q -> 0 <= Qfloor x.
Proof.
  intros Hx. change 0 with (Qfloor 0). apply Qfloor_resp_le. exact Hx.
Qed.

Lemma Qfloor_neg (x : Q) : (x < 0)%Q -> Qfloor x < 0.
Proof.
  intros Hx. rewrite Zlt_Qlt. eapply Qle_lt_trans; [apply Qfloor_le | exact Hx].
Qed.

Lemma Forall2_seq_shift {A} (P : nat -> A -> Prop) (n k : nat) (ys : list A) :
  Forall2 (fun i y => P (S i) y) (seq k n) ys -> Forall2 P (seq (S k) n) ys.
Proof.
  revert k ys. induction n as [|n IH]; intros k ys H; cbn in *.
  - inversion H; subst. constructor.
  - inversion H as [|? ? ? ? Hhd Htl]; subst. constructor; [exact Hhd|].
    apply IH. exact Htl.
Qed.

Lemma tilePages_pages (imgData : EncodedImage) (w H p : Q) :
  (0 < p)%Q ->
  forall (fuel : nat) (hl : Q) (pdf : PDFDocument),
    Qfloor (hl / p) + 1 <= Z.of_nat fuel ->
    exists ys,
      tilePages fuel imgData w H p hl pdf
      = Some {| pages := pages pdf ++ map (fun y => tiledPage imgData y w H) ys |} /\
      Z.of_nat (List.length ys) = Z.max 0 (Qfloor (hl / p) + 1) /\
      Forall2 (fun i y => (y == hl - inject_Z (Z.of_nat i) * p - H)%Q)
        (seq 0 (List.length ys)) ys.
Proof.
  intros Hp.
  assert (Hfloor : forall hl, Qle_bool 0 hl = true -> 0 <= Qfloor (hl / p)).
  { intros hl E. apply Qle_bool_iff in E. apply Qfloor_nonneg.
    apply Qle_shift_div_l; [exact Hp|]. rewrite Qmult_0_l. exact E. }
  induction fuel as [|fuel IH]; intros hl pdf Hfuel; cbn [tilePages];
    destruct (Qle_bool 0 hl) eqn:E.
  - specialize (Hfloor hl E). lia.
  - exists []. cbn [map List.length seq]. rewrite app_nil_r, doc_eta.
    split; [reflexivity|]. split; [|constructor].
    assert (Hneg : (hl < 0)%Q).
    { apply Qnot_le_lt. intros Hle. apply Qle_bool_iff in Hle. congruence. }
    assert (Qfloor (hl / p) < 0).
    { apply Qfloor_neg. apply Qlt_shift_div_r; [exact Hp|].
      rewrite Qmult_0_l. exact Hneg. }
    lia.
  - specialize (Hfloor hl E). cbv zeta. rewrite addImage_on_new_page.
    destruct (IH (hl - p)%Q {| pages := pages pdf ++ [tiledPage imgData (hl - H) w H] |})
      as [ys [E1 [E2 E3]]].
    + rewrite Qfloor_step by exact Hp. lia.
    + exists ((hl - H)%Q :: ys). split; [|split].
      * rewrite E1. cbn [pages map]. rewrite <- app_assoc. reflexivity.
      * cbn [List.length]. rewrite Nat2Z.inj_succ, E2.
        rewrite Qfloor_step by exact Hp. lia.
      * cbn [List.length seq]. constructor.
        -- cbn. ring.
        -- apply Forall2_seq_shift.
           eapply Forall2_impl; [|exact E3].
           intros i y Hy. cbv beta in Hy |- *. rewrite Hy.
           rewrite Nat2Z.inj_succ. unfold Z.succ. rewrite inject_Z_plus. ring.
  - exists []. cbn [map List.length seq]. rewrite app_nil_r, doc_eta.
    split; [reflexivity|]. split; [|constructor].
    assert (Hneg : (hl < 0)%Q).
    { apply Qnot_le_lt. intros Hle. apply Qle_bool_iff in Hle. congruence. }
    assert (Qfloor (hl / p) < 0).
    { apply Qfloor_neg. apply Qlt_shift_div_r; [exact Hp|].
      rewrite Qmult_0_l. exact Hneg. }
    lia.
Qed.

Lemma scaledHeight_nonneg (canvas : Canvas.t) :
  0 < Canvas.width canvas -> 0 <= Canvas.height canvas ->
  (0 <= scaledHeight canvas)%Q.
Proof.
  intros Hw Hh. unfold scaledHeight.
  apply Qle_shift_div_l; [rewrite <- (Zlt_Qlt 0); exact Hw|].
  rewrite Qmult_0_l. apply Qmult_le_0_compat; [|discriminate].
  rewrite <- (Zle_Qle 0). exact Hh.
Qed.

Lemma renderPdf_pages (canvas : Canvas.t) :
  0 < Canvas.width canvas -> 0 <= Canvas.height canvas ->
  exists ys,
    renderPdf canvas
    = Some (JsPDFPages.output
              {| pages := map (fun y => tiledPage (toDataURL canvas) y 210
                                          (scaledHeight canvas)) ys |}) /\
    Z.of_nat (List.length ys) = 1 + Qfloor (scaledHeight canvas / 295) /\
    Forall2 (fun k y => (y == - (inject_Z (Z.of_nat k) * 295))%Q)
      (seq 0 (List.length ys)) ys.
Proof.
  intros Hw Hh. assert (HH := scaledHeight_nonneg canvas Hw Hh).
  unfold renderPdf. fold (scaledHeight canvas). cbv zeta.
  change JsPDFPages.create with (JsPDFPages.addPage {| pages := [] |}).
  rewrite addImage_on_new_page. cbn [pages app].
  assert (Hp : (0 < 295)%Q) by reflexivity.
  assert (Hfl : 0 <= Qfloor (scaledHeight canvas / 295)).
  { apply Qfloor_nonneg. apply Qle_shift_div_l; [exact Hp | lra]. }
  destruct (tilePages_pages (toDataURL canvas) 210 (scaledHeight canvas) 295 Hp
              (S (Z.to_nat (Qfloor (scaledHeight canvas))))
              (scaledHeight canvas - 295)%Q
              {| pages := [tiledPage (toDataURL canvas) 0 210 (scaledHeight canvas)] |})
    as [ys [E1 [E2 E3]]].
  - rewrite Qfloor_step by exact Hp.
    assert (Qfloor (scaledHeight canvas / 295) <= Qfloor (scaledHeight canvas)).
    { apply Qfloor_resp_le. apply Qle_shift_div_r; [exact Hp | lra]. }
    assert (0 <= Qfloor (scaledHeight canvas)) by (apply Qfloor_nonneg; exact HH).
    lia.
  - rewrite E1. exists (0%Q :: ys). split; [reflexivity|]. split.
    + cbn [List.length]. rewrite Nat2Z.inj_succ, E2.
      rewrite Qfloor_step by exact Hp. lia.
    + cbn [List.length seq]. constructor; [cbn; ring|].
      apply Forall2_seq_shift. eapply Forall2_impl; [|exact E3].
      intros i y Hy. cbv beta in Hy |- *. rewrite Hy.
      rewrite Nat2Z.inj_succ. unfold Z.succ. rewrite inject_Z_plus. ring.
Qed.

Section HtmlToPdf.
Context {B : Browser}.

Lemma htmlToPdf_loaded (url : string) (document : DOM.Document) (contentBody : option string) :
  wellFormed document ->
  navigate url = FrameLoaded contentBody ->
  exists frame,
    DOM.nodeId frame = DOM.nextNodeId document /\
    htmlToPdf url document
    = match (body <- match contentBody with
                     | Some body => Normal body
                     | None => Throw (Error "Cannot read properties of null (reading 'body')")
                     end ;;
             canvas <- await (html2canvas body 1024 768 1) ;;
             Normal (renderPdf canvas)) with
      | Normal (Some pdfBlob) =>
          match DOM.removeChild frame (withFrame url document) with
          | Normal document' => (document', Settles (Fulfilled pdfBlob))
          | Throw error => removeAndReject frame error (withFrame url document)
          end
      | Normal None => (withFrame url document, NeverSettles)
      | Throw error => removeAndReject frame error (withFrame url document)
      end.
Proof.
  intros Hwf Hnav. eexists. split; [|unfold htmlToPdf; rewrite Hnav].
  2: { assert (E := frame_in_document url document Hwf).
       cbn [DOM.createElement fst snd] in E |- *. rewrite E. reflexivity. }
  reflexivity.
Qed.

Lemma htmlToPdf_page_tiling_aux
    (url body : string) (canvas : Canvas.t) (document : DOM.Document) :
  wellFormed document ->
  navigate url = FrameLoaded (Some body) ->
  html2canvas body 1024 768 1 = Fulfilled canvas ->
  0 < Canvas.width canvas -> 0 <= Canvas.height canvas ->
  exists blob,
    htmlToPdf url document = (afterRelease document, Settles (Fulfilled blob)) /\
    exists ys,
      pdf_pages blob
      = Some (map (fun y => tiledPage (toDataURL canvas) y 210 (scaledHeight canvas)) ys) /\
      Z.of_nat (List.length ys) = 1 + Qfloor (scaledHeight canvas / 295) /\
      Forall2 (fun k y => (y == - (inject_Z (Z.of_nat k) * 295))%Q)
        (seq 0 (List.length ys)) ys.
Proof.
  intros Hwf Hnav Hshot Hw Hh.
  destruct (htmlToPdf_loaded url document (Some body) Hwf Hnav) as [frame [Hid E]].
  destruct (renderPdf_pages canvas Hw Hh) as [ys [Er [Hlen Hpos]]].
  rewrite E. cbn [bind]. rewrite Hshot. cbn [await bind]. rewrite Er.
  rewrite (removeChild_frame url document frame Hwf Hid).
  eexists. split; [reflexivity|]. exists ys.
  split; [reflexivity|]. split; [exact Hlen | exact Hpos].
Qed.

(** X22.  The pages [htmlToPdf] makes.  When the frame loads and the snapshot
    has positive width and height, the promise is fulfilled with a PDF of
    [1 + floor (h / 295)] pages, [h] being the height in millimetres of the
    snapshot scaled to 210 wide; every page shows the whole picture, on page
    [k] (from 0) moved up by [295 k]; the frame is gone from the body. *)
Theorem htmlToPdf_page_tiling
    (url body : string) (canvas : Canvas.t) (document : DOM.Document) :
  wellFormed document ->
  navigate url = FrameLoaded (Some body) ->
  html2canvas body 1024 768 1 = Fulfilled canvas ->
  0 < Canvas.width canvas -> 0 < Canvas.height canvas ->
  exists blob ys,
    htmlToPdf url document = (afterRelease document, Settles (Fulfilled blob)) /\
    pdf_pages blob
    = Some (map (fun y => tiledPage (toDataURL canvas) y 210 (scaledHeight canvas)) ys) /\
    Z.of_nat (List.length ys) = 1 + Qfloor (scaledHeight canvas / 295) /\
    Forall2 (fun k y => (y == - (inject_Z (Z.of_nat k) * 295))%Q)
      (seq 0 (List.length ys)) ys.
Proof.
  intros Hwf Hnav Hshot Hw Hh.
  destruct (htmlToPdf_page_tiling_aux url body canvas document Hwf Hnav Hshot Hw
              (Z.lt_le_incl _ _ Hh))
    as [blob [E [ys H]]].
  exists blob, ys. split; [exact E | exact H].
Qed.

Lemma htmlToPdf_not_loaded (url : string) (document : DOM.Document) :
  wellFormed document ->
  (navigate url = FrameFailed ->
   htmlToPdf url document
   = (afterRelease document, Settles (Rejected (Error "Failed to load URL")))) /\
  (navigate url = FrameSilent ->
   htmlToPdf url document = (withFrame url document, NeverSettles)).
Proof.
  intros Hwf. assert (E := frame_in_document url document Hwf).
  cbn [DOM.createElement fst snd] in E.
  split; intros Hnav; unfold htmlToPdf; rewrite Hnav;
    cbn [DOM.createElement fst snd]; rewrite E.
  - apply removeAndReject_frame; [exact Hwf | reflexivity].
  - reflexivity.
Qed.

(** X24.  The frame is released whenever the promise settles.  On a
    well-formed document, and with snapshots of positive size: when the
    frame fires [load] or [error], the promise settles and the body has
    exactly the children it had before the call; when it fires neither, the
    promise never settles and the frame stays in the body. *)
Theorem htmlToPdf_releases_frame (url : string) (document : DOM.Document) :
  wellFormed document ->
  (forall body canvas,
      html2canvas body 1024 768 1 = Fulfilled canvas ->
      0 < Canvas.width canvas /\ 0 < Canvas.height canvas) ->
  match navigate url with
  | FrameSilent =>
      htmlToPdf url document = (withFrame url document, NeverSettles)
  | _ =>
      exists p, htmlToPdf url document = (afterRelease document, Settles p) /\
                DOM.body (fst (htmlToPdf url document)) = DOM.body document
  end.
Proof.
  intros Hwf Hshots.
  destruct (navigate url) as [contentBody| |] eqn:Hnav.
  - destruct contentBody as [body|].
    + destruct (html2canvas body 1024 768 1) as [canvas|e] eqn:Hshot.
      * destruct (Hshots body canvas Hshot) as [Hw Hh].
        destruct (htmlToPdf_page_tiling_aux url body canvas document
                    Hwf Hnav Hshot Hw (Z.lt_le_incl _ _ Hh)) as [blob [E _]].
        eexists. rewrite E. split; reflexivity.
      * destruct (htmlToPdf_loaded url document (Some body) Hwf Hnav)
          as [frame [Hid E]].
        rewrite E. cbn [bind]. rewrite Hshot. cbn [await bind].
        rewrite (removeAndReject_frame url document frame e Hwf Hid).
        eexists. split; reflexivity.
    + destruct (htmlToPdf_loaded url document None Hwf Hnav) as [frame [Hid E]].
      rewrite E. cbn [bind].
      rewrite (removeAndReject_frame url document frame _ Hwf Hid).
      eexists. split; reflexivity.
  - rewrite (proj1 (htmlToPdf_not_loaded url document Hwf) Hnav).
    eexists. split; reflexivity.
  - exact (proj2 (htmlToPdf_not_loaded url document Hwf) Hnav).
Qed.

(** X25.  Failures reach the caller as they are.  A frame that fires [error]
    rejects with [Error "Failed to load URL"]; a loaded frame of another
    origin, whose [contentDocument] is [null], rejects with the TypeError of
    reading its body; a rejection of html2canvas is passed on unchanged.  In
    each case the frame is removed first. *)
Theorem htmlToPdf_rejections (url : string) (document : DOM.Document) :
  wellFormed document ->
  (navigate url = FrameFailed ->
   htmlToPdf url document
   = (afterRelease document, Settles (Rejected (Error "Failed to load URL")))) /\
  (navigate url = FrameLoaded None ->
   htmlToPdf url document
   = (afterRelease document,
      Settles (Rejected (Error "Cannot read properties of null (reading 'body')")))) /\
  (forall body e,
      navigate url = FrameLoaded (Some body) ->
      html2canvas body 1024 768 1 = Rejected e ->
      htmlToPdf url document = (afterRelease document, Settles (Rejected e))).
Proof.
  intros Hwf. split; [|split].
  - apply (htmlToPdf_not_loaded url document Hwf).
  - intros Hnav.
    destruct (htmlToPdf_loaded url document None Hwf Hnav) as [frame [Hid E]].
    rewrite E. cbn [bind].
    apply removeAndReject_frame; [exact Hwf | exact Hid].
  - intros body e Hnav Hshot.
    destruct (htmlToPdf_loaded url document (Some body) Hwf Hnav) as [frame [Hid E]].
    rewrite E. cbn [bind]. rewrite Hshot. cbn [await bind].
    apply removeAndReject_frame; [exact Hwf | exact Hid].
Qed.

End HtmlToPdf.

Lemma htmlToPdf_page_tiling_witness :
  exists blob,
    @htmlToPdf sampleBrowser "https://example.org/" samplePageDocument
    = (afterRelease samplePageDocument, Settles (Fulfilled blob)) /\
    option_map (@List.length PDFPage) (pdf_pages blob) = Some 1%nat.
Proof.
  destruct (@htmlToPdf_page_tiling sampleBrowser "https://example.org/" "<p>hello</p>"
              (blankCanvas 1024 768) samplePageDocument)
    as [blob [ys [E [Hp [Hlen _]]]]].
  - repeat constructor.
  - reflexivity.
  - reflexivity.
  - reflexivity.
  - reflexivity.
  - exists blob. split; [exact E|]. rewrite Hp. cbn [option_map].
    rewrite length_map. f_equal.
    change (1 + Qfloor (scaledHeight (blankCanvas 1024 768) / 295)) with 1 in Hlen.
    lia.
Defined.

Lemma htmlToPdf_releases_frame_witness :
  (exists p,
      @htmlToPdf sampleBrowser "https://down.example/" samplePageDocument
      = (afterRelease samplePageDocument, Settles p)) /\
  @htmlToPdf sampleBrowser "https://slow.example/" samplePageDocument
  = (withFrame "https://slow.example/" samplePageDocument, NeverSettles).
Proof.
  assert (Hshots : forall body canvas,
             @html2canvas sampleBrowser body 1024 768 1 = Fulfilled canvas ->
             0 < Canvas.width canvas /\ 0 < Canvas.height canvas).
  { intros body canvas E. injection E as <-. split; reflexivity. }
  assert (sample_document_wellFormed : wellFormed samplePageDocument)
    by (repeat constructor).
  split.
  - destruct (@htmlToPdf_releases_frame sampleBrowser "https://down.example/"
                samplePageDocument sample_document_wellFormed Hshots) as [p [E _]].
    exists p. exact E.
  - exact (@htmlToPdf_releases_frame sampleBrowser "https://slow.example/"
             samplePageDocument sample_document_wellFormed Hshots).
Defined.

Lemma htmlToPdf_rejections_witness :
  @htmlToPdf sampleBrowser "https://elsewhere.example/" samplePageDocument
  = (afterRelease samplePageDocument,
     Settles (Rejected (Error "Cannot read properties of null (reading 'body')"))) /\
  @htmlToPdf brokenSnapshotBrowser "https://example.org/" samplePageDocument
  = (afterRelease samplePageDocument,
     Settles (Rejected (Error "Unable to find element in cloned iframe"))).
Proof.
  assert (sample_document_wellFormed : wellFormed samplePageDocument)
    by (repeat constructor).
  split.
  - apply (@htmlToPdf_rejections sampleBrowser "https://elsewhere.example/"
             samplePageDocument sample_document_wellFormed). reflexivity.
  - apply (proj2 (proj2 (@htmlToPdf_rejections brokenSnapshotBrowser
                           "https://example.org/" samplePageDocument
                           sample_document_wellFormed)) "<p>hello</p>");
      reflexivity.
Defined.

(** * addWatermark and addPageNumbers *)




Lemma getSize_middle (before after : list PDFPage) (p : PDFPage) :
  getSize (List.length before) {| pages := before ++ p :: after |} = size p.
Proof. unfold getSize. cbn [pages]. rewrite nth_middle. reflexivity. Qed.

Section TextStamps.
Context {T : TextEncoder}.



(** X27.  A text the font cannot encode.  When the encoder throws on the
    first page, [addWatermark] rejects with that error; nothing is saved. *)
Theorem addWatermark_rejects_unencodable_text
    (file : File) (doc : PDFDocument) (watermarkText : string)
    (first : PDFPage) (others : list PDFPage) (e : JsError) :
  loads file doc -> pages doc = first :: others ->
  textOperators watermarkText (watermarkOptions watermarkText first) = Throw e ->
  addWatermark file watermarkText = Rejected e.
Proof.
  intros [os E] Hpages Henc. unfold addWatermark. rewrite E.
  cbn [await bind load embedFont]. unfold getPages. rewrite Hpages.
  cbn [List.length seq forEach].
  destruct doc as [ps]. cbn [pages] in Hpages. subst ps.
  assert (G := getSize_middle [] others first). cbn [List.length app] in G.
  rewrite G.
  destruct (size first) as [width height] eqn:Esize.
  unfold drawText.
  unfold watermarkOptions in Henc. rewrite Esize in Henc. cbn [fst snd] in Henc.
  rewrite Henc. reflexivity.
Qed.


End TextStamps.


Lemma addWatermark_rejects_unencodable_text_witness :
  @addWatermark asciiEncoder fileB (String (ascii_of_nat 233) "t")
  = Rejected (Error "WinAnsi cannot encode the text").
Proof.
  apply (@addWatermark_rejects_unencodable_text asciiEncoder fileB
           {| pages := [samplePage "p"; samplePage "p"] |}
           (String (ascii_of_nat 233) "t") (samplePage "p") [samplePage "p"]).
  - exists true; reflexivity.
  - reflexivity.
  - reflexivity.
Defined.

